(** * CodeCritic agent core: a shallow embedding and its checked properties

    The development follows the layout of the extension:
    - [Js]         the string primitives of the host language the code relies on;
    - [Parser]     the balanced-brace scanner of features/chat.js;
    - [Todo]       todo normalisation and merging (features/chat.js);
    - [Dispatch]   tool-call normalisation (features/chat.js, tools/agentTools.js);
    - [Diff]       the line diff engine (tools/agentTools.js);
    - [Ledger]     the revert ledger and the mutating tools (tools/agentTools.js);
    - [Agent]      the agent loop [runAgentTurn] (features/chat.js).

    Texts are Rocq strings, one [ascii] per code unit; code units beyond the
    7-bit range are outside the model. *)

From Stdlib Require Import ZArith Lia Ascii.
From Stdlib Require String.
From stdpp Require Import base strings list gmap.

Local Open Scope Z_scope.

(** ** Host-language string primitives *)
Module Js.

(** The double quote character. *)
Definition dq : ascii := "034"%char.
Definition bslash : ascii := "\"%char.
Definition LF : ascii := "010"%char.
Definition CR : ascii := "013"%char.

(** [ch === lit] where [ch] is the one-unit string [src[i]]. *)
Definition chEq (ch : ascii) (lit : string) : bool :=
  bool_decide (String ch EmptyString = lit).

(** The class [\s] restricted to 7-bit code units. *)
Definition isSpace (c : ascii) : bool :=
  let n := nat_of_ascii c in
  bool_decide (n = 32%nat) || (bool_decide (9 <= n)%nat && bool_decide (n <= 13)%nat).

Fixpoint trimStart (s : string) : string :=
  match s with
  | String c r => if isSpace c then trimStart r else s
  | EmptyString => EmptyString
  end.

(** Drops the trailing white space: a unit is kept when something
    non-blank follows it or it is non-blank itself. *)
Fixpoint trimEnd (s : string) : string :=
  match s with
  | String c r =>
      match trimEnd r with
      | EmptyString => if isSpace c then EmptyString else String c EmptyString
      | r' => String c r'
      end
  | EmptyString => EmptyString
  end.

Definition trim (s : string) : string := trimEnd (trimStart s).

Definition lowerChar (c : ascii) : ascii :=
  let n := nat_of_ascii c in
  if bool_decide (65 <= n)%nat && bool_decide (n <= 90)%nat
  then ascii_of_nat (n + 32) else c.

Fixpoint toLowerCase (s : string) : string :=
  match s with
  | String c r => String (lowerChar c) (toLowerCase r)
  | EmptyString => EmptyString
  end.

(** [s.includes(c)] for a one-unit needle. *)
Fixpoint includes (c : ascii) (s : string) : bool :=
  match s with
  | String d r => bool_decide (c = d) || includes c r
  | EmptyString => false
  end.

(** [/\s/.test(s)] *)
Fixpoint hasSpace (s : string) : bool :=
  match s with
  | String d r => isSpace d || hasSpace r
  | EmptyString => false
  end.

Definition strlen (s : string) : Z := Z.of_nat (String.length s).

(** A text of 7-bit units. The bytes of such a file are valid UTF-8:
    reading them with [toString('utf8')] gives the text itself, and
    [Buffer.from(text, 'utf8')] gives the same bytes back. *)
Fixpoint sevenBit (s : string) : bool :=
  match s with
  | String c r => bool_decide (nat_of_ascii c < 128)%nat && sevenBit r
  | EmptyString => true
  end.

(** [s.slice(from, to)] for [0 <= from <= to]. *)
Definition slice (from to : Z) (s : string) : string :=
  String.substring (Z.to_nat from) (Z.to_nat (to - from)) s.

(** [s.slice(from)] *)
Definition sliceFrom (from : Z) (s : string) : string :=
  slice from (strlen s) s.

(** [lines.join(sep)] *)
Fixpoint join (sep : string) (l : list string) : string :=
  match l with
  | [] => EmptyString
  | [x] => x
  | x :: r => x +:+ sep +:+ join sep r
  end.

Definition digitChar (n : nat) : ascii := ascii_of_nat (48 + n).

Fixpoint decimalAux (fuel n : nat) (acc : string) : string :=
  match fuel with
  | O => acc
  | S f =>
      let acc' := String (digitChar (n mod 10)) acc in
      if bool_decide (n < 10)%nat then acc' else decimalAux f (n / 10) acc'
  end.

(** [String(n)] for a non-negative integer. *)
Definition decimal (n : nat) : string := decimalAux (S n) n EmptyString.

(** A text between double quotes. *)
Definition quoted (s : string) : string :=
  String dq (s +:+ String dq EmptyString).

End Js.

(** ** Response parser: the embedded-JSON scan *)
Module Parser.
Import Js.

(** The four scanner variables of [extractToolCallsFromText] and
    [extractTodoFromText]. *)
Record ScanState := mkScan {
  depth : Z;
  start : Z;
  inString : bool;
  escape : bool
}.

Definition scan0 : ScanState := mkScan 0 (-1) false false.

(** The literal the scanner compares a unit with to detect an escape.
    In the source it is written with four backslashes inside quotes,
    which denotes a text of two backslashes. *)
Definition escapeLiteral : string := "\\".

Section Scan.
(** [isEscape ch] is the test the source writes as a comparison of
    [ch] with the escape literal; [close from to acc] is what the loop
    does with a top-level span. *)
Context {A : Type}.
Variable isEscape : ascii -> bool.
Variable close : Z -> Z -> A -> A.

Definition scanChar (i : Z) (ch : ascii) (st : ScanState * A) : ScanState * A :=
  let (s, acc) := st in
  if inString s then
    if escape s then (mkScan (depth s) (start s) true false, acc)
    else if isEscape ch then (mkScan (depth s) (start s) true true, acc)
    else if chEq ch (String dq EmptyString)
         then (mkScan (depth s) (start s) false (escape s), acc)
    else st
  else if chEq ch (String dq EmptyString)
       then (mkScan (depth s) (start s) true (escape s), acc)
  else if chEq ch "{" then
    (mkScan (depth s + 1) (if depth s =? 0 then i else start s)
            (inString s) (escape s), acc)
  else if chEq ch "}" && (0 <? depth s) then
    let d := depth s - 1 in
    if (d =? 0) && (0 <=? start s)
    then (mkScan d (-1) (inString s) (escape s), close (start s) (i + 1) acc)
    else (mkScan d (start s) (inString s) (escape s), acc)
  else st.

Fixpoint scanFrom (i : Z) (src : string) (st : ScanState * A) : ScanState * A :=
  match src with
  | EmptyString => st
  | String ch rest => scanFrom (i + 1) rest (scanChar i ch st)
  end.
End Scan.

(** The test as the source has it. *)
Definition srcIsEscape (ch : ascii) : bool := chEq ch escapeLiteral.

(** For comparison, the escape test as the specification words it: a
    scanner that respects backslash escapes compares the unit with the
    one-unit backslash text. *)
Definition specIsEscape (ch : ascii) : bool := chEq ch "\".

(** The remaining prose: the source text with the ranges cut out. *)
Fixpoint cutRanges (src : string) (cursor : Z) (ranges : list (Z * Z)) : string :=
  match ranges with
  | [] => if cursor <? strlen src then sliceFrom cursor src else EmptyString
  | (from, to) :: rest =>
      (if cursor <? from then slice cursor from src else EmptyString)
        +:+ cutRanges src to rest
  end.

Section Extract.
(** [Call] is the type of the entries of a parsed [toolCalls] array and
    [toolCallsOf chunk] the outcome of parsing [chunk] as JSON and
    reading its [toolCalls] field: [Some calls] when the chunk parses to
    an object with an array there. The JSON parser is the platform's. *)
Context {Call : Type}.
Variable toolCallsOf : string -> option (list Call).

Definition closeToolCalls (src : string) (from to : Z)
    (acc : list Call * list (Z * Z)) : list Call * list (Z * Z) :=
  match toolCallsOf (slice from to src) with
  | Some calls => (acc.1 ++ calls, acc.2 ++ [(from, to)])
  | None => acc
  end.

Definition scanToolCalls (isEscape : ascii -> bool) (src : string)
    : list Call * list (Z * Z) :=
  (scanFrom isEscape (closeToolCalls src) 0 src (scan0, ([], []))).2.

(** The body of [extractToolCallsFromText] over an escape test. *)
Definition extractWith (isEscape : ascii -> bool) (text : string)
    : option (list Call * string) :=
  let '(toolCalls, ranges) := scanToolCalls isEscape text in
  match toolCalls with
  | [] => None
  | _ => Some (toolCalls, trim (cutRanges text 0 ranges))
  end.

Definition extractToolCallsFromText (text : string) : option (list Call * string) :=
  extractWith srcIsEscape text.
End Extract.

(** The spans [extractTodoFromText] collects before it parses any. *)
Definition todoSpans (isEscape : ascii -> bool) (src : string) : list (Z * Z) :=
  (scanFrom isEscape (fun from to acc => acc ++ [(from, to)]) 0 src (scan0, [])).2.

Section ExtractTodo.
(** [todoOf chunk] is the normalised [todo] (or [todos]) array of the
    chunk parsed as JSON, when it parses to an object that has one. *)
Context {Item : Type}.
Variable todoOf : string -> option (list Item).

Fixpoint firstTodo (src : string) (ranges : list (Z * Z))
    : option (list Item * (Z * Z)) :=
  match ranges with
  | [] => None
  | (from, to) :: rest =>
      match todoOf (slice from to src) with
      | Some (x :: l) => Some (x :: l, (from, to))
      | _ => firstTodo src rest
      end
  end.

Definition extractTodoFromText (text : string) : option (list Item * (Z * Z)) :=
  firstTodo text (todoSpans srcIsEscape text).
End ExtractTodo.

(** A text whose first string literal holds an escaped quote and a
    closing brace, followed by a real object with a [toolCalls] array. *)
Definition realObject : string :=
  "{" +:+ quoted "toolCalls" +:+ ":[{" +:+ quoted "tool" +:+ ":" +:+ quoted "read_dir"
      +:+ "," +:+ quoted "args" +:+ ":{}}]}".

Definition decoyText : string := quoted ("\" +:+ String dq "}") +:+ " " +:+ realObject.

(** Spans that follow one another without overlap between [cursor] and
    [bound], each with a start before its end. *)
Fixpoint orderedWithin (cursor bound : Z) (ranges : list (Z * Z)) : Prop :=
  match ranges with
  | [] => cursor <= bound
  | (from, to) :: rest => cursor <= from /\ from < to /\ orderedWithin to bound rest
  end.


(** The scanner before the unit at [i], the spans so far ending at or
    before [cursor]: outside an object no start is held, inside one the
    start lies after the spans and before [i]. *)
Definition scanOk (cursor i : Z) (s : ScanState) : Prop :=
  (depth s = 0 /\ start s = -1 /\ cursor <= i)
  \/ (0 < depth s /\ cursor <= start s < i).

End Parser.

(** ** Todo lists *)
Module Todo.
Import Js.

(** A todo item as the code holds it: three text fields. An absent field
    is the empty text (both are falsy for the code). *)
Record TodoItem := mkItem {
  id : string;
  text : string;
  status : string
}.

#[global] Instance TodoItem_eq_dec : EqDecision TodoItem.
Proof. solve_decision. Defined.

(** An entry of a todo array: an object, read through its three text
    fields, or a value that is no object ([null], a text, a number, a
    boolean), of which the code reads [String(item || '')] alone; [shown]
    is that text. *)
Inductive Entry :=
| Object (item : TodoItem)
| Other (shown : string).

(** [normalizeTodoItem(item, index)]; [None] is the source's [null]. An
    entry that is no object becomes a pending item whatever its text is,
    the empty text included; an object without a text is dropped. Objects
    of this type have no [title] or [description]. *)
Definition normalizeTodoItem (entry : Entry) (index : nat) : option TodoItem :=
  match entry with
  | Other shown =>
      Some (mkItem ("todo_" +:+ decimal (index + 1)) (trim shown) "pending")
  | Object item =>
      let text := trim (text item) in
      if bool_decide (text = EmptyString) then None
      else
        let statusRaw := toLowerCase (status item) in
        let status :=
          if bool_decide (statusRaw = "done") || bool_decide (statusRaw = "complete")
          then "done" else "pending" in
        let id := if bool_decide (id item = EmptyString)
                  then "todo_" +:+ decimal (index + 1) else id item in
        Some (mkItem id text status)
  end.

Fixpoint normalizeFrom (index : nat) (input : list Entry) : list TodoItem :=
  match input with
  | [] => []
  | entry :: rest =>
      match normalizeTodoItem entry index with
      | Some it => it :: normalizeFrom (S index) rest
      | None => normalizeFrom (S index) rest
      end
  end.

(** [normalizeTodoList(input)]: map with the index, then drop the nulls. *)
Definition normalizeTodoList (input : list Entry) : list TodoItem :=
  normalizeFrom 0 input.

(** [new Map(entries)]: entries are set in order, a later one replaces
    an earlier one with the same key. *)
Definition mapOf (entries : list (string * TodoItem)) : gmap string TodoItem :=
  foldl (fun m kv => <[kv.1 := kv.2]> m) ∅ entries.

(** The callback of [next.map] in [mergeTodoLists]. *)
Definition mergeItem (currentById currentByText : gmap string TodoItem)
    (item : TodoItem) : TodoItem :=
  let idKey := id item in
  let textKey := toLowerCase (text item) in
  let existing :=
    match currentById !! idKey with
    | Some e => Some e
    | None => currentByText !! textKey
    end in
  match existing with
  | None => item
  | Some e =>
      let status :=
        if bool_decide (status e = "done") || bool_decide (status item = "done")
        then "done" else "pending" in
      mkItem (id item) (text item) status
  end.

(** The test of [merged.some]. *)
Definition sameItem (idKey textKey : string) (entry : TodoItem) : bool :=
  bool_decide (id entry = idKey) || bool_decide (toLowerCase (text entry) = textKey).

(** One round of the second loop of [mergeTodoLists]. *)
Definition keepDone (merged : list TodoItem) (item : TodoItem) : list TodoItem :=
  if negb (bool_decide (status item = "done")) then merged
  else
    let idKey := id item in
    let textKey := toLowerCase (text item) in
    if existsb (sameItem idKey textKey) merged then merged else merged ++ [item].

Definition mergeTodoLists (current incoming : list Entry) : list TodoItem :=
  let next := normalizeTodoList incoming in
  match next with
  | [] => normalizeTodoList current
  | _ =>
      let currentList := normalizeTodoList current in
      let currentById := mapOf (map (fun item => (id item, item)) currentList) in
      let currentByText :=
        mapOf (map (fun item => (toLowerCase (text item), item)) currentList) in
      let merged := map (mergeItem currentById currentByText) next in
      foldl keepDone merged currentList
  end.

(** [getPendingTodos(todos)] *)
Definition getPendingTodos (todos : list TodoItem) : list TodoItem :=
  filter (fun item => status item ≠ "done") todos.

(** An item is retained by a list when some entry has its id or its
    text up to case. *)
Definition retained (c : TodoItem) (merged : list TodoItem) : Prop :=
  exists m, m ∈ merged /\ (id m = id c \/ toLowerCase (text m) = toLowerCase (text c)).



End Todo.

(** ** Tool calls and their normalisation *)
Module Dispatch.
Import Js.

(** The arguments of a tool call the embedded code reads, typed as the
    tool schema of the system prompt gives them; [None] is an absent
    field. [others] carries the remaining fields, which only the tool
    handlers read. *)
Record Args := mkArgs {
  query : option string;
  command : option string;
  cwd : option string;
  timeoutMs : option Z;
  others : list (string * string)
}.

Record ToolCall := mkCall {
  tool : string;
  args : Args
}.

Definition noArgs : Args := mkArgs None None None None [].

(** [String(v || '')] for a text field. *)
Definition textOr (v : option string) : string := default EmptyString v.

Definition isAlnum (c : ascii) : bool :=
  let n := nat_of_ascii c in
  (bool_decide (48 <= n)%nat && bool_decide (n <= 57)%nat)
  || (bool_decide (65 <= n)%nat && bool_decide (n <= 90)%nat)
  || (bool_decide (97 <= n)%nat && bool_decide (n <= 122)%nat).

Fixpoint allAlnum (s : string) : bool :=
  match s with
  | String c r => isAlnum c && allAlnum r
  | EmptyString => true
  end.

(** The units the regular-expression dot refuses. *)
Definition isLineTerminator (c : ascii) : bool :=
  bool_decide (c = LF) || bool_decide (c = CR).

(** The extension pattern of [isLikelyFileQuery] matched at the head of
    [s] up to the end of the text. As the source writes it, the pattern
    opens with an escaped backslash followed by an unescaped dot: a
    backslash unit, then any unit but a line terminator, then one to six
    letters or digits (the pattern ignores case), then the end. *)
Definition extPatternHere (s : string) : bool :=
  match s with
  | String b (String c rest) =>
      chEq b "\" && negb (isLineTerminator c)
      && bool_decide (1 <= String.length rest <= 6)%nat && allAlnum rest
  | _ => false
  end.

(** [pattern.test(raw)]: a match may start at any unit. *)
Fixpoint extPatternTest (raw : string) : bool :=
  extPatternHere raw
  || match raw with
     | String _ r => extPatternTest r
     | EmptyString => false
     end.

(** [isLikelyFileQuery(query)], the same in features/chat.js and in
    tools/agentTools.js. *)
Definition isLikelyFileQuery (query : string) : bool :=
  let raw := trim query in
  if bool_decide (raw = EmptyString) then false
  else if hasSpace raw then false
  else if includes "/"%char raw || includes bslash raw then true
  else extPatternTest raw.

(** [normalizeToolCall(call)] *)
Definition normalizeToolCall (call : ToolCall) : ToolCall :=
  let a := args call in
  if bool_decide (tool call = "search") then
    let q := trim (textOr (query a)) in
    if isLikelyFileQuery q
    then mkCall "locate_file" (mkArgs (Some q) (command a) (cwd a) (timeoutMs a) (others a))
    else mkCall (tool call) a
  else mkCall (tool call) a.

(** For comparison, the test as the specification words it: a query
    looks like a bare file name or path when it is not empty, has no white
    space, and has a path separator or an extension (a dot followed by one
    to six letters or digits at the end). *)
Fixpoint hasExtension (raw : string) : bool :=
  match raw with
  | String c rest =>
      (chEq c "." && bool_decide (1 <= String.length rest <= 6)%nat && allAlnum rest)
      || hasExtension rest
  | EmptyString => false
  end.

Definition looksLikeFile (query : string) : bool :=
  let raw := trim query in
  negb (bool_decide (raw = EmptyString)) && negb (hasSpace raw)
  && (includes "/"%char raw || includes bslash raw || hasExtension raw).

End Dispatch.

(** ** The diff engine *)
Module Diff.
Import Js.

Definition NL : string := String LF EmptyString.

(** [src.split(/\r?\n/)]: a line ends at a line feed, which takes a
    carriage return right before it along. The result is never empty. *)
Fixpoint splitRegex (src : string) : list string :=
  let keep c tl :=
    match tl with
    | h :: t => String c h :: t
    | [] => [String c EmptyString]
    end in
  match src with
  | EmptyString => [EmptyString]
  | String c r =>
      if bool_decide (c = LF) then EmptyString :: splitRegex r
      else if bool_decide (c = CR) then
        match r with
        | String d r' =>
            if bool_decide (d = LF) then EmptyString :: splitRegex r'
            else keep c (splitRegex r)
        | EmptyString => keep c (splitRegex r)
        end
      else keep c (splitRegex r)
  end.

(** [splitLines(text)] *)
Definition splitLines (text : string) : list string :=
  if bool_decide (text = EmptyString) then [] else splitRegex text.

(** [buildSimpleDiff(oldText, newText)] *)
Definition buildSimpleDiff (oldText newText : string) : string :=
  let oldLines := splitLines oldText in
  let newLines := splitLines newText in
  let diffLines :=
    (if bool_decide (oldText = EmptyString) then [] else map (String "-"%char) oldLines)
    ++ (if bool_decide (newText = EmptyString) then [] else map (String "+"%char) newLines) in
  join NL diffLines.

Inductive OpType := context | add | del.

#[global] Instance OpType_eq_dec : EqDecision OpType.
Proof. solve_decision. Defined.

Record Op := mkOp { type : OpType; line : string }.

(** An op with the 1-based positions it has on the old and new side. *)
Record Entry := mkEntry { op : Op; oldPos : nat; newPos : nat }.

(** The options object: an absent or non-numeric field is [None];
    numeric fields are integers. *)
Record Options := mkOptions {
  optContextLines : option Z;
  optMaxCells : option Z;
  optMaxDiffLines : option Z
}.

Definition noOptions : Options := mkOptions None None None.

Definition contextLinesOf (o : Options) : nat :=
  match optContextLines o with Some v => Z.to_nat (Z.max 0 v) | None => 3%nat end.
Definition maxCellsOf (o : Options) : Z :=
  match optMaxCells o with Some v => Z.max 1000 v | None => 200000 end.
Definition maxDiffLinesOf (o : Options) : nat :=
  match optMaxDiffLines o with Some v => Z.to_nat (Z.max 50 v) | None => 400%nat end.

(** The number of rounds of the first [while]: the length of the common
    prefix of the two line arrays. *)
Fixpoint commonPrefix (a b : list string) : nat :=
  match a, b with
  | x :: a', y :: b' => if bool_decide (x = y) then S (commonPrefix a' b') else O
  | _, _ => O
  end.

(** The number of rounds of the second [while]: it walks both arrays
    from their ends, never below [prefix], as long as the lines agree;
    that is the common prefix of the reversed remainders. *)
Definition commonSuffix (oldRest newRest : list string) : nat :=
  commonPrefix (reverse oldRest) (reverse newRest).

(** One row of the table, from the row below it: [below] is row [i+1]
    from column [j] on, the result is row [i] from column [j] on. *)
Fixpoint dpRow (oi : string) (newMid : list string) (below : list Z) : list Z :=
  match newMid, below with
  | nj :: newRest, bj :: belowRest =>
      let rest := dpRow oi newRest belowRest in
      (if bool_decide (oi = nj) then hd 0 belowRest + 1
       else Z.max bj (hd 0 rest)) :: rest
  | _, _ => [0]
  end.

(** The table [dp], rows [0 .. n], each with columns [0 .. m]; row [n]
    and column [m] hold zero. *)
Fixpoint dpTable (oldMid newMid : list string) : list (list Z) :=
  match oldMid with
  | [] => [replicate (S (length newMid)) 0]
  | oi :: oldRest =>
      let t := dpTable oldRest newMid in
      dpRow oi newMid (hd [] t) :: t
  end.

Definition dpGet (dp : list (list Z)) (i j : nat) : Z :=
  nth j (nth i dp []) 0.

Section Walk.
Variables oldMid newMid : list string.
Variable dp : list (list Z).

Definition lineAt (l : list string) (i : nat) : string := nth i l EmptyString.

(** The three [while] loops that follow the table: the first runs
    while both indexes are in range, the second removes what is left
    of the old lines, the third adds what is left of the new ones.
    Each round advances an index, so [n + m] rounds are enough. *)
Fixpoint walk (fuel i j : nat) : list Op :=
  match fuel with
  | O => []
  | S f =>
      let n := length oldMid in
      let m := length newMid in
      if bool_decide (i < n)%nat && bool_decide (j < m)%nat then
        if bool_decide (lineAt oldMid i = lineAt newMid j)
        then mkOp context (lineAt oldMid i) :: walk f (S i) (S j)
        else if dpGet dp i (S j) <=? dpGet dp (S i) j
        then mkOp del (lineAt oldMid i) :: walk f (S i) j
        else mkOp add (lineAt newMid j) :: walk f i (S j)
      else if bool_decide (i < n)%nat
      then mkOp del (lineAt oldMid i) :: walk f (S i) j
      else if bool_decide (j < m)%nat
      then mkOp add (lineAt newMid j) :: walk f i (S j)
      else []
  end.
End Walk.

(** The array [ops] for a middle region within the cell budget. *)
Definition diffOps (oldLines newLines : list string) : list Op :=
  let prefix := commonPrefix oldLines newLines in
  let oldRest := drop prefix oldLines in
  let newRest := drop prefix newLines in
  let suffix := commonSuffix oldRest newRest in
  let oldMid := take (length oldRest - suffix) oldRest in
  let newMid := take (length newRest - suffix) newRest in
  let dp := dpTable oldMid newMid in
  map (mkOp context) (take prefix oldLines)
  ++ walk oldMid newMid dp (length oldMid + length newMid) 0 0
  ++ map (mkOp context) (drop (length oldRest - suffix) oldRest).

(** The array [entries]. *)
Fixpoint number (ops : list Op) (oldPos newPos : nat) : list Entry :=
  match ops with
  | [] => []
  | o :: rest =>
      mkEntry o oldPos newPos ::
      match type o with
      | context => number rest (S oldPos) (S newPos)
      | del => number rest (S oldPos) newPos
      | add => number rest oldPos (S newPos)
      end
  end.

Fixpoint changeIndexesFrom (idx : nat) (entries : list Entry) : list nat :=
  match entries with
  | [] => []
  | e :: rest =>
      if bool_decide (type (op e) = context) then changeIndexesFrom (S idx) rest
      else idx :: changeIndexesFrom (S idx) rest
  end.

(** One round of the loop over [changeIndexes]; [ranges] is held with
    its last element first. *)
Definition addRange (contextLines len : nat) (ranges : list (nat * nat)) (idx : nat)
    : list (nat * nat) :=
  let start := (idx - contextLines)%nat in
  let end_ := Nat.min (len - 1) (idx + contextLines) in
  match ranges with
  | [] => [(start, end_)]
  | (s, e) :: older =>
      if bool_decide (e + 1 < start)%nat then (start, end_) :: ranges
      else (s, Nat.max e end_) :: older
  end.

Definition rangesOf (contextLines len : nat) (changeIndexes : list nat) : list (nat * nat) :=
  reverse (foldl (addRange contextLines len) [] changeIndexes).

Definition prefixChar (t : OpType) : ascii :=
  match t with context => " "%char | add => "+"%char | del => "-"%char end.

Definition countIf (p : OpType -> bool) (slice : list Entry) : nat :=
  length (filter (fun e => p (type (op e)) = true) slice).

(** The lines one range contributes: its header, then its body. *)
Definition hunk (entries : list Entry) (range : nat * nat) : list string :=
  let slice := take (S (range.2) - range.1) (drop (range.1) entries) in
  let oldStart := match slice with e :: _ => oldPos e | [] => O end in
  let newStart := match slice with e :: _ => newPos e | [] => O end in
  let oldCount := countIf (fun t => negb (bool_decide (t = add))) slice in
  let newCount := countIf (fun t => negb (bool_decide (t = del))) slice in
  ("@@ -" +:+ decimal oldStart +:+ "," +:+ decimal oldCount
     +:+ " +" +:+ decimal newStart +:+ "," +:+ decimal newCount +:+ " @@")
  :: map (fun e => String (prefixChar (type (op e))) (line (op e))) slice.

(** The array [diffLines] before the truncation. *)
Definition hunkLines (contextLines : nat) (entries : list Entry) : list string :=
  let changeIndexes := changeIndexesFrom 0 entries in
  concat (map (hunk entries) (rangesOf contextLines (length entries) changeIndexes)).

Definition midSize (oldLines newLines : list string) : Z :=
  let prefix := commonPrefix oldLines newLines in
  let oldRest := drop prefix oldLines in
  let newRest := drop prefix newLines in
  let suffix := commonSuffix oldRest newRest in
  Z.of_nat (length oldRest - suffix) * Z.of_nat (length newRest - suffix).

(** [buildUnifiedDiff(oldText, newText, options)] *)
Definition buildUnifiedDiff (oldText newText : string) (options : Options) : string :=
  let oldLines := splitLines oldText in
  let newLines := splitLines newText in
  match oldLines, newLines with
  | [], [] => EmptyString
  | _, _ =>
      if bool_decide (maxCellsOf options < midSize oldLines newLines)
      then buildSimpleDiff oldText newText
      else
        let entries := number (diffOps oldLines newLines) 1 1 in
        match changeIndexesFrom 0 entries with
        | [] => EmptyString
        | _ =>
            let diffLines := hunkLines (contextLinesOf options) entries in
            if bool_decide (maxDiffLinesOf options < length diffLines)%nat
            then join NL (take (maxDiffLinesOf options) diffLines ++ [" ..."])
            else join NL diffLines
        end
  end.

(** [buildDiffBlock(oldText, newText)] *)
Definition buildDiffBlock (oldText newText : string) : string :=
  let diffText := buildUnifiedDiff oldText newText (mkOptions (Some 3) None None) in
  if bool_decide (diffText = EmptyString) then EmptyString
  else "```diff" +:+ NL +:+ diffText +:+ NL +:+ "```".



(** The old lines an op list stands for (its context and removed lines)
    and the new lines (its context and added lines). *)
Definition oldSide (ops : list Op) : list string :=
  map line (filter (fun o => type o <> add) ops).
Definition newSide (ops : list Op) : list string :=
  map line (filter (fun o => type o <> del) ops).

End Diff.

(** ** The revert ledger and the mutating tools *)
Module Ledger.
Import Js.

(** One entry of the [files] array of a change. *)
Record RevertFile := mkFile {
  path : string;
  existed : bool;
  content : string
}.

#[global] Instance RevertFile_eq_dec : EqDecision RevertFile.
Proof. solve_decision. Defined.

(** The state the tool runner works on: the files of the workspace, by
    full path, and the two variables of [createToolRunner], the map
    [revertChanges] and the array [revertOrder]. Directories are not part
    of the model; a document of the editor and the file it is opened from
    hold the same text. A file is held as the text the tools read of it:
    the tools that read the bytes of a file decode them as UTF-8, which
    gives the stored text back for a file of 7-bit units ([sevenBit]) and
    may change a file that is not valid UTF-8. *)
Record World := mkWorld {
  files : gmap string string;
  revertChanges : gmap string (list RevertFile);
  revertOrder : list string
}.

Definition MAX_REVERTS : nat := 40.

(** [registerRevertChange(change)]; [stamp] is the text the clock and the
    random generator contribute to the id. *)
Definition registerRevertChange (stamp : string) (change : list RevertFile) (w : World)
    : string * World :=
  match change with
  | [] => (EmptyString, w)
  | _ =>
      let id := "revert_" +:+ stamp in
      let changes := <[id := change]> (revertChanges w) in
      let order := revertOrder w ++ [id] in
      if bool_decide (MAX_REVERTS < length order)%nat then
        match order with
        | oldest :: rest =>
            (id, mkWorld (files w)
                   (if bool_decide (oldest = EmptyString) then changes else delete oldest changes)
                   rest)
        | [] => (id, mkWorld (files w) changes order)
        end
      else (id, mkWorld (files w) changes order)
  end.

(** [formatRevertTag(id)] *)
Definition formatRevertTag (id : string) : string :=
  let safe := trim id in
  if bool_decide (safe = EmptyString) then EmptyString
  else Diff.NL +:+ Diff.NL +:+ "[[revert:" +:+ safe +:+ "]]".

(** What the tools take from the editor, the platform and the workspace
    helpers. *)
Record Host := mkHost {
  (** helpers/workspace.js; the empty text is a refused path *)
  resolveWorkspacePathForTool : string -> string;
  toWorkspaceRelativePath : string -> string;
  getWorkspaceRoot : string;
  (** the message of the error the platform raises on a path *)
  fsError : string -> string;
  (** the line ending of the document with this text *)
  docEol : string -> string;
  (** the text of a document once the editor has replaced the range
      between two zero-based positions by a text *)
  replaceAt : string -> nat * nat -> nat * nat -> string -> string;
  (** the outcome text of a shell command, and the files it leaves *)
  shell : string -> string -> Z -> gmap string string -> string * gmap string string;
  (** the paths named by the headers of a patch, resolved against a
      directory and kept when inside the workspace root, each once *)
  patchTargets : string -> string -> list string;
  (** the output of the patch programs, and the files when one applied *)
  applyPatch : string -> string -> gmap string string
               -> string * option (gmap string string);
  (** the workspace edit of a rename at a position, if the provider
      returns one: the files once it is applied *)
  renameEdit : string -> Z -> Z -> string -> gmap string string
               -> option (gmap string string)
}.

Section Tools.
Variable h : Host.

Definition rel (p : string) : string := toWorkspaceRelativePath h p.

(** One round of the loop of [revertChange]. *)
Definition revertFile (st : gmap string string * list string) (file : RevertFile)
    : gmap string string * list string :=
  let (fs, results) := st in
  if bool_decide (path file = EmptyString) then st
  else if negb (existed file) then
    match fs !! path file with
    | Some _ => (delete (path file) fs, results ++ ["Removed " +:+ rel (path file) +:+ "."])
    | None => (fs, results ++ ["Remove failed for " +:+ rel (path file) +:+ ": "
                               +:+ fsError h (path file)])
    end
  else (<[path file := content file]> fs,
        results ++ ["Restored " +:+ rel (path file) +:+ "."]).

(** [revertChange(id)] *)
Definition revertChange (id : string) (w : World) : string * World :=
  let key := trim id in
  if bool_decide (key = EmptyString) then ("Revert failed: missing change id.", w)
  else
    match revertChanges w !! key with
    | None => ("Revert failed: change not found or expired.", w)
    | Some change =>
        let (fs, results) := foldl revertFile (files w, []) change in
        (match results with
         | [] => "Revert complete."
         | _ => "Revert complete." +:+ Diff.NL +:+ join Diff.NL results
         end,
         mkWorld fs (delete key (revertChanges w)) (revertOrder w))
    end.

(** The suffix a tool result gets from a diff block. *)
Definition diffSuffix (before after : string) : string :=
  let diff := Diff.buildDiffBlock before after in
  if bool_decide (diff = EmptyString) then EmptyString else Diff.NL +:+ Diff.NL +:+ diff.

Definition setFile (p c : string) (w : World) : World :=
  mkWorld (<[p := c]> (files w)) (revertChanges w) (revertOrder w).

Definition len (l : list string) : Z := Z.of_nat (length l).

(** The largest [k], at most [k0], for which the last [k] lines before
    the range are the first [k] new lines. *)
Fixpoint findPrefixTrim (beforeLines newLines : list string) (k0 : nat) : nat :=
  match k0 with
  | O => O
  | S k' =>
      if bool_decide (drop (length beforeLines - k0) beforeLines = take k0 newLines)
      then k0 else findPrefixTrim beforeLines newLines k'
  end.

(** The largest [k], at most [k0], for which the first [k] lines after
    the range are the last [k] new lines. *)
Fixpoint findSuffixTrim (afterLines newLines : list string) (k0 : nat) : nat :=
  match k0 with
  | O => O
  | S k' =>
      if bool_decide (take k0 afterLines = drop (length newLines - k0) newLines)
      then k0 else findSuffixTrim afterLines newLines k'
  end.

Record EditArgs := mkEditArgs {
  editPath : string;
  editStartLine : option Z;
  editEndLine : option Z;
  editNewText : string
}.

(** [toolEditFile(args)]; [approved] is the answer of the approval gate
    and [accepted] whether the editor takes the workspace edit. *)
Definition toolEditFile (a : EditArgs) (approved accepted : bool) (stamp : string)
    (w : World) : string * World :=
  let fullPath := resolveWorkspacePathForTool h (editPath a) in
  if bool_decide (fullPath = EmptyString) then ("Edit failed: invalid or out-of-workspace path.", w)
  else
    match editStartLine a, editEndLine a with
    | Some startLine, Some endLine =>
        if endLine <? startLine then ("Edit failed: endLine must be >= startLine.", w)
        else
          match files w !! fullPath with
          | None => ("Edit failed: " +:+ fsError h fullPath, w)
          | Some beforeDocText =>
              let docLines := Diff.splitRegex beforeDocText in
              let maxLine := Z.max 1 (len docLines) in
              let safeStart := Z.min (Z.max 1 startLine) maxLine in
              let safeEnd := Z.min (Z.max safeStart endLine) maxLine in
              let endChar := String.length (Diff.lineAt docLines (Z.to_nat (safeEnd - 1))) in
              let newLines := Diff.splitRegex (editNewText a) in
              let beforeLines := take (Z.to_nat (safeStart - 1)) docLines in
              let prefixTrim :=
                findPrefixTrim beforeLines newLines
                  (Nat.min (length beforeLines) (length newLines)) in
              let afterLines := drop (Z.to_nat safeEnd) docLines in
              let suffixTrim :=
                findSuffixTrim afterLines newLines
                  (Nat.min (length afterLines) (length newLines - prefixTrim)) in
              let normalizedLines :=
                take (length newLines - suffixTrim - prefixTrim) (drop prefixTrim newLines) in
              let newText := join (docEol h beforeDocText) normalizedLines in
              if negb approved then ("Edit canceled by user.", w)
              else if negb accepted then ("Edit failed: workspace edit was rejected.", w)
              else
                let afterDocText :=
                  replaceAt h beforeDocText (Z.to_nat (safeStart - 1), O)
                            (Z.to_nat (safeEnd - 1), endChar) newText in
                let w1 := setFile fullPath afterDocText w in
                let trimNote :=
                  if bool_decide (prefixTrim = O) && bool_decide (suffixTrim = O)
                  then EmptyString
                  else Diff.NL +:+ Diff.NL +:+ "Note: trimmed " +:+ decimal prefixTrim
                       +:+ " leading and " +:+ decimal suffixTrim
                       +:+ " trailing line(s) that duplicated adjacent content." in
                let (revertId, w2) :=
                  registerRevertChange stamp [mkFile fullPath true beforeDocText] w1 in
                ("Edit applied to " +:+ rel fullPath +:+ " (lines "
                   +:+ decimal (Z.to_nat safeStart) +:+ "-" +:+ decimal (Z.to_nat safeEnd)
                   +:+ ")." +:+ diffSuffix beforeDocText afterDocText +:+ trimNote
                   +:+ formatRevertTag revertId, w2)
          end
    | _, _ => ("Edit failed: startLine and endLine are required numbers.", w)
    end.

(** [clampPosition(doc, line, character, true)], zero-based result. *)
Definition clampPosition (docLines : list string) (line character : Z) : nat * nat :=
  let maxLine := Z.max 1 (len docLines) in
  let safeLine := Z.min (Z.max 1 (if line =? 0 then 1 else line)) maxLine in
  let lineText := Diff.lineAt docLines (Z.to_nat (safeLine - 1)) in
  let maxChar := Z.of_nat (String.length lineText) + 1 in
  let safeChar := Z.min (Z.max 1 (if character =? 0 then 1 else character)) maxChar in
  (Z.to_nat (safeLine - 1), Z.to_nat (safeChar - 1)).

Definition posText (p : nat * nat) : string :=
  decimal (p.1 + 1) +:+ ":" +:+ decimal (p.2 + 1).

Record InsertArgs := mkInsertArgs {
  insertPath : string;
  insertText : string;
  insertLine : option Z;
  insertCharacter : option Z
}.

(** [toolInsertText(args)]; the two numbers are those of [position], or
    of the call itself when [position] has none. *)
Definition toolInsertText (a : InsertArgs) (approved accepted : bool) (stamp : string)
    (w : World) : string * World :=
  let fullPath := resolveWorkspacePathForTool h (insertPath a) in
  if bool_decide (fullPath = EmptyString)
  then ("Insert text failed: invalid or out-of-workspace path.", w)
  else
    match insertLine a, insertCharacter a with
    | Some line, Some character =>
        match files w !! fullPath with
        | None => ("Insert text failed: " +:+ fsError h fullPath, w)
        | Some beforeDocText =>
            let position := clampPosition (Diff.splitRegex beforeDocText) line character in
            if negb approved then ("Insert text canceled by user.", w)
            else if negb accepted then ("Insert text failed: workspace edit rejected.", w)
            else
              let afterDocText := replaceAt h beforeDocText position position (insertText a) in
              let w1 := setFile fullPath afterDocText w in
              let (revertId, w2) :=
                registerRevertChange stamp [mkFile fullPath true beforeDocText] w1 in
              ("Inserted text into " +:+ rel fullPath +:+ " at " +:+ posText position
                 +:+ "." +:+ diffSuffix beforeDocText afterDocText
                 +:+ formatRevertTag revertId, w2)
        end
    | _, _ => ("Insert text failed: position.line and position.character are required.", w)
    end.

Record ReplaceArgs := mkReplaceArgs {
  replacePath : string;
  replaceText : string;
  replaceStartLine : option Z;
  replaceStartChar : option Z;
  replaceEndLine : option Z;
  replaceEndChar : option Z
}.

(** [end.isBefore(start)] on positions. *)
Definition isBefore (e s : nat * nat) : bool :=
  bool_decide (e.1 < s.1)%nat || (bool_decide (e.1 = s.1) && bool_decide (e.2 < s.2)%nat).

(** [toolReplaceRange(args)] *)
Definition toolReplaceRange (a : ReplaceArgs) (approved accepted : bool) (stamp : string)
    (w : World) : string * World :=
  let fullPath := resolveWorkspacePathForTool h (replacePath a) in
  if bool_decide (fullPath = EmptyString)
  then ("Replace range failed: invalid or out-of-workspace path.", w)
  else
    match replaceStartLine a, replaceStartChar a, replaceEndLine a, replaceEndChar a with
    | Some startLine, Some startChar, Some endLine, Some endChar =>
        match files w !! fullPath with
        | None => ("Replace range failed: " +:+ fsError h fullPath, w)
        | Some beforeDocText =>
            let docLines := Diff.splitRegex beforeDocText in
            let startPos := clampPosition docLines startLine startChar in
            let endPos := clampPosition docLines endLine endChar in
            if isBefore endPos startPos
            then ("Replace range failed: end position must be after start position.", w)
            else if negb approved then ("Replace range canceled by user.", w)
            else if negb accepted then ("Replace range failed: workspace edit rejected.", w)
            else
              let afterDocText := replaceAt h beforeDocText startPos endPos (replaceText a) in
              let w1 := setFile fullPath afterDocText w in
              let (revertId, w2) :=
                registerRevertChange stamp [mkFile fullPath true beforeDocText] w1 in
              ("Replaced range in " +:+ rel fullPath +:+ "."
                 +:+ diffSuffix beforeDocText afterDocText
                 +:+ formatRevertTag revertId, w2)
        end
    | _, _, _, _ => ("Replace range failed: range start/end line/char are required.", w)
    end.

Record WriteArgs := mkWriteArgs {
  writePath : string;
  writeContent : string;
  writeOverwrite : bool;
  writeAppend : bool
}.

(** The message of the error raised when an undeclared name is read. *)
Definition referenceError (name : string) : string := name +:+ " is not defined".

(** [toolWriteFile(args)]. Both calls of [registerRevertChange] build
    their argument from the name [existed], which the function does not
    declare (its variable is [exists]): reading it raises, after the file
    has been written, and the handler of the enclosing [try] returns. *)
Definition toolWriteFile (a : WriteArgs) (approved : bool) (stamp : string)
    (w : World) : string * World :=
  let fullPath := resolveWorkspacePathForTool h (writePath a) in
  if bool_decide (fullPath = EmptyString) then ("Write failed: invalid or out-of-workspace path.", w)
  else
    let exists_ := bool_decide (is_Some (files w !! fullPath)) in
    if negb approved then ("Write canceled by user.", w)
    else if writeAppend a then
      let existingContent := default EmptyString (files w !! fullPath) in
      let next := existingContent +:+ writeContent a in
      ("Write failed: " +:+ referenceError "existed", setFile fullPath next w)
    else if exists_ && negb (writeOverwrite a)
    then ("Write failed: " +:+ rel fullPath +:+ " already exists (set overwrite=true).", w)
    else ("Write failed: " +:+ referenceError "existed", setFile fullPath (writeContent a) w).

(** [toolCreateDir(args)] *)
Definition toolCreateDir (dirPath : string) (approved : bool) (w : World) : string * World :=
  let fullPath := resolveWorkspacePathForTool h dirPath in
  if bool_decide (fullPath = EmptyString)
  then ("Create dir failed: invalid or out-of-workspace path.", w)
  else if negb approved then ("Create dir canceled by user.", w)
  else ("Directory created: " +:+ rel fullPath +:+ ".", w).

(** [toolDeleteFile(args)]; [existingContent] is the text the tool reads
    of the file, its bytes decoded as UTF-8. *)
Definition toolDeleteFile (filePath : string) (approved : bool) (stamp : string)
    (w : World) : string * World :=
  let fullPath := resolveWorkspacePathForTool h filePath in
  if bool_decide (fullPath = EmptyString) then ("Delete failed: invalid or out-of-workspace path.", w)
  else
    match files w !! fullPath with
    | None => ("Delete failed: " +:+ rel fullPath +:+ " not found.", w)
    | Some existingContent =>
        if negb approved then ("Delete canceled by user.", w)
        else
          let w1 := mkWorld (delete fullPath (files w)) (revertChanges w) (revertOrder w) in
          let (revertId, w2) :=
            registerRevertChange stamp [mkFile fullPath true existingContent] w1 in
          ("Deleted " +:+ rel fullPath +:+ "." +:+ diffSuffix existingContent EmptyString
             +:+ formatRevertTag revertId, w2)
    end.

Record MoveArgs := mkMoveArgs {
  moveFrom : string;
  moveTo : string;
  moveOverwrite : bool
}.

(** [toolMoveFile(args)] *)
Definition toolMoveFile (a : MoveArgs) (approved : bool) (w : World) : string * World :=
  let fromPath := resolveWorkspacePathForTool h (moveFrom a) in
  let toPath := resolveWorkspacePathForTool h (moveTo a) in
  if bool_decide (fromPath = EmptyString) || bool_decide (toPath = EmptyString)
  then ("Move failed: invalid or out-of-workspace path.", w)
  else if negb approved then ("Move canceled by user.", w)
  else
    match files w !! fromPath with
    | None => ("Move failed: " +:+ fsError h fromPath, w)
    | Some c =>
        if bool_decide (is_Some (files w !! toPath)) && negb (moveOverwrite a)
        then ("Move failed: " +:+ fsError h toPath, w)
        else ("Moved " +:+ rel fromPath +:+ " → " +:+ rel toPath +:+ ".",
              mkWorld (<[toPath := c]> (delete fromPath (files w)))
                      (revertChanges w) (revertOrder w))
    end.

(** [toolCopyFile(args)], with the arguments of a move. *)
Definition toolCopyFile (a : MoveArgs) (approved : bool) (w : World) : string * World :=
  let fromPath := resolveWorkspacePathForTool h (moveFrom a) in
  let toPath := resolveWorkspacePathForTool h (moveTo a) in
  if bool_decide (fromPath = EmptyString) || bool_decide (toPath = EmptyString)
  then ("Copy failed: invalid or out-of-workspace path.", w)
  else if negb approved then ("Copy canceled by user.", w)
  else
    match files w !! fromPath with
    | None => ("Copy failed: " +:+ fsError h fromPath, w)
    | Some c =>
        if bool_decide (is_Some (files w !! toPath)) && negb (moveOverwrite a)
        then ("Copy failed: " +:+ fsError h toPath, w)
        else ("Copied " +:+ rel fromPath +:+ " → " +:+ rel toPath +:+ ".",
              mkWorld (<[toPath := c]> (files w)) (revertChanges w) (revertOrder w))
    end.

Record CommandArgs := mkCommandArgs {
  commandText : string;
  commandCwd : string;
  commandTimeoutMs : option Z
}.

(** The working directory of [toolRunCommand] and [toolApplyPatch]. *)
Definition cwdOf (rawCwd : string) : string :=
  if bool_decide (rawCwd = EmptyString) then getWorkspaceRoot h
  else resolveWorkspacePathForTool h rawCwd.

(** [toolRunCommand(args)] *)
Definition toolRunCommand (a : CommandArgs) (approved : bool) (w : World) : string * World :=
  let command := trim (commandText a) in
  if bool_decide (command = EmptyString) then ("Run failed: command is required.", w)
  else
    let cwd := cwdOf (commandCwd a) in
    if bool_decide (cwd = EmptyString) then ("Run failed: invalid or missing workspace cwd.", w)
    else
      let raw := match commandTimeoutMs a with
                 | Some t => if t =? 0 then 60000 else t
                 | None => 60000
                 end in
      let timeoutMs := Z.max 1000 (Z.min (5 * 60 * 1000) raw) in
      if negb approved then ("Command canceled by user.", w)
      else
        let (output, fs) := shell h command cwd timeoutMs (files w) in
        (output, mkWorld fs (revertChanges w) (revertOrder w)).

Record RenameArgs := mkRenameArgs {
  renameUri : string;
  renameLine : option Z;
  renameCharacter : option Z;
  renameNewName : string
}.

(** [toolRenameApply(args)] *)
Definition toolRenameApply (a : RenameArgs) (approved accepted : bool) (w : World)
    : string * World :=
  let newName := trim (renameNewName a) in
  if bool_decide (newName = EmptyString) then ("Rename apply failed: newName is required.", w)
  else
    let uri := resolveWorkspacePathForTool h (renameUri a) in
    if bool_decide (uri = EmptyString)
    then ("Rename apply failed: invalid or out-of-workspace path.", w)
    else
      let line := Z.max 1 (default 1 (renameLine a)) in
      let character := Z.max 1 (default 1 (renameCharacter a)) in
      match renameEdit h uri (line - 1) (character - 1) newName (files w) with
      | None => ("Rename apply: no edit returned.", w)
      | Some fs =>
          if negb approved then ("Rename canceled by user.", w)
          else if negb accepted then ("Rename failed: workspace edit rejected.", w)
          else ("Rename applied.", mkWorld fs (revertChanges w) (revertOrder w))
      end.

(** What [toolApplyPatch] records of a path before it applies the patch. *)
Definition snapshot (w : World) (p : string) : RevertFile :=
  match files w !! p with
  | Some c => mkFile p true c
  | None => mkFile p false EmptyString
  end.

(** [limitDiffLines(text, 400)] *)
Definition limitDiffLines (text : string) : string * bool :=
  let lines := Diff.splitRegex text in
  if bool_decide (length lines <= 400)%nat then (text, false)
  else (join Diff.NL (take 400 lines) +:+ Diff.NL +:+ "...", true).

(** [toolApplyPatch(args)] *)
Definition toolApplyPatch (patchText rawCwd : string) (approved : bool) (stamp : string)
    (w : World) : string * World :=
  let patch := trim patchText in
  if bool_decide (patch = EmptyString) then ("Apply patch failed: patch content is empty.", w)
  else
    let cwd := cwdOf rawCwd in
    if bool_decide (cwd = EmptyString) then ("Apply patch failed: invalid or missing workspace cwd.", w)
    else if negb approved then ("Apply patch canceled by user.", w)
    else
      let beforeFiles := map (snapshot w) (patchTargets h patch cwd) in
      match applyPatch h patch cwd (files w) with
      | (output, None) =>
          (if bool_decide (output = EmptyString) then "Apply patch failed." else output, w)
      | (output, Some fs) =>
          let limited := limitDiffLines patch in
          let diff := "```diff" +:+ Diff.NL +:+ limited.1 +:+ Diff.NL +:+ "```" in
          let note := if limited.2 then Diff.NL +:+ Diff.NL +:+ "Patch diff truncated."
                      else EmptyString in
          let suffix := Diff.NL +:+ Diff.NL +:+ diff +:+ note in
          let (revertId, w2) :=
            registerRevertChange stamp beforeFiles
              (mkWorld fs (revertChanges w) (revertOrder w)) in
          ((if bool_decide (output = EmptyString) then "Patch applied."
            else "Patch applied." +:+ Diff.NL +:+ output)
             +:+ suffix +:+ formatRevertTag revertId, w2)
      end.

(** A call of a mutating tool, with the answers of the approval gate and
    of the editor it meets. *)
Inductive Request :=
| EditFile (a : EditArgs) (approved accepted : bool)
| InsertText (a : InsertArgs) (approved accepted : bool)
| ReplaceRange (a : ReplaceArgs) (approved accepted : bool)
| CopyFile (a : MoveArgs) (approved : bool)
| ApplyPatch (patchText rawCwd : string) (approved : bool)
| WriteFile (a : WriteArgs) (approved : bool)
| CreateDir (dirPath : string) (approved : bool)
| DeleteFile (filePath : string) (approved : bool)
| MoveFile (a : MoveArgs) (approved : bool)
| RunCommand (a : CommandArgs) (approved : bool)
| RenameApply (a : RenameArgs) (approved accepted : bool).

(** The dispatch of [runToolCall] on the mutating tools. *)
Definition runMutating (r : Request) (stamp : string) (w : World) : string * World :=
  match r with
  | EditFile a approved accepted => toolEditFile a approved accepted stamp w
  | InsertText a approved accepted => toolInsertText a approved accepted stamp w
  | ReplaceRange a approved accepted => toolReplaceRange a approved accepted stamp w
  | CopyFile a approved => toolCopyFile a approved w
  | ApplyPatch patchText rawCwd approved => toolApplyPatch patchText rawCwd approved stamp w
  | WriteFile a approved => toolWriteFile a approved stamp w
  | CreateDir dirPath approved => toolCreateDir dirPath approved w
  | DeleteFile filePath approved => toolDeleteFile filePath approved stamp w
  | MoveFile a approved => toolMoveFile a approved w
  | RunCommand a approved => toolRunCommand a approved w
  | RenameApply a approved accepted => toolRenameApply a approved accepted w
  end.

(** The paths a tool records before it commits. *)
Definition recorded (r : Request) : list string :=
  match r with
  | EditFile a _ _ => [resolveWorkspacePathForTool h (editPath a)]
  | InsertText a _ _ => [resolveWorkspacePathForTool h (insertPath a)]
  | ReplaceRange a _ _ => [resolveWorkspacePathForTool h (replacePath a)]
  | DeleteFile filePath _ => [resolveWorkspacePathForTool h filePath]
  | ApplyPatch patchText rawCwd _ => patchTargets h (trim patchText) (cwdOf rawCwd)
  | _ => []
  end.

End Tools.

(** The tools that register a change, those that register none; the
    classification leaves [WriteFile] out. *)
Definition registers (r : Request) : bool :=
  match r with
  | EditFile _ _ _ | InsertText _ _ _ | ReplaceRange _ _ _
  | DeleteFile _ _ | ApplyPatch _ _ _ => true
  | _ => false
  end.

Definition registersNothing (r : Request) : bool :=
  match r with
  | CopyFile _ _ | CreateDir _ _ | MoveFile _ _ | RunCommand _ _
  | RenameApply _ _ _ => true
  | _ => false
  end.

Definition editsOneFile (r : Request) : bool :=
  match r with
  | EditFile _ _ _ | InsertText _ _ _ | ReplaceRange _ _ _ | DeleteFile _ _ => true
  | _ => false
  end.

(** The world a one-file tool leaves when it commits: the files [fs],
    and the ledger after the registration of the saved text of [p]. *)
Definition committed (stamp p before : string) (fs : gmap string string) (w : World)
    : World :=
  (registerRevertChange stamp [mkFile p true before]
     (mkWorld fs (revertChanges w) (revertOrder w))).2.

(** What a one-file tool does to the world: nothing, or a commit that
    changes the files at [p] only. *)
Definition outcome (p : string) (stamp : string) (w w' : World) : Prop :=
  w' = w
  \/ exists before fs,
       files w !! p = Some before
       /\ (forall q, q <> p -> fs !! q = files w !! q)
       /\ w' = committed stamp p before fs w.

(** A small host for the examples: paths are relative to the root /ws,
    documents end their lines with a line feed, and the editor replaces a
    range line-wise. *)
Definition demoReplaceAt (text : string) (s e : nat * nat) (new : string) : string :=
  let lines := Diff.splitRegex text in
  let first := Diff.lineAt lines s.1 in
  let last := Diff.lineAt lines e.1 in
  join Diff.NL
    (take s.1 lines
     ++ [String.substring 0 s.2 first +:+ new
         +:+ String.substring e.2 (String.length last - e.2) last]
     ++ drop (S e.1) lines).

Definition demoHost : Host :=
  mkHost (fun p => if bool_decide (trim p = EmptyString) then EmptyString else "/ws/" +:+ trim p)
         (fun p => String.substring 4 (String.length p - 4) p)
         "/ws"
         (fun p => "no such file: " +:+ p)
         (fun _ => Diff.NL)
         demoReplaceAt
         (fun _ _ _ fs => ("Command succeeded (exit 0) with no output.", fs))
         (fun _ _ => [])
         (fun _ _ _ => ("patch failed", None))
         (fun _ _ _ _ _ => None).

Definition demoWorld : World :=
  mkWorld {[ "/ws/a.txt" := "A" ]} ∅ [].

(** The ledger is within its bound: [revertOrder] holds at most
    [MAX_REVERTS] ids, none of them empty, and every stored change is
    listed there. *)
Definition LedgerOk (w : World) : Prop :=
  (length (revertOrder w) <= MAX_REVERTS)%nat
  /\ (EmptyString ∉ revertOrder w)
  /\ forall id, is_Some (revertChanges w !! id) -> id ∈ revertOrder w.

(** The request was not let through: the user declined it, or the editor
    refused the edit it asked for. *)
Definition refused (r : Request) : bool :=
  match r with
  | EditFile _ approved accepted | InsertText _ approved accepted
  | ReplaceRange _ approved accepted | RenameApply _ approved accepted =>
      negb approved || negb accepted
  | CopyFile _ approved | ApplyPatch _ _ approved | WriteFile _ approved
  | CreateDir _ approved | DeleteFile _ approved | MoveFile _ approved
  | RunCommand _ approved => negb approved
  end.

(** A ledger that is full: forty ids, no stored change. *)
Definition fullOrder : list string :=
  map (fun n => "revert_" +:+ decimal n) (seq 0 40).
Definition fullWorld : World := mkWorld ∅ ∅ fullOrder.

End Ledger.

(** ** The agent loop *)
Module Agent.
Import Js.
Export Todo Dispatch.

Record Msg := mkMsg { role : string; content : string }.

Definition user (c : string) : Msg := mkMsg "user" c.
Definition assistant (c : string) : Msg := mkMsg "assistant" c.

(** [getAgentMaxSteps()]; the setting is [None] when it is not a finite
    number, and an integer otherwise. *)
Definition getAgentMaxSteps (setting : option Z) : nat :=
  match setting with
  | None => 6%nat
  | Some raw => Z.to_nat (Z.max 1 (Z.min 50 raw))
  end.

(** [s.includes(needle)] *)
Fixpoint hasPrefix (needle s : string) : bool :=
  match needle, s with
  | EmptyString, _ => true
  | String a n', String b s' => bool_decide (a = b) && hasPrefix n' s'
  | _, EmptyString => false
  end.

Fixpoint includesText (needle s : string) : bool :=
  hasPrefix needle s
  || match s with
     | String _ r => includesText needle r
     | EmptyString => false
     end.

(** [limitToolOutput(text, 12000)] *)
Definition limitToolOutput (text : string) : string :=
  if strlen text <=? 12000 then text
  else slice 0 12000 text +:+ Diff.NL +:+ "...[truncated]".

(** [formatToolResultForUi(tool, resultText)] *)
Definition formatToolResultForUi (tool resultText : string) : string :=
  let label := if bool_decide (tool = EmptyString) then "Tool result:"
               else "Tool result (" +:+ tool +:+ "):" in
  let body := trim resultText in
  let fenced := label +:+ Diff.NL +:+ "```" +:+ Diff.NL +:+ body +:+ Diff.NL +:+ "```" in
  if bool_decide (tool = "run_command") then fenced
  else if bool_decide (tool ∈ ["read_file"; "read_files"; "read_file_range_by_symbols";
                               "read_output"])
  then (if includesText "```" body then label +:+ Diff.NL +:+ body else fenced)
  else label +:+ Diff.NL +:+ resultText.

(** The loop of [trimChatMessagesForModel], over the messages from the
    last one back; [out] is held in the order of the result. *)
Fixpoint trimLoop (limit : Z) (rev : list Msg) (isLast : bool) (total : Z)
    (out : list Msg) : list Msg :=
  match rev with
  | [] => out
  | msg :: rest =>
      let n := strlen (content msg) in
      if isLast && (limit <? n)
      then mkMsg (role msg) (slice (n - limit) n (content msg)) :: out
      else if limit <? total + n then trimLoop limit rest false total out
      else if limit <=? total + n then msg :: out
      else trimLoop limit rest false (total + n) (msg :: out)
  end.

(** [trimChatMessagesForModel(messages, maxChars)] for a limit that
    [getChatHistoryCharLimit] returned. *)
Definition trimChatMessagesForModel (messages : list Msg) (limit : Z) : list Msg :=
  match reverse messages with
  | [] => []
  | lastMsg :: older =>
      if limit =? 0 then [lastMsg]
      else trimLoop limit (lastMsg :: older) true 0 []
  end.

Fixpoint plannerLines (idx : nat) (todos : list TodoItem) : list string :=
  match todos with
  | [] => []
  | item :: rest =>
      (decimal (idx + 1) +:+ ". ["
         +:+ (if bool_decide (status item = "done") then "done" else "pending")
         +:+ "] " +:+ text item) :: plannerLines (S idx) rest
  end.

(** [buildPlannerInstruction(todos)] *)
Definition buildPlannerInstruction (todos : list TodoItem) : string :=
  match getPendingTodos todos with
  | [] => EmptyString
  | next :: _ =>
      join Diff.NL
        ["You are executing a TODO plan. Focus on ONE pending item at a time.";
         "Current TODOs:";
         join Diff.NL (plannerLines 0 todos);
         EmptyString;
         "Next item to execute: " +:+ text next;
         "Work on the next item only, then return updated {" +:+ quoted "todo"
           +:+ ":[...]} with statuses.";
         "Do not repeat the TODO list without taking action; use tools to make progress."]
  end.

(** What the parsers make of a response; an absent field is [None]. The
    [todo] field holds items: [parseAgentResponse] and
    [extractTodoFromText] put the array of the reply through
    [normalizeTodoList] before they return it. *)
Record Parsed := mkParsed {
  final : option string;
  toolCalls : option (list ToolCall);
  todo : option (list TodoItem);
  prose : string
}.

(** The signature of a [run_command] call: the three values the source
    serialises, the third being the empty text when the call names no
    time-out (or zero). *)
Definition Signature : Type := string * string * option Z.

Definition signatureOf (c : ToolCall) : Signature :=
  (trim (textOr (command (args c))),
   trim (textOr (cwd (args c))),
   match timeoutMs (args c) with
   | Some t => if t =? 0 then None else Some t
   | None => None
   end).

(** What the loop is given: the model, the parsers that need the JSON
    parser of the platform, the text helpers of the display, the tool
    runner over its state [W], the diagnostics, the stop flag as it stands
    when a round begins, and the todo seed of the prompt. *)
Record Env (W : Type) := mkEnv {
  callModelForChat : nat -> list Msg -> string;
  parseAgentResponse : string -> option Parsed;
  parseTaggedToolCalls : string -> option Parsed;
  toolCallsOf : string -> option (list ToolCall);
  todoOf : string -> option (list TodoItem);
  stripTodoJsonFromText : string -> Z * Z -> string;
  isBareTodoResponse : Parsed -> string -> bool;
  describeToolCall : ToolCall -> string;
  runToolCall : ToolCall -> W -> string * W;
  toolReadDir : W -> string * W;
  toolListFiles : W -> string * W;
  collectWorkspaceProblems : W -> list string;
  stopRequested : nat -> bool;
  todoSeedCache : list TodoItem;
  historyLimit : Z
}.

Arguments callModelForChat {W}.
Arguments parseAgentResponse {W}.
Arguments parseTaggedToolCalls {W}.
Arguments toolCallsOf {W}.
Arguments todoOf {W}.
Arguments stripTodoJsonFromText {W}.
Arguments isBareTodoResponse {W}.
Arguments describeToolCall {W}.
Arguments runToolCall {W}.
Arguments toolReadDir {W}.
Arguments toolListFiles {W}.
Arguments collectWorkspaceProblems {W}.
Arguments stopRequested {W}.
Arguments todoSeedCache {W}.
Arguments historyLimit {W}.

(** What the loop leaves behind for an observer: a model call, a tool
    call that ran, a command that was skipped, a corrective instruction. *)
Inductive Event :=
| ModelCalled
| ToolRan (c : ToolCall)
| CommandSkipped (c : ToolCall)
| CorrectiveSent.

#[global] Instance Args_eq_dec : EqDecision Args.
Proof. solve_decision. Defined.
#[global] Instance ToolCall_eq_dec : EqDecision ToolCall.
Proof. solve_decision. Defined.
#[global] Instance Event_eq_dec : EqDecision Event.
Proof. solve_decision. Defined.

(** The variables of [runAgentTurn], the todo list of the chat state, the
    state of the tool runner, and the events so far. *)
Record LoopState (W : Type) := mkState {
  uiMessages : list Msg;
  modelMessages : list Msg;
  todos : list TodoItem;
  lastBareTodoSignature : option (list TodoItem);
  bareTodoRepeatCount : nat;
  lastCommandSignature : option Signature;
  sawMutationSinceCommand : bool;
  mutationSinceProblems : bool;
  world : W;
  events : list Event
}.

Arguments mkState {W}.
Arguments uiMessages {W}.
Arguments modelMessages {W}.
Arguments todos {W}.
Arguments lastBareTodoSignature {W}.
Arguments bareTodoRepeatCount {W}.
Arguments lastCommandSignature {W}.
Arguments sawMutationSinceCommand {W}.
Arguments mutationSinceProblems {W}.
Arguments world {W}.
Arguments events {W}.

Inductive Exit := Stopped | EmptyResponse | Unparsed | Final | StepLimitReached.

(** The end of a turn: how it ended, the state it left, and the saved
    continuation ([agentContinuationMessages]). *)
Record Result (W : Type) := mkResult {
  exit : Exit;
  state : LoopState W;
  continuation : option (list Msg)
}.

Arguments mkResult {W}.
Arguments exit {W}.
Arguments state {W}.
Arguments continuation {W}.

Definition mutatingTools : list string :=
  ["edit_file"; "write_file"; "create_dir"; "delete_file"; "move_file"; "apply_patch";
   "run_command"].

Definition verifyTools : list string := ["read_dir"; "list_files"].

Definition skippedText : string :=
  "Skipped: command already run with the same args and no file changes since then. Make a change or ask to force a rerun.".

Definition correctiveText : string :=
  "You are repeating the TODO list without acting. Use tools to complete the next item now. Do not return only TODO JSON.".

Definition stepLimitText : string := "Agent stopped: too many tool steps.".

Definition allDoneText : string := "All TODO items completed.".

(** [setAgentContinuation(messages)] *)
Definition setAgentContinuation (messages : list Msg) : option (list Msg) :=
  match messages with
  | [] => None
  | _ => Some messages
  end.

Section Loop.
Context {W : Type}.
Variable env : Env W.

Definition withUi (st : LoopState W) (m : Msg) : LoopState W :=
  mkState (uiMessages st ++ [m]) (modelMessages st) (todos st)
          (lastBareTodoSignature st) (bareTodoRepeatCount st)
          (lastCommandSignature st) (sawMutationSinceCommand st)
          (mutationSinceProblems st) (world st) (events st).

(** A push on [modelMessages] followed by the trim. *)
Definition withModel (st : LoopState W) (m : Msg) : LoopState W :=
  mkState (uiMessages st)
          (trimChatMessagesForModel (modelMessages st ++ [m]) (historyLimit env))
          (todos st)
          (lastBareTodoSignature st) (bareTodoRepeatCount st)
          (lastCommandSignature st) (sawMutationSinceCommand st)
          (mutationSinceProblems st) (world st) (events st).

(** A tool result shown to the user and fed back to the model. *)
Definition withResult (st : LoopState W) (resultText : string) : LoopState W :=
  withModel (withUi st (assistant resultText)) (user resultText).

(** [applyTodoUpdate(incoming)] on the todo list of the chat state; both
    lists hold items, which are objects. *)
Definition applyTodoUpdate (incoming : list TodoItem) (st : LoopState W) : LoopState W :=
  mkState (uiMessages st) (modelMessages st)
          (mergeTodoLists (map Object (todos st)) (map Object incoming))
          (lastBareTodoSignature st) (bareTodoRepeatCount st)
          (lastCommandSignature st) (sawMutationSinceCommand st)
          (mutationSinceProblems st) (world st) (events st).

(** The todo update every branch starts with: the todo of the response,
    or else the seed of the prompt when there is one. *)
Definition updateTodos (parsed : Parsed) (st : LoopState W) : LoopState W :=
  match todo parsed with
  | Some t => applyTodoUpdate t st
  | None =>
      match todoSeedCache env with
      | [] => st
      | seed => applyTodoUpdate seed st
      end
  end.

(** The body of the loop over the tool calls, for one call; the two
    booleans are [didMutate] and [didVerify]. *)
Definition execCall (acc : LoopState W * bool * bool) (call : ToolCall)
    : LoopState W * bool * bool :=
  let '(st0, didMutate0, didVerify0) := acc in
  let normalizedCall := normalizeToolCall call in
  let st1 := withUi st0 (assistant (describeToolCall env normalizedCall)) in
  let isMutating := bool_decide (tool normalizedCall ∈ mutatingTools) in
  let didMutate := didMutate0 || isMutating in
  let didVerify := didVerify0 || bool_decide (tool normalizedCall ∈ verifyTools) in
  let st2 :=
    mkState (uiMessages st1) (modelMessages st1) (todos st1)
            (lastBareTodoSignature st1) (bareTodoRepeatCount st1)
            (lastCommandSignature st1) (sawMutationSinceCommand st1)
            (mutationSinceProblems st1 || isMutating) (world st1) (events st1) in
  if bool_decide (tool normalizedCall = "run_command") then
    let signature := signatureOf normalizedCall in
    if bool_decide (lastCommandSignature st2 = Some signature)
       && negb (sawMutationSinceCommand st2)
    then
      let st3 := withResult st2 (formatToolResultForUi "run_command" skippedText) in
      (mkState (uiMessages st3) (modelMessages st3) (todos st3)
               (lastBareTodoSignature st3) (bareTodoRepeatCount st3)
               (lastCommandSignature st3) (sawMutationSinceCommand st3)
               (mutationSinceProblems st3) (world st3)
               (events st3 ++ [CommandSkipped normalizedCall]),
       didMutate, didVerify)
    else
      let (result, w) := runToolCall env normalizedCall (world st2) in
      let st3 :=
        mkState (uiMessages st2) (modelMessages st2) (todos st2)
                (lastBareTodoSignature st2) (bareTodoRepeatCount st2)
                (Some signature) false
                (mutationSinceProblems st2) w (events st2 ++ [ToolRan normalizedCall]) in
      (withResult st3 (formatToolResultForUi (tool normalizedCall) (limitToolOutput result)),
       didMutate, didVerify)
  else
    let (result, w) := runToolCall env normalizedCall (world st2) in
    let st3 :=
      mkState (uiMessages st2) (modelMessages st2) (todos st2)
              (lastBareTodoSignature st2) (bareTodoRepeatCount st2)
              (lastCommandSignature st2) (sawMutationSinceCommand st2)
              (mutationSinceProblems st2) w (events st2 ++ [ToolRan normalizedCall]) in
    let st4 :=
      withResult st3 (formatToolResultForUi (tool normalizedCall) (limitToolOutput result)) in
    (mkState (uiMessages st4) (modelMessages st4) (todos st4)
             (lastBareTodoSignature st4) (bareTodoRepeatCount st4)
             (lastCommandSignature st4) (sawMutationSinceCommand st4 || isMutating)
             (mutationSinceProblems st4 || isMutating) (world st4) (events st4),
     didMutate, didVerify).

Definition execCalls (acc : LoopState W * bool * bool) (calls : list ToolCall)
    : LoopState W * bool * bool :=
  foldl execCall acc calls.

(** The three parsers in their order, then the todo scan standing in
    when none of them succeeded. *)
Definition parseResponse (assistantText : string) : option Parsed :=
  let parsed :=
    match parseAgentResponse env assistantText with
    | Some p => Some p
    | None =>
        match parseTaggedToolCalls env assistantText with
        | Some p => Some p
        | None =>
            match Parser.extractToolCallsFromText (toolCallsOf env) assistantText with
            | Some (calls, rest) => Some (mkParsed None (Some calls) None rest)
            | None => None
            end
        end
    end in
  match parsed, Parser.extractTodoFromText (todoOf env) assistantText with
  | None, Some (t, _) => Some (mkParsed None None (Some t) EmptyString)
  | _, _ => parsed
  end.

Definition cleanedText (assistantText : string) : string :=
  match Parser.extractTodoFromText (todoOf env) assistantText with
  | Some (_, range) => stripTodoJsonFromText env assistantText range
  | None => assistantText
  end.

Definition problemsText (problems : list string) : string :=
  formatToolResultForUi "problems"
    ("Workspace problems (" +:+ decimal (length problems) +:+ "):" +:+ Diff.NL
       +:+ join Diff.NL problems).

Definition clearProblemsFlag (st : LoopState W) : LoopState W :=
  mkState (uiMessages st) (modelMessages st) (todos st)
          (lastBareTodoSignature st) (bareTodoRepeatCount st)
          (lastCommandSignature st) (sawMutationSinceCommand st)
          false (world st) (events st).

(** The deferred verification shared by the three ends of a turn: when
    [check] holds and the workspace has problems, they are reported and the
    loop goes on; otherwise the turn ends with [message]. *)
Definition finishOrVerify (check : bool) (message : string) (st : LoopState W)
    : LoopState W + Result W :=
  match (if check then collectWorkspaceProblems env (world st) else []) with
  | [] => inr (mkResult Final (withUi st (assistant message)) None)
  | problems => inl (withResult (clearProblemsFlag st) (problemsText problems))
  end.

Definition noPending (st : LoopState W) : bool :=
  bool_decide (getPendingTodos (todos st) = []).

(** The branch of a response with tool calls. *)
Definition runToolCalls (parsed : Parsed) (calls : list ToolCall) (st : LoopState W)
    : LoopState W :=
  let st1 :=
    mkState (uiMessages st) (modelMessages st) (todos st) None O
            (lastCommandSignature st) (sawMutationSinceCommand st)
            (mutationSinceProblems st) (world st) (events st) in
  let st2 := updateTodos parsed st1 in
  let st3 := if bool_decide (trim (prose parsed) = EmptyString) then st2
             else withUi st2 (assistant (trim (prose parsed))) in
  let '(st4, didMutate, didVerify) := execCalls (st3, false, false) calls in
  if didMutate && negb didVerify then
    let (tree, w1) := toolReadDir env (world st4) in
    let treeText := formatToolResultForUi "read_dir" (limitToolOutput tree) in
    let (files, w2) := toolListFiles env w1 in
    let filesText := formatToolResultForUi "list_files" (limitToolOutput files) in
    mkState (uiMessages st4 ++ [assistant treeText; assistant filesText])
            (trimChatMessagesForModel
               (modelMessages st4 ++ [user treeText; user filesText]) (historyLimit env))
            (todos st4) (lastBareTodoSignature st4) (bareTodoRepeatCount st4)
            (lastCommandSignature st4) (sawMutationSinceCommand st4)
            (mutationSinceProblems st4) w2 (events st4)
  else st4.

(** The branch of a response that is neither final nor a tool call. *)
Definition todoOnly (parsed : Parsed) (assistantText : string) (st : LoopState W)
    : LoopState W + Result W :=
  let st1 := updateTodos parsed st in
  let cleaned := cleanedText assistantText in
  let cleanedBody := if bool_decide (trim cleaned = EmptyString) then EmptyString else cleaned in
  let isBareTodo :=
    match todo parsed with
    | Some _ => isBareTodoResponse env parsed assistantText
    | None =>
        match Parser.extractTodoFromText (todoOf env) assistantText with
        | Some _ => bool_decide (cleanedBody = EmptyString)
        | None => false
        end
    end in
  if negb isBareTodo then
    finishOrVerify (mutationSinceProblems st1 && noPending st1)
      (if bool_decide (cleanedBody = EmptyString) then assistantText else cleanedBody) st1
  else
    let todoSignature :=
      option_map (fun t => normalizeTodoList (map Object t)) (todo parsed) in
    let repeated :=
      match todoSignature with
      | Some _ => bool_decide (todoSignature = lastBareTodoSignature st1)
      | None => false
      end in
    let st2 :=
      mkState (uiMessages st1) (modelMessages st1) (todos st1)
              (if repeated then lastBareTodoSignature st1 else todoSignature)
              (if repeated then S (bareTodoRepeatCount st1) else O)
              (lastCommandSignature st1) (sawMutationSinceCommand st1)
              (mutationSinceProblems st1) (world st1) (events st1) in
    let st3 :=
      if bool_decide (1 <= bareTodoRepeatCount st2)%nat then
        let st' := withModel st2 (user correctiveText) in
        mkState (uiMessages st') (modelMessages st') (todos st')
                (lastBareTodoSignature st') (bareTodoRepeatCount st')
                (lastCommandSignature st') (sawMutationSinceCommand st')
                (mutationSinceProblems st') (world st') (events st' ++ [CorrectiveSent])
      else st2 in
    if noPending st3
    then finishOrVerify (mutationSinceProblems st3) allDoneText st3
    else inl st3.

(** One round of the [for] loop of [runAgentTurn]: [inl] goes on with the
    next round, [inr] returns. *)
Definition round (step : nat) (st : LoopState W) : LoopState W + Result W :=
  if stopRequested env step
  then inr (mkResult Stopped (withUi st (assistant "Stopped.")) None)
  else
    let plannerText := buildPlannerInstruction (todos st) in
    let modelSeed := if bool_decide (plannerText = EmptyString) then modelMessages st
                     else modelMessages st ++ [user plannerText] in
    let assistantText :=
      callModelForChat env step (trimChatMessagesForModel modelSeed (historyLimit env)) in
    let st0 :=
      mkState (uiMessages st) (modelMessages st) (todos st)
              (lastBareTodoSignature st) (bareTodoRepeatCount st)
              (lastCommandSignature st) (sawMutationSinceCommand st)
              (mutationSinceProblems st) (world st) (events st ++ [ModelCalled]) in
    if bool_decide (trim assistantText = EmptyString)
    then inr (mkResult EmptyResponse
                (withUi st0 (assistant
                   "Error: model returned an empty response. Try another model or check the endpoint."))
                None)
    else
      let st1 := withModel st0 (assistant assistantText) in
      match parseResponse assistantText with
      | None => inr (mkResult Unparsed (withUi st1 (assistant assistantText)) None)
      | Some parsed =>
          match final parsed with
          | Some (String c f) =>
              let st2 := updateTodos parsed st1 in
              finishOrVerify (mutationSinceProblems st2 && noPending st2) (String c f) st2
          | _ =>
              match toolCalls parsed with
              | Some (call :: calls) => inl (runToolCalls parsed (call :: calls) st1)
              | _ => todoOnly parsed assistantText st1
              end
          end
      end.

(** The [for] loop: [fuel] rounds are left, the next one is [step]. *)
Fixpoint loop (fuel step : nat) (st : LoopState W) : Result W :=
  match fuel with
  | O => mkResult StepLimitReached (withUi st (assistant stepLimitText))
                  (setAgentContinuation (modelMessages st))
  | S fuel' =>
      match round step st with
      | inl st' => loop fuel' (S step) st'
      | inr r => r
      end
  end.

(** [runAgentTurn(baseMessages, modelMessagesSeed)], over the todo list
    of the chat state and the state of the tool runner. *)
Definition runAgentTurn (maxSteps : nat) (baseMessages modelMessagesSeed : list Msg)
    (todos0 : list TodoItem) (w : W) : Result W :=
  loop maxSteps 0
    (mkState baseMessages
             (match modelMessagesSeed with [] => baseMessages | _ => modelMessagesSeed end)
             todos0 None O None false false w []).

End Loop.

(** The events of a kind in a run. *)
Definition modelCalls (l : list Event) : nat :=
  length (filter (fun e => e = ModelCalled) l).
Definition correctives (l : list Event) : nat :=
  length (filter (fun e => e = CorrectiveSent) l).

(** The last message shown to the user. *)
Definition lastUi {W : Type} (st : LoopState W) : option Msg := last (uiMessages st).

(** What the events so far make of the two variables of the command
    dedup, [lastCommandSignature] and [sawMutationSinceCommand]: a command
    that ran sets them, any other tool that ran may raise the flag, and
    nothing else touches them. *)
Definition afterEvent (d : option Signature * bool) (e : Event) : option Signature * bool :=
  match e with
  | ToolRan n =>
      if bool_decide (tool n = "run_command") then (Some (signatureOf n), false)
      else (d.1, d.2 || bool_decide (tool n ∈ mutatingTools))
  | _ => d
  end.

Definition dedupOf (l : list Event) : option Signature * bool :=
  foldl afterEvent (None, false) l.

(** An event agrees with the dedup rule in the state [d] before it: a
    skipped call is a command whose signature is the last one with no
    mutation since, and a command that ran is not in that case. *)
Definition eventOk (d : option Signature * bool) (e : Event) : Prop :=
  match e with
  | CommandSkipped n => tool n = "run_command" /\ d = (Some (signatureOf n), false)
  | ToolRan n => tool n = "run_command" -> d <> (Some (signatureOf n), false)
  | _ => True
  end.

(** Every event of a list agrees with the rule in the state the events
    before it make. *)
Definition consistent (l : list Event) : Prop :=
  forall pre e post, l = pre ++ e :: post -> eventOk (dedupOf pre) e.

(** The two variables are what the events so far make them, and the
    events agree with the rule. *)
Definition Tracked {W : Type} (st : LoopState W) : Prop :=
  (lastCommandSignature st, sawMutationSinceCommand st) = dedupOf (events st)
  /\ consistent (events st).

(** The state between two rounds of a run on the stub, after [k] rounds,
    when the stub sends the todo list [t]: once a round has gone by, a
    todo is pending. *)
Definition StubInv {W : Type} (t : list TodoItem) (k : nat) (st : LoopState W) : Prop :=
  mutationSinceProblems st = false
  /\ modelCalls (events st) = k
  /\ match k with
     | O => lastBareTodoSignature st = None /\ correctives (events st) = O
     | S k' => lastBareTodoSignature st = Some (normalizeTodoList (map Object t))
               /\ correctives (events st) = k'
               /\ modelMessages st <> []
               /\ getPendingTodos (todos st) <> []
     end.

(** A model stub that always sends the same text, which the strict parser
    reads as the todo list [t] and nothing else, and which is a bare todo
    response; nobody asks to stop. *)
Definition todoStub (t : list TodoItem) (limit : Z) : Env unit :=
  mkEnv unit
    (fun _ _ => "{" +:+ quoted "todo" +:+ ":[...]}")
    (fun _ => Some (mkParsed None None (Some t) EmptyString))
    (fun _ => None)
    (fun _ => None)
    (fun _ => None)
    (fun s _ => s)
    (fun _ _ => true)
    (fun c => "Tool call: " +:+ tool c)
    (fun _ w => (EmptyString, w))
    (fun w => (EmptyString, w))
    (fun w => (EmptyString, w))
    (fun _ => [])
    (fun _ => false)
    []
    limit.

(** The characters a list of messages holds. *)
Definition totalChars (l : list Msg) : Z :=
  foldr (fun m acc => strlen (content m) + acc) 0 l.

(** What the loop of [buildAgentModelMessages] makes of one message:
    [None] when it passes the message over. *)
Definition modelMessageOf (msg : Msg) : option Msg :=
  let isAssistant := bool_decide (role msg = "assistant") in
  if isAssistant && hasPrefix "Tool call:" (content msg) then None
  else if isAssistant && hasPrefix "Tool result" (content msg)
  then Some (user (content msg))
  else if isAssistant
          && (bool_decide (content msg = stepLimitText)
              || bool_decide (content msg = "Stopped."))
  then None
  else Some msg.

(** [buildAgentModelMessages(messages)] *)
Fixpoint buildAgentModelMessages (messages : list Msg) : list Msg :=
  match messages with
  | [] => []
  | msg :: rest =>
      match modelMessageOf msg with
      | Some m => m :: buildAgentModelMessages rest
      | None => buildAgentModelMessages rest
      end
  end.

End Agent.

(** * Properties of the embedded code *)

(** The source's escape test never holds: a single unit is compared with a
    text of two units. *)
Lemma srcIsEscape_never (ch : ascii) : Parser.srcIsEscape ch = false.
Proof.
  unfold Parser.srcIsEscape, Js.chEq, Parser.escapeLiteral.
  apply bool_decide_eq_false. discriminate.
Qed.

(** The decoy text is the literal, a blank and the real object, which
    starts at offset 6. *)
Lemma decoyText_shape :
  Js.sliceFrom 6 Parser.decoyText = Parser.realObject
  /\ Js.slice 0 5 Parser.decoyText = Js.quoted ("\" +:+ String Js.dq "}").
Proof. split; vm_compute; reflexivity. Qed.

(** A scanner that respects the escape finds exactly the real object. *)
Lemma spec_scanner_on_decoy :
  Parser.todoSpans Parser.specIsEscape Parser.decoyText
  = [(6, Js.strlen Parser.decoyText)].
Proof. vm_compute. reflexivity. Qed.

(** C1 (as the code behaves): on the decoy text, a string literal with an
    escaped quote and an embedded closing brace followed by a real top-level
    object with a toolCalls array, the scanner of the source finds no
    top-level span at all, so whatever the JSON parser would accept,
    [extractToolCallsFromText] extracts nothing: the real object is lost. *)
Theorem C1_scanner_loses_real_object :
  Parser.todoSpans Parser.srcIsEscape Parser.decoyText = []
  /\ forall (Call : Type) (toolCallsOf : string -> option (list Call)),
       Parser.extractToolCallsFromText toolCallsOf Parser.decoyText = None.
Proof.
  split; [vm_compute; reflexivity|].
  intros Call toolCallsOf.
  unfold Parser.extractToolCallsFromText, Parser.extractWith, Parser.scanToolCalls.
  vm_compute. reflexivity.
Qed.

Section TodoFacts.
Import Todo.

Lemma keepDone_grows (l : list TodoItem) : forall merged m,
  m ∈ merged -> m ∈ foldl keepDone merged l.
Proof.
  induction l as [|c l IH]; intros merged m Hm; simpl; [exact Hm|].
  apply IH. unfold keepDone.
  destruct (negb _); [exact Hm|].
  destruct (existsb _ merged); [exact Hm|].
  apply elem_of_app. now left.
Qed.

Lemma sameItem_retained (c : TodoItem) (merged : list TodoItem) :
  existsb (sameItem (id c) (Js.toLowerCase (text c))) merged = true ->
  retained c merged.
Proof.
  intros H. apply existsb_exists in H as (m & Hin & Hm).
  exists m. split; [now apply list_elem_of_In|].
  unfold sameItem in Hm. apply orb_true_iff in Hm as [Hm|Hm];
    apply bool_decide_eq_true in Hm; auto.
Qed.

Lemma retained_mono (c : TodoItem) (l : list TodoItem) : forall merged,
  retained c merged -> retained c (foldl keepDone merged l).
Proof.
  intros merged (m & Hin & Hm). exists m. split; [|exact Hm].
  now apply keepDone_grows.
Qed.

Lemma keepDone_retains (l : list TodoItem) : forall merged c,
  c ∈ l -> status c = "done" -> retained c (foldl keepDone merged l).
Proof.
  induction l as [|d l IH]; intros merged c Hin Hdone.
  - inversion Hin.
  - apply elem_of_cons in Hin as [->|Hin]; [|now apply IH].
    simpl. apply retained_mono. unfold keepDone.
    rewrite bool_decide_eq_true_2 by exact Hdone. simpl.
    destruct (existsb _ merged) eqn:E.
    + now apply sameItem_retained.
    + exists d. split; [apply elem_of_app; right; apply list_elem_of_singleton; reflexivity|].
      now left.
Qed.

(** What the second loop of the merge adds is done items of the current
    list. *)
Lemma keepDone_from (l : list TodoItem) : forall merged m,
  m ∈ foldl keepDone merged l -> m ∈ merged \/ (m ∈ l /\ status m = "done").
Proof.
  induction l as [|c l IH]; intros merged m Hm; simpl in Hm; [now left|].
  apply IH in Hm as [Hm|[Hm Hd]]; [|right; split; [now right|exact Hd]].
  unfold keepDone in Hm.
  destruct (bool_decide (status c = "done")) eqn:Hc; [|now left].
  apply bool_decide_eq_true in Hc. cbn [negb] in Hm.
  destruct (existsb _ merged); [now left|].
  apply elem_of_app in Hm as [Hm|Hm]; [now left|].
  apply list_elem_of_singleton in Hm. subst m. right. split; [left|exact Hc].
Qed.

(** A merged item carries the id and the text of the incoming item it
    was made from. *)
Lemma mergeItem_keys (byId byText : gmap string TodoItem) (next : list TodoItem)
    (m : TodoItem) :
  m ∈ map (mergeItem byId byText) next ->
  exists n, n ∈ next /\ id m = id n /\ text m = text n.
Proof.
  intros Hm. apply list_elem_of_fmap in Hm as (n & -> & Hn).
  exists n. split; [exact Hn|]. unfold mergeItem.
  destruct (match _ !! id n with Some e => Some e | None => _ end); now split.
Qed.
End TodoFacts.

(** C4 (as the code behaves): the current list holds the done item
    (2, fix bug) and a pending item with id 1; the incoming list re-sends
    the text of the done item as pending under id 1. The lookup by id wins
    over the lookup by text, the merged item is pending, and the done item
    is not appended again because its text is found: done has gone back to
    pending. *)
Theorem C4_done_reverts_to_pending :
  let current := [Todo.mkItem "1" "write tests" "pending";
                  Todo.mkItem "2" "fix bug" "done"] in
  let incoming := [Todo.mkItem "1" "Fix bug" "pending"] in
  Todo.normalizeTodoList (map Todo.Object current) = current
  /\ Todo.normalizeTodoList (map Todo.Object incoming) = incoming
  /\ Todo.mergeTodoLists (map Todo.Object current) (map Todo.Object incoming)
     = [Todo.mkItem "1" "Fix bug" "pending"].
Proof. vm_compute. repeat split; reflexivity. Qed.

(** C9, the claim as stated fails: a pending item of the current list that
    the incoming list does not mention is dropped by the merge. *)
Lemma C9_pending_item_dropped :
  let current := [Todo.mkItem "1" "read the code" "pending"] in
  let incoming := [Todo.mkItem "2" "write the fix" "pending"] in
  Todo.normalizeTodoList (map Todo.Object incoming) <> []
  /\ Todo.mkItem "1" "read the code" "pending" ∈ current
  /\ ~ Todo.retained (Todo.mkItem "1" "read the code" "pending")
         (Todo.mergeTodoLists (map Todo.Object current) (map Todo.Object incoming)).
Proof.
  split; [vm_compute; discriminate|].
  split; [apply list_elem_of_singleton; reflexivity|].
  intros (m & Hin & Hm).
  assert (E : Todo.mergeTodoLists
                (map Todo.Object [Todo.mkItem "1" "read the code" "pending"])
                (map Todo.Object [Todo.mkItem "2" "write the fix" "pending"])
              = [Todo.mkItem "2" "write the fix" "pending"])
    by (vm_compute; reflexivity).
  rewrite E in Hin. apply list_elem_of_singleton in Hin. subst m.
  destruct Hm as [Hm|Hm]; vm_compute in Hm; discriminate.
Qed.

(** C9 (amended): when the normalised incoming list is not empty, every
    done item of the normalised current list is retained by the merged
    list, under its id or under its text up to case; and an item of the
    normalised current list that is not done and that the incoming list
    does not mention, by its id or by its text up to case, is dropped: it
    is not in the merged list, where only done items carry its id or its
    text. *)
Theorem C9_done_items_retained (current incoming : list Todo.Entry) (c : Todo.TodoItem) :
  Todo.normalizeTodoList incoming <> [] ->
  c ∈ Todo.normalizeTodoList current ->
  (Todo.status c = "done" -> Todo.retained c (Todo.mergeTodoLists current incoming))
  /\ (Todo.status c <> "done" ->
      ~ Todo.retained c (Todo.normalizeTodoList incoming) ->
      (c ∉ Todo.mergeTodoLists current incoming)
      /\ forall m, m ∈ Todo.mergeTodoLists current incoming ->
                   Todo.id m = Todo.id c
                   \/ Js.toLowerCase (Todo.text m) = Js.toLowerCase (Todo.text c) ->
                   Todo.status m = "done").
Proof.
  intros Hne Hin. unfold Todo.mergeTodoLists.
  destruct (Todo.normalizeTodoList incoming) as [|x next] eqn:E; [congruence|].
  split; [intros Hdone; now apply keepDone_retains|].
  intros Hpending Hfree.
  assert (Hall : forall m,
            m ∈ foldl Todo.keepDone
                  (map (Todo.mergeItem
                          (Todo.mapOf (map (fun item => (Todo.id item, item))
                                         (Todo.normalizeTodoList current)))
                          (Todo.mapOf (map (fun item => (Js.toLowerCase (Todo.text item), item))
                                         (Todo.normalizeTodoList current))))
                     (x :: next))
                  (Todo.normalizeTodoList current) ->
            Todo.id m = Todo.id c
            \/ Js.toLowerCase (Todo.text m) = Js.toLowerCase (Todo.text c) ->
            Todo.status m = "done").
  { intros m Hm Hkey. apply keepDone_from in Hm as [Hm|[_ Hd]]; [|exact Hd].
    exfalso. apply Hfree. apply mergeItem_keys in Hm as (n & Hn & Hi & Ht).
    exists n. split; [exact Hn|]. now rewrite <- Hi, <- Ht. }
  split; [|exact Hall].
  intros Hc. apply Hpending. apply (Hall c Hc). now left.
Qed.

Lemma C9_done_items_retained_witness :
  let current := [Todo.Object (Todo.mkItem "1" "write tests" "pending");
                  Todo.Object (Todo.mkItem "2" "fix bug" "done")] in
  let incoming := [Todo.Object (Todo.mkItem "3" "ship" "pending")] in
  Todo.retained (Todo.mkItem "2" "fix bug" "done") (Todo.mergeTodoLists current incoming)
  /\ (Todo.mkItem "1" "write tests" "pending" ∉ Todo.mergeTodoLists current incoming).
Proof.
  intros current incoming. split.
  - destruct (C9_done_items_retained current incoming (Todo.mkItem "2" "fix bug" "done"))
      as [Hdone _].
    + vm_compute. discriminate.
    + vm_compute. apply list_elem_of_further, list_elem_of_here.
    + apply Hdone. reflexivity.
  - destruct (C9_done_items_retained current incoming
                (Todo.mkItem "1" "write tests" "pending")) as [_ Hpending].
    + vm_compute. discriminate.
    + vm_compute. apply list_elem_of_here.
    + apply Hpending; [discriminate|].
      intros (m & Hin & Hm).
      assert (E : Todo.normalizeTodoList incoming = [Todo.mkItem "3" "ship" "pending"])
        by (vm_compute; reflexivity).
      rewrite E in Hin. apply list_elem_of_singleton in Hin. subst m.
      destruct Hm as [Hm|Hm]; vm_compute in Hm; discriminate.
Defined.

Section DispatchFacts.
Import Dispatch.

Lemma extPatternHere_backslash (s : string) :
  extPatternHere s = true -> Js.includes Js.bslash s = true.
Proof.
  destruct s as [|b [|c rest]]; simpl; try discriminate.
  intros H. repeat (apply andb_true_iff in H as [H _]).
  unfold Js.chEq in H. apply bool_decide_eq_true in H.
  injection H as ->. reflexivity.
Qed.

Lemma extPatternTest_backslash (s : string) :
  extPatternTest s = true -> Js.includes Js.bslash s = true.
Proof.
  induction s as [|c s IH]; [discriminate|].
  intros H. change (extPatternTest (String c s))
    with (extPatternHere (String c s) || extPatternTest s) in H.
  apply orb_true_iff in H as [H|H].
  - now apply extPatternHere_backslash.
  - simpl. rewrite (IH H). apply orb_true_r.
Qed.

(** The extension branch of [isLikelyFileQuery] is dead: a query is
    taken for a file exactly when it has a separator. *)
Lemma isLikelyFileQuery_spec (q : string) :
  isLikelyFileQuery q
  = negb (bool_decide (Js.trim q = EmptyString)) && negb (Js.hasSpace (Js.trim q))
    && (Js.includes "/"%char (Js.trim q) || Js.includes Js.bslash (Js.trim q)).
Proof.
  unfold isLikelyFileQuery.
  destruct (bool_decide (Js.trim q = EmptyString)); [reflexivity|].
  destruct (Js.hasSpace (Js.trim q)); [reflexivity|]. simpl.
  destruct (Js.includes "/"%char (Js.trim q)); [reflexivity|]. simpl.
  destruct (Js.includes Js.bslash (Js.trim q)) eqn:E; [reflexivity|].
  destruct (extPatternTest (Js.trim q)) eqn:T; [|reflexivity].
  apply extPatternTest_backslash in T. congruence.
Qed.
End DispatchFacts.

(** No query without a separator is ever taken for a file. *)
Lemma no_separator_no_redirect (q : string) :
  Js.includes "/"%char (Js.trim q) = false ->
  Js.includes Js.bslash (Js.trim q) = false ->
  Dispatch.isLikelyFileQuery q = false.
Proof.
  intros H1 H2. rewrite isLikelyFileQuery_spec, H1, H2.
  now rewrite andb_false_r.
Qed.

(** C10 (as the code behaves): the search call with the query about.md, a
    bare file name with an extension, no white space and no separator, is
    not redirected: [normalizeToolCall] returns it as a search call. *)
Theorem C10_extension_query_not_redirected :
  let call := Dispatch.mkCall "search"
                (Dispatch.mkArgs (Some "about.md") None None None []) in
  Dispatch.looksLikeFile "about.md" = true
  /\ Dispatch.isLikelyFileQuery "about.md" = false
  /\ Dispatch.normalizeToolCall call = call.
Proof. vm_compute. repeat split; reflexivity. Qed.

(** The scenario of the specification: one line replaced in the middle. *)
Example diff_scenario :
  Diff.buildUnifiedDiff ("a" +:+ Diff.NL +:+ "b" +:+ Diff.NL +:+ "c")
                        ("a" +:+ Diff.NL +:+ "x" +:+ Diff.NL +:+ "c") Diff.noOptions
  = Js.join Diff.NL ["@@ -1,3 +1,3 @@"; " a"; "-b"; "+x"; " c"].
Proof. vm_compute. reflexivity. Qed.

Section DiffFacts.
Import Diff.

Lemma commonPrefix_refl (l : list string) : commonPrefix l l = length l.
Proof.
  induction l as [|x l IH]; simpl; [reflexivity|].
  rewrite bool_decide_eq_true_2 by reflexivity. now rewrite IH.
Qed.

(** Two equal line arrays have an empty middle region: every op is a
    context op. *)
Lemma diffOps_refl (l : list string) : diffOps l l = map (mkOp context) l.
Proof.
  unfold diffOps. rewrite commonPrefix_refl, drop_all, firstn_all. simpl.
  now rewrite app_nil_r.
Qed.

Lemma midSize_refl (l : list string) : midSize l l = 0.
Proof. unfold midSize. now rewrite commonPrefix_refl, drop_all. Qed.

Lemma changeIndexes_context (l : list string) : forall idx a b,
  changeIndexesFrom idx (number (map (mkOp context) l) a b) = [].
Proof.
  induction l as [|x l IH]; intros idx a b; simpl; [reflexivity|].
  apply IH.
Qed.

Lemma maxCellsOf_pos (o : Options) : 0 < maxCellsOf o.
Proof. unfold maxCellsOf. destruct (optMaxCells o); lia. Qed.

End DiffFacts.

(** C6: the diff of a text with itself is the empty text, for every text
    and every options object; in particular for the empty text. *)
Theorem C6_diff_idempotence (x : string) (options : Diff.Options) :
  Diff.buildUnifiedDiff x x options = EmptyString.
Proof.
  unfold Diff.buildUnifiedDiff.
  destruct (Diff.splitLines x) as [|l0 l] eqn:E; [reflexivity|].
  rewrite midSize_refl.
  rewrite bool_decide_eq_false_2 by (pose proof (maxCellsOf_pos options); lia).
  rewrite diffOps_refl, changeIndexes_context. reflexivity.
Qed.




Lemma append_assoc (a b c : string) : (a +:+ b) +:+ c = a +:+ (b +:+ c).
Proof.
  induction a as [|x a IH]; [reflexivity|].
  change (String x ((a +:+ b) +:+ c) = String x (a +:+ (b +:+ c))).
  f_equal. exact IH.
Qed.

Section LedgerFacts.
Import Ledger.
Variable h : Host.

(** Registering a non-empty change under a fresh id stores it under that
    id and leaves the files alone, also when the oldest change is evicted. *)
Lemma register_spec (stamp : string) (change : list RevertFile) (w : World) :
  change <> [] ->
  "revert_" +:+ stamp ∉ revertOrder w ->
  (registerRevertChange stamp change w).1 = "revert_" +:+ stamp
  /\ files (registerRevertChange stamp change w).2 = files w
  /\ revertChanges (registerRevertChange stamp change w).2 !! ("revert_" +:+ stamp)
     = Some change.
Proof.
  intros Hne Hfresh. unfold registerRevertChange.
  destruct change as [|f change]; [congruence|].
  set (id := "revert_" +:+ stamp) in *.
  destruct (bool_decide (MAX_REVERTS < length (revertOrder w ++ [id]))%nat) eqn:Hfull;
    [|simpl; rewrite lookup_insert_eq; auto].
  destruct (revertOrder w) as [|oldest rest] eqn:Horder.
  - vm_compute in Hfull. discriminate.
  - simpl. assert (oldest <> id) by (intros ->; apply Hfresh; left).
    destruct (bool_decide (oldest = EmptyString)); simpl.
    + rewrite lookup_insert_eq. auto.
    + rewrite lookup_delete_ne by assumption. rewrite lookup_insert_eq. auto.
Qed.

Lemma register_files (stamp : string) (change : list RevertFile) (w : World) :
  files (registerRevertChange stamp change w).2 = files w.
Proof.
  unfold registerRevertChange. destruct change; [reflexivity|].
  destruct (bool_decide _); [|reflexivity].
  destruct (revertOrder w ++ _); reflexivity.
Qed.

Lemma revertFile_at (fs : gmap string string) (results : list string) (f : RevertFile) :
  path f <> EmptyString ->
  (revertFile h (fs, results) f).1 !! path f
  = if existed f then Some (content f) else None.
Proof.
  intros Hp. unfold revertFile.
  rewrite bool_decide_eq_false_2 by assumption.
  destruct (existed f); simpl.
  - apply lookup_insert_eq.
  - destruct (fs !! path f) eqn:E; simpl; [apply lookup_delete_eq|exact E].
Qed.

Lemma revertFile_other (fs : gmap string string) (results : list string)
    (f : RevertFile) (p : string) :
  p <> path f -> (revertFile h (fs, results) f).1 !! p = fs !! p.
Proof.
  intros Hp. unfold revertFile.
  destruct (bool_decide (path f = EmptyString)); [reflexivity|].
  destruct (existed f); simpl.
  - now apply lookup_insert_ne.
  - destruct (fs !! path f); simpl; [now apply lookup_delete_ne|reflexivity].
Qed.

Lemma revertFiles_other (change : list RevertFile) : forall st p,
  p ∉ map path change -> (foldl (revertFile h) st change).1 !! p = st.1 !! p.
Proof.
  induction change as [|f change IH]; intros [fs results] p Hp; [reflexivity|].
  simpl. rewrite IH.
  - apply revertFile_other. intros ->. apply Hp. simpl. left.
  - intros Hin. apply Hp. simpl. now right.
Qed.

(** After the loop of [revertChange] every entry with a path holds: a file
    that existed has its saved content, a file that did not is absent. *)
Lemma revertFiles_exact (change : list RevertFile) : forall st f,
  NoDup (map path change) -> f ∈ change -> path f <> EmptyString ->
  (foldl (revertFile h) st change).1 !! path f
  = if existed f then Some (content f) else None.
Proof.
  induction change as [|g change IH]; intros [fs results] f Hnd Hin Hp.
  - inversion Hin.
  - simpl in Hnd. apply NoDup_cons in Hnd as [Hg Hnd].
    apply elem_of_cons in Hin as [->|Hin].
    + simpl. rewrite revertFiles_other by exact Hg.
      now apply revertFile_at.
    + simpl. now apply IH.
Qed.

Lemma revertChange_files (id : string) (w : World) (change : list RevertFile) :
  Js.trim id <> EmptyString ->
  revertChanges w !! Js.trim id = Some change ->
  files (revertChange h id w).2 = (foldl (revertFile h) (files w, []) change).1
  /\ revertChanges (revertChange h id w).2 = delete (Js.trim id) (revertChanges w).
Proof.
  intros Hid Hch. unfold revertChange.
  rewrite bool_decide_eq_false_2 by assumption. rewrite Hch.
  destruct (foldl (revertFile h) (files w, []) change) as [fs results].
  split; reflexivity.
Qed.
End LedgerFacts.

Section ToolFacts.
Import Ledger.
Variable h : Host.

Lemma snd_let {A B C : Type} (x : A * B) (f : A -> C) :
  (let (a, b) := x in (f a, b)).2 = x.2.
Proof. destruct x; reflexivity. Qed.

Lemma toolEditFile_outcome (a : EditArgs) (approved accepted : bool) (stamp : string)
    (w : World) :
  outcome (resolveWorkspacePathForTool h (editPath a)) stamp w
          (toolEditFile h a approved accepted stamp w).2.
Proof.
  unfold toolEditFile, outcome.
  destruct (bool_decide (resolveWorkspacePathForTool h (editPath a) = EmptyString));
    [left; reflexivity|].
  destruct (editStartLine a) as [s|]; [|left; reflexivity].
  destruct (editEndLine a) as [e|]; [|left; reflexivity].
  destruct (e <? s); [left; reflexivity|].
  destruct (files w !! resolveWorkspacePathForTool h (editPath a)) as [before|] eqn:Hb;
    [|left; reflexivity].
  cbv zeta.
  destruct approved; [|left; reflexivity].
  destruct accepted; [|left; reflexivity].
  cbn [negb]. right. rewrite snd_let.
  eexists before, _. split; [reflexivity|]. split; [|reflexivity].
  intros q Hq. now apply lookup_insert_ne.
Qed.

Lemma toolInsertText_outcome (a : InsertArgs) (approved accepted : bool) (stamp : string)
    (w : World) :
  outcome (resolveWorkspacePathForTool h (insertPath a)) stamp w
          (toolInsertText h a approved accepted stamp w).2.
Proof.
  unfold toolInsertText, outcome.
  destruct (bool_decide (resolveWorkspacePathForTool h (insertPath a) = EmptyString));
    [left; reflexivity|].
  destruct (insertLine a) as [l|]; [|left; reflexivity].
  destruct (insertCharacter a) as [c|]; [|left; reflexivity].
  destruct (files w !! resolveWorkspacePathForTool h (insertPath a)) as [before|] eqn:Hb;
    [|left; reflexivity].
  cbv zeta.
  destruct approved; [|left; reflexivity].
  destruct accepted; [|left; reflexivity].
  cbn [negb]. right. rewrite snd_let.
  eexists before, _. split; [reflexivity|]. split; [|reflexivity].
  intros q Hq. now apply lookup_insert_ne.
Qed.

Lemma toolReplaceRange_outcome (a : ReplaceArgs) (approved accepted : bool)
    (stamp : string) (w : World) :
  outcome (resolveWorkspacePathForTool h (replacePath a)) stamp w
          (toolReplaceRange h a approved accepted stamp w).2.
Proof.
  unfold toolReplaceRange, outcome.
  destruct (bool_decide (resolveWorkspacePathForTool h (replacePath a) = EmptyString));
    [left; reflexivity|].
  destruct (replaceStartLine a) as [sl|]; [|left; reflexivity].
  destruct (replaceStartChar a) as [sc|]; [|left; reflexivity].
  destruct (replaceEndLine a) as [el|]; [|left; reflexivity].
  destruct (replaceEndChar a) as [ec|]; [|left; reflexivity].
  destruct (files w !! resolveWorkspacePathForTool h (replacePath a)) as [before|] eqn:Hb;
    [|left; reflexivity].
  cbv zeta.
  destruct (isBefore _ _); [left; reflexivity|].
  destruct approved; [|left; reflexivity].
  destruct accepted; [|left; reflexivity].
  cbn [negb]. right. rewrite snd_let.
  eexists before, _. split; [reflexivity|]. split; [|reflexivity].
  intros q Hq. now apply lookup_insert_ne.
Qed.

Lemma toolDeleteFile_outcome (filePath : string) (approved : bool) (stamp : string)
    (w : World) :
  outcome (resolveWorkspacePathForTool h filePath) stamp w
          (toolDeleteFile h filePath approved stamp w).2.
Proof.
  unfold toolDeleteFile, outcome.
  destruct (bool_decide (resolveWorkspacePathForTool h filePath = EmptyString));
    [left; reflexivity|].
  destruct (files w !! resolveWorkspacePathForTool h filePath) as [before|] eqn:Hb;
    [|left; reflexivity].
  destruct approved; [|left; reflexivity].
  cbn [negb]. cbv zeta. right. rewrite snd_let.
  eexists before, _. split; [reflexivity|]. split; [|reflexivity].
  intros q Hq. now apply lookup_delete_ne.
Qed.

(** [toolApplyPatch] either leaves the world alone or registers the
    snapshots taken before the patch was applied. *)
Lemma toolApplyPatch_outcome (patchText rawCwd : string) (approved : bool)
    (stamp : string) (w : World) :
  let w' := (toolApplyPatch h patchText rawCwd approved stamp w).2 in
  w' = w
  \/ exists fs,
       w' = (registerRevertChange stamp
               (map (snapshot w) (patchTargets h (Js.trim patchText) (cwdOf h rawCwd)))
               (mkWorld fs (revertChanges w) (revertOrder w))).2.
Proof.
  unfold toolApplyPatch.
  destruct (bool_decide (Js.trim patchText = EmptyString)); [left; reflexivity|].
  destruct (bool_decide (cwdOf h rawCwd = EmptyString)); [left; reflexivity|].
  destruct approved; [|left; reflexivity].
  cbn [negb]. cbv zeta.
  destruct (applyPatch h (Js.trim patchText) (cwdOf h rawCwd) (files w)) as [output [fs|]];
    [|left; reflexivity].
  right. exists fs. now rewrite snd_let.
Qed.

Lemma one_file_outcome (r : Request) (stamp : string) (w : World) :
  editsOneFile r = true ->
  exists p, recorded h r = [p] /\ outcome p stamp w (runMutating h r stamp w).2.
Proof.
  destruct r; try discriminate; intros _; simpl; eexists; (split; [reflexivity|]).
  - apply toolEditFile_outcome.
  - apply toolInsertText_outcome.
  - apply toolReplaceRange_outcome.
  - apply toolDeleteFile_outcome.
Qed.

Lemma snapshot_existing (w : World) (p before : string) :
  files w !! p = Some before -> snapshot w p = mkFile p true before.
Proof. intros H. unfold snapshot. now rewrite H. Qed.

Lemma no_register_ledger (r : Request) (stamp : string) (w : World) :
  registersNothing r = true ->
  revertChanges (runMutating h r stamp w).2 = revertChanges w
  /\ revertOrder (runMutating h r stamp w).2 = revertOrder w.
Proof.
  destruct r; try discriminate; intros _; simpl.
  - unfold toolCopyFile.
    repeat match goal with
           | |- context [if ?b then _ else _] => destruct b
           | |- context [match files w !! ?p with _ => _ end] => destruct (files w !! p)
           end; split; reflexivity.
  - unfold toolCreateDir.
    repeat match goal with
           | |- context [if ?b then _ else _] => destruct b
           end; split; reflexivity.
  - unfold toolMoveFile.
    repeat match goal with
           | |- context [if ?b then _ else _] => destruct b
           | |- context [match files w !! ?p with _ => _ end] => destruct (files w !! p)
           end; split; reflexivity.
  - unfold toolRunCommand.
    destruct (bool_decide (Js.trim (commandText a) = EmptyString)); [split; reflexivity|].
    destruct (bool_decide (cwdOf h (commandCwd a) = EmptyString)); [split; reflexivity|].
    cbv zeta. destruct approved; [|split; reflexivity]. cbn [negb].
    destruct (shell h _ _ _ _); split; reflexivity.
  - unfold toolRenameApply.
    destruct (bool_decide (Js.trim (renameNewName a) = EmptyString)); [split; reflexivity|].
    destruct (bool_decide (resolveWorkspacePathForTool h (renameUri a) = EmptyString));
      [split; reflexivity|].
    cbv zeta. destruct (renameEdit h _ _ _ _ _); [|split; reflexivity].
    destruct approved, accepted; split; reflexivity.
Qed.

(** [toolWriteFile] never registers a change, whatever it writes. *)
Lemma toolWriteFile_no_register (a : WriteArgs) (approved : bool) (stamp : string)
    (w : World) :
  revertChanges (toolWriteFile h a approved stamp w).2 = revertChanges w
  /\ revertOrder (toolWriteFile h a approved stamp w).2 = revertOrder w.
Proof.
  unfold toolWriteFile.
  repeat match goal with
         | |- context [if ?b then _ else _] => destruct b
         end; split; reflexivity.
Qed.
End ToolFacts.

(** C3, the claim as stated fails: an approved [move_file] moves the file
    and registers nothing; the ledger is as empty as before. *)
Lemma C3_move_registers_nothing :
  let r := Ledger.toolMoveFile Ledger.demoHost
             (Ledger.mkMoveArgs "a.txt" "b.txt" false) true Ledger.demoWorld in
  r.1 = "Moved a.txt → b.txt."
  /\ Ledger.files r.2 !! "/ws/a.txt" = None
  /\ Ledger.files r.2 !! "/ws/b.txt" = Some "A"
  /\ Ledger.revertChanges r.2 = ∅
  /\ Ledger.revertOrder r.2 = [].
Proof. vm_compute. repeat split; reflexivity. Qed.

(** C3 (amended): [edit_file], [insert_text], [replace_range],
    [delete_file] and [apply_patch] register, when they change the files,
    a change that holds for every path they recorded before committing
    whether it existed and its prior content (no file and the empty text
    for a file the patch creates); the four one-file tools touch no other
    path. [copy_file], [move_file], [create_dir], [run_command] and
    [rename_apply] leave the ledger as it was. *)
Theorem C3_snapshot_protocol (h : Ledger.Host) (r : Ledger.Request) (stamp : string)
    (w : Ledger.World) :
  "revert_" +:+ stamp ∉ Ledger.revertOrder w ->
  let w' := (Ledger.runMutating h r stamp w).2 in
  (Ledger.registers r = true -> Ledger.files w' <> Ledger.files w ->
   Ledger.recorded h r <> [] ->
   Ledger.revertChanges w' !! ("revert_" +:+ stamp)
   = Some (map (Ledger.snapshot w) (Ledger.recorded h r)))
  /\ (Ledger.editsOneFile r = true ->
      forall q, q ∉ Ledger.recorded h r -> Ledger.files w' !! q = Ledger.files w !! q)
  /\ (Ledger.registersNothing r = true ->
      Ledger.revertChanges w' = Ledger.revertChanges w
      /\ Ledger.revertOrder w' = Ledger.revertOrder w).
Proof.
  intros Hfresh w'. split; [|split].
  - intros Hreg Hchanged Hrec.
    destruct (Ledger.editsOneFile r) eqn:Hone.
    + destruct (one_file_outcome h r stamp w Hone) as (p & Hp & [Hw|Hw]).
      * exfalso. apply Hchanged. subst w'. now rewrite Hw.
      * destruct Hw as (before & fs & Hb & _ & Hw). subst w'. rewrite Hw, Hp.
        simpl. rewrite (snapshot_existing w p before Hb).
        unfold Ledger.committed. now apply register_spec.
    + destruct r; try discriminate. subst w'. simpl in *.
      destruct (toolApplyPatch_outcome h patchText rawCwd approved stamp w) as [Hw|[fs Hw]].
      * exfalso. apply Hchanged. now rewrite Hw.
      * rewrite Hw. apply register_spec; [|exact Hfresh].
        intros E. apply Hrec. now apply map_eq_nil in E.
  - intros Hone q Hq.
    destruct (one_file_outcome h r stamp w Hone) as (p & Hp & [Hw|Hw]).
    + subst w'. now rewrite Hw.
    + destruct Hw as (before & fs & _ & Hframe & Hw). subst w'. rewrite Hw.
      unfold Ledger.committed. rewrite register_files. simpl. apply Hframe.
      intros ->. apply Hq. rewrite Hp. left.
  - intros Hnone. now apply no_register_ledger.
Qed.

Lemma C3_snapshot_protocol_witness :
  Ledger.revertChanges
    (Ledger.runMutating Ledger.demoHost
       (Ledger.EditFile (Ledger.mkEditArgs "a.txt" (Some 1) (Some 1) "B") true true)
       "17_ab" Ledger.demoWorld).2 !! "revert_17_ab"
  = Some [Ledger.mkFile "/ws/a.txt" true "A"].
Proof.
  assert (Hfresh : "revert_" +:+ "17_ab" ∉ Ledger.revertOrder Ledger.demoWorld).
  { vm_compute. apply not_elem_of_nil. }
  destruct (C3_snapshot_protocol Ledger.demoHost
              (Ledger.EditFile (Ledger.mkEditArgs "a.txt" (Some 1) (Some 1) "B") true true)
              "17_ab" Ledger.demoWorld Hfresh) as [Hsnap _].
  apply Hsnap.
  - reflexivity.
  - intros E. apply (f_equal (fun m => m !! "/ws/a.txt")) in E.
    vm_compute in E. discriminate.
  - vm_compute. discriminate.
Defined.

(** C7: an applied [edit_file] on an existing file returns a result that
    ends with the tag of its revert id R; reverting R gives back the files
    as they were before the edit, the edited file with exactly the text
    it had, and consumes the entry. And reverting any change of the ledger
    settles each of its entries: a file that existed before has exactly the
    saved content again, a file that did not exist before (a create) is
    deleted; the change is consumed. *)
Theorem C7_revert_exactness (h : Ledger.Host) (a : Ledger.EditArgs) (s e : Z)
    (stamp before : string) (w : Ledger.World)
    (id : string) (wc : Ledger.World) (change : list Ledger.RevertFile)
    (f : Ledger.RevertFile) :
  let fullPath := Ledger.resolveWorkspacePathForTool h (Ledger.editPath a) in
  let R := "revert_" +:+ stamp in
  fullPath <> EmptyString ->
  Ledger.editStartLine a = Some s -> Ledger.editEndLine a = Some e -> s <= e ->
  Ledger.files w !! fullPath = Some before ->
  Js.trim R = R -> R ∉ Ledger.revertOrder w ->
  Js.trim id <> EmptyString ->
  Ledger.revertChanges wc !! Js.trim id = Some change ->
  NoDup (map Ledger.path change) ->
  f ∈ change -> Ledger.path f <> EmptyString ->
  (let edited := Ledger.toolEditFile h a true true stamp w in
   let reverted := Ledger.revertChange h R edited.2 in
   (exists pre, edited.1 = pre +:+ Ledger.formatRevertTag R)
   /\ Ledger.revertChanges edited.2 !! R = Some [Ledger.mkFile fullPath true before]
   /\ Ledger.files reverted.2 !! fullPath = Some before
   /\ Ledger.files reverted.2 = Ledger.files w
   /\ Ledger.revertChanges reverted.2 !! R = None)
  /\ Ledger.files (Ledger.revertChange h id wc).2 !! Ledger.path f
     = (if Ledger.existed f then Some (Ledger.content f) else None)
  /\ Ledger.revertChanges (Ledger.revertChange h id wc).2 !! Js.trim id = None.
Proof.
  intros fullPath R Hpath Hs He Hse Hb Htrim Hfresh Hid Hch Hnd Hin Hfp.
  split.
  - assert (HR : R <> EmptyString) by (subst R; discriminate).
    unfold Ledger.toolEditFile. fold fullPath.
    rewrite bool_decide_eq_false_2 by exact Hpath.
    rewrite Hs, He.
    replace (e <? s) with false by (symmetry; apply Z.ltb_ge; exact Hse).
    rewrite Hb. cbv zeta. cbn [negb].
    match goal with
    | |- context [Ledger.registerRevertChange stamp ?c ?w1] =>
        pose proof (register_spec stamp c w1 ltac:(discriminate) Hfresh) as (Hid1 & Hf1 & Hc1);
        destruct (Ledger.registerRevertChange stamp c w1) as [rid w2] eqn:Hreg
    end.
    simpl in Hid1, Hf1, Hc1. subst rid. cbn [fst snd].
    split; [eexists; rewrite <- !append_assoc; reflexivity|].
    split; [exact Hc1|].
    assert (Htrim' : Js.trim R <> EmptyString) by (rewrite Htrim; exact HR).
    assert (Hc1' : Ledger.revertChanges w2 !! Js.trim R
                   = Some [Ledger.mkFile fullPath true before])
      by (rewrite Htrim; exact Hc1).
    destruct (revertChange_files h R w2 _ Htrim' Hc1') as [Hfiles Hchanges].
    assert (Hrestored : Ledger.files (Ledger.revertChange h R w2).2
                        = <[fullPath := before]> (Ledger.files w2)).
    { rewrite Hfiles. simpl. unfold Ledger.revertFile. simpl.
      now rewrite bool_decide_eq_false_2 by exact Hpath. }
    split; [rewrite Hrestored; apply lookup_insert_eq|].
    split.
    + rewrite Hrestored, Hf1. simpl. rewrite insert_insert_eq.
      now apply insert_id.
    + rewrite Hchanges, Htrim. apply lookup_delete_eq.
  - destruct (revertChange_files h id wc change Hid Hch) as [Hfiles Hchanges].
    rewrite Hfiles, Hchanges. split; [|apply lookup_delete_eq].
    now apply revertFiles_exact.
Qed.

Lemma C7_revert_exactness_witness :
  let edited := Ledger.toolEditFile Ledger.demoHost
                  (Ledger.mkEditArgs "a.txt" (Some 1) (Some 1) "B") true true "17_ab"
                  Ledger.demoWorld in
  let created := Ledger.mkWorld {[ "/ws/new.txt" := "N" ]}
                   {[ "revert_9_c" := [Ledger.mkFile "/ws/new.txt" false EmptyString] ]}
                   ["revert_9_c"] in
  Ledger.files edited.2 !! "/ws/a.txt" = Some "B"
  /\ Ledger.files (Ledger.revertChange Ledger.demoHost "revert_17_ab" edited.2).2
       !! "/ws/a.txt" = Some "A"
  /\ Ledger.files (Ledger.revertChange Ledger.demoHost "revert_9_c" created).2
       !! "/ws/new.txt" = None.
Proof.
  intros edited created.
  assert (Hnd : NoDup (map Ledger.path [Ledger.mkFile "/ws/new.txt" false EmptyString])).
  { repeat constructor. vm_compute. apply not_elem_of_nil. }
  assert (Hfresh : "revert_" +:+ "17_ab" ∉ Ledger.revertOrder Ledger.demoWorld).
  { vm_compute. apply not_elem_of_nil. }
  assert (Hchange : Ledger.revertChanges created !! Js.trim "revert_9_c"
                    = Some [Ledger.mkFile "/ws/new.txt" false EmptyString]).
  { vm_compute. reflexivity. }
  destruct (C7_revert_exactness Ledger.demoHost
              (Ledger.mkEditArgs "a.txt" (Some 1) (Some 1) "B") 1 1 "17_ab" "A"
              Ledger.demoWorld "revert_9_c" created
              [Ledger.mkFile "/ws/new.txt" false EmptyString]
              (Ledger.mkFile "/ws/new.txt" false EmptyString)
              ltac:(vm_compute; discriminate) eq_refl eq_refl ltac:(lia)
              ltac:(vm_compute; reflexivity) ltac:(vm_compute; reflexivity) Hfresh
              ltac:(vm_compute; discriminate) Hchange Hnd
              ltac:(apply list_elem_of_here) ltac:(vm_compute; discriminate))
    as [(_ & _ & Hrestored & _ & _) [Hremoved _]].
  split; [vm_compute; reflexivity|].
  split; [exact Hrestored|exact Hremoved].
Defined.

(** Projections of a rebuilt loop state. *)
Ltac state_simpl :=
  cbn [Agent.uiMessages Agent.modelMessages Agent.todos Agent.lastBareTodoSignature
       Agent.bareTodoRepeatCount Agent.lastCommandSignature
       Agent.sawMutationSinceCommand Agent.mutationSinceProblems Agent.world
       Agent.events Agent.withUi Agent.withModel Agent.withResult
       Agent.applyTodoUpdate Agent.clearProblemsFlag
       Agent.exit Agent.state Agent.continuation fst snd andb negb orb].

Section DedupFacts.
Import Agent.
Context {W : Type}.
Variable env : Env W.

Lemma normalize_not_search (c : ToolCall) :
  tool c <> "search" -> normalizeToolCall c = mkCall (tool c) (args c).
Proof.
  intros H. unfold normalizeToolCall. now rewrite bool_decide_eq_false_2 by exact H.
Qed.

Lemma normalize_tool (c : ToolCall) :
  tool (normalizeToolCall c) = tool c \/ tool (normalizeToolCall c) = "locate_file".
Proof.
  unfold normalizeToolCall.
  destruct (bool_decide (tool c = "search")); [|now left].
  destruct (isLikelyFileQuery _); [now right|now left].
Qed.

Lemma normalize_not_mutating (c : ToolCall) :
  tool c ∉ mutatingTools -> tool (normalizeToolCall c) ∉ mutatingTools.
Proof.
  intros H. destruct (normalize_tool c) as [->| ->]; [exact H|].
  unfold mutatingTools. intros Hin.
  repeat (apply elem_of_cons in Hin as [Hin|Hin]; [discriminate|]).
  inversion Hin.
Qed.

(** After a [run_command] call, skipped or run, its signature is the last
    one and no mutation has been seen since. *)
Lemma execCall_run_command (acc : LoopState W * bool * bool) (c : ToolCall) :
  tool c = "run_command" ->
  lastCommandSignature (execCall env acc c).1.1 = Some (signatureOf c)
  /\ sawMutationSinceCommand (execCall env acc c).1.1 = false.
Proof.
  intros Ht. destruct acc as [[st dm] dv]. unfold execCall.
  rewrite normalize_not_search by (rewrite Ht; discriminate).
  cbn [tool args]. rewrite Ht.
  rewrite (bool_decide_eq_true_2 ("run_command" = "run_command")) by reflexivity.
  state_simpl.
  destruct (bool_decide (lastCommandSignature st = Some _)) eqn:Hsig;
    destruct (sawMutationSinceCommand st) eqn:Hsaw; state_simpl.
  - destruct (runToolCall env _ _); state_simpl; split; reflexivity.
  - apply bool_decide_eq_true in Hsig. split; [exact Hsig|reflexivity].
  - destruct (runToolCall env _ _); state_simpl; split; reflexivity.
  - destruct (runToolCall env _ _); state_simpl; split; reflexivity.
Qed.

(** A call outside the mutating tools changes neither variable. *)
Lemma execCall_other (acc : LoopState W * bool * bool) (c : ToolCall) :
  tool c ∉ mutatingTools ->
  lastCommandSignature (execCall env acc c).1.1 = lastCommandSignature acc.1.1
  /\ sawMutationSinceCommand (execCall env acc c).1.1 = sawMutationSinceCommand acc.1.1.
Proof.
  intros Ht. destruct acc as [[st dm] dv]. unfold execCall.
  pose proof (normalize_not_mutating c Ht) as Hn.
  set (n := normalizeToolCall c) in *.
  assert (Hrc : tool n <> "run_command").
  { intros E. apply Hn. rewrite E. vm_compute. repeat constructor. }
  rewrite (bool_decide_eq_false_2 (tool n = "run_command")) by exact Hrc.
  rewrite (bool_decide_eq_false_2 (tool n ∈ mutatingTools)) by exact Hn.
  destruct (runToolCall env n _). state_simpl. split; [reflexivity|apply orb_false_r].
Qed.

Lemma execCalls_others (mid : list ToolCall) : forall acc,
  (forall c, c ∈ mid -> tool c ∉ mutatingTools) ->
  lastCommandSignature (execCalls env acc mid).1.1 = lastCommandSignature acc.1.1
  /\ sawMutationSinceCommand (execCalls env acc mid).1.1 = sawMutationSinceCommand acc.1.1.
Proof.
  induction mid as [|c mid IH]; intros acc Hmid; [split; reflexivity|].
  simpl. destruct (IH (execCall env acc c)) as [H1 H2].
  { intros d Hd. apply Hmid. now right. }
  destruct (execCall_other acc c) as [H3 H4]; [apply Hmid; left|].
  unfold execCalls in *. rewrite H1, H2. auto.
Qed.

(** A [run_command] call whose signature is the last one, with no
    mutation seen since, is skipped. *)
Lemma execCall_skips (acc : LoopState W * bool * bool) (c : ToolCall) :
  tool c = "run_command" ->
  lastCommandSignature acc.1.1 = Some (signatureOf c) ->
  sawMutationSinceCommand acc.1.1 = false ->
  let skipResult := formatToolResultForUi "run_command" skippedText in
  world (execCall env acc c).1.1 = world acc.1.1
  /\ events (execCall env acc c).1.1 = events acc.1.1 ++ [CommandSkipped c]
  /\ uiMessages (execCall env acc c).1.1
     = uiMessages acc.1.1 ++ [assistant (describeToolCall env c); assistant skipResult]
  /\ modelMessages (execCall env acc c).1.1
     = trimChatMessagesForModel (modelMessages acc.1.1 ++ [user skipResult])
         (historyLimit env).
Proof.
  intros Ht Hsig Hsaw. destruct acc as [[st dm] dv]. cbn [fst] in Hsig, Hsaw.
  assert (Hc : normalizeToolCall c = c).
  { rewrite normalize_not_search by (rewrite Ht; discriminate). now destruct c. }
  unfold execCall. rewrite Hc, Ht.
  rewrite (bool_decide_eq_true_2 ("run_command" = "run_command")) by reflexivity.
  state_simpl.
  rewrite (bool_decide_eq_true_2 _ Hsig), Hsaw. state_simpl.
  rewrite <- app_assoc. repeat split; reflexivity.
Qed.
End DedupFacts.

(** C5: a [run_command] call that follows a [run_command] call with the
    same command, directory and time-out, with only calls outside the
    mutating tools between the two, is not run: the tool runner is not
    called (its state is unchanged and the call is recorded as skipped),
    and the skip message is appended, as the result of the call, to the
    messages shown to the user and to those sent to the model. *)
Theorem C5_command_dedup {W : Type} (env : Agent.Env W)
    (acc : Agent.LoopState W * bool * bool) (c1 c2 : Dispatch.ToolCall)
    (mid : list Dispatch.ToolCall) :
  Dispatch.tool c1 = "run_command" ->
  Dispatch.tool c2 = "run_command" ->
  Agent.signatureOf c1 = Agent.signatureOf c2 ->
  (forall c, c ∈ mid -> Dispatch.tool c ∉ Agent.mutatingTools) ->
  let before := Agent.execCalls env acc (c1 :: mid) in
  let after := Agent.execCall env before c2 in
  let skipResult := Agent.formatToolResultForUi "run_command" Agent.skippedText in
  Agent.world after.1.1 = Agent.world before.1.1
  /\ Agent.events after.1.1 = Agent.events before.1.1 ++ [Agent.CommandSkipped c2]
  /\ Agent.uiMessages after.1.1
     = Agent.uiMessages before.1.1
       ++ [Agent.assistant (Agent.describeToolCall env c2); Agent.assistant skipResult]
  /\ Agent.modelMessages after.1.1
     = Agent.trimChatMessagesForModel
         (Agent.modelMessages before.1.1 ++ [Agent.user skipResult])
         (Agent.historyLimit env).
Proof.
  intros H1 H2 Hsig Hmid before after skipResult.
  destruct (execCall_run_command env acc c1 H1) as [Hlast Hsaw].
  destruct (execCalls_others env mid (Agent.execCall env acc c1) Hmid) as [Hlast' Hsaw'].
  assert (Hb : before = Agent.execCalls env (Agent.execCall env acc c1) mid)
    by reflexivity.
  apply execCall_skips; [exact H2| |].
  - rewrite Hb, Hlast', Hlast. now rewrite Hsig.
  - now rewrite Hb, Hsaw', Hsaw.
Qed.

Section StubFacts.
Import Agent.
Context {W : Type}.
Variable env : Env W.
Variable txt : string.
Variable p : Parsed.
Variable t : list TodoItem.

Hypothesis Hmodel : forall n msgs, callModelForChat env n msgs = txt.
Hypothesis Htxt : Js.trim txt <> EmptyString.
Hypothesis Hparse : parseAgentResponse env txt = Some p.
Hypothesis Hfinal : final p = None.
Hypothesis Hcalls : toolCalls p = None.
Hypothesis Htodo : todo p = Some t.
Hypothesis Hbare : isBareTodoResponse env p txt = true.
Hypothesis Hstop : forall n, stopRequested env n = false.

Lemma modelCalls_snoc (l : list Event) (e : Event) :
  modelCalls (l ++ [e]) = (modelCalls l + if bool_decide (e = ModelCalled) then 1 else 0)%nat.
Proof.
  unfold modelCalls. rewrite filter_app, length_app. f_equal.
  destruct e; reflexivity.
Qed.

Lemma correctives_snoc (l : list Event) (e : Event) :
  correctives (l ++ [e])
  = (correctives l + if bool_decide (e = CorrectiveSent) then 1 else 0)%nat.
Proof.
  unfold correctives. rewrite filter_app, length_app. f_equal.
  destruct e; reflexivity.
Qed.

Lemma trimLoop_keeps (limit : Z) (rev : list Msg) : forall isLast total out,
  out <> [] -> trimLoop limit rev isLast total out <> [].
Proof.
  induction rev as [|m rev IH]; intros isLast total out Hout; simpl; [exact Hout|].
  destruct (isLast && _); [discriminate|].
  destruct (limit <? _); [now apply IH|].
  destruct (limit <=? _); [discriminate|]. apply IH. discriminate.
Qed.

(** The trim never empties a list it was given with a message at its end. *)
Lemma trim_nonempty (l : list Msg) (m : Msg) (limit : Z) :
  trimChatMessagesForModel (l ++ [m]) limit <> [].
Proof.
  unfold trimChatMessagesForModel. rewrite reverse_app. simpl.
  destruct (limit =? 0); [discriminate|].
  cbn [trimLoop andb]. rewrite Z.add_0_l.
  destruct (limit <? Js.strlen (content m)) eqn:E; [discriminate|].
  destruct (limit <=? _); [discriminate|].
  apply trimLoop_keeps. discriminate.
Qed.

Lemma parseResponse_stub : parseResponse env txt = Some p.
Proof.
  unfold parseResponse. rewrite Hparse.
  destruct (Parser.extractTodoFromText (todoOf env) txt) as [[? ?]|]; reflexivity.
Qed.

(** One round on the stub: either the loop goes on, one model call and,
    from the second round on, one corrective instruction later, or no todo
    is pending any more and the turn ends with the completion message. *)
Lemma round_stub (k : nat) (st : LoopState W) :
  StubInv t k st ->
  (exists st', round env k st = inl st' /\ StubInv t (S k) st')
  \/ (exists r, round env k st = inr r
        /\ exit r = Final /\ continuation r = None
        /\ modelCalls (events (state r)) = S k
        /\ correctives (events (state r)) = k
        /\ lastUi (state r) = Some (assistant allDoneText)
        /\ getPendingTodos (todos (state r)) = []).
Proof.
  intros (Hmut & Hcount & Hk).
  unfold round. rewrite Hstop, Hmodel.
  rewrite (bool_decide_eq_false_2 _ Htxt).
  rewrite parseResponse_stub, Hfinal, Hcalls.
  unfold todoOnly, updateTodos. rewrite Htodo, Hbare. state_simpl.
  cbv zeta. cbn [option_map].
  destruct k as [|k'].
  - destruct Hk as [Hsig Hcorr]. rewrite Hsig.
    rewrite (bool_decide_eq_false_2 (Some (normalizeTodoList (map Object t)) = None))
      by discriminate.
    rewrite (bool_decide_eq_false_2 (1 <= 0)%nat) by lia.
    destruct (noPending _) eqn:Hpending; unfold noPending in Hpending;
      state_simpl; [apply bool_decide_eq_true in Hpending
                   |apply bool_decide_eq_false in Hpending].
    + right. unfold finishOrVerify. state_simpl. rewrite Hmut.
      eexists. split; [reflexivity|]. state_simpl.
      rewrite modelCalls_snoc, correctives_snoc, Hcount, Hcorr.
      unfold lastUi. state_simpl. rewrite last_snoc.
      repeat split; try reflexivity. exact Hpending.
    + left. eexists. split; [reflexivity|]. unfold StubInv. state_simpl.
      rewrite modelCalls_snoc, correctives_snoc, Hcount, Hcorr.
      repeat split; try reflexivity; try assumption. apply trim_nonempty.
  - destruct Hk as (Hsig & Hcorr & Hne & _). rewrite Hsig.
    rewrite (bool_decide_eq_true_2
               (Some (normalizeTodoList (map Object t))
                = Some (normalizeTodoList (map Object t)))) by reflexivity.
    rewrite (bool_decide_eq_true_2 (1 <= S (bareTodoRepeatCount st))%nat) by lia.
    destruct (noPending _) eqn:Hpending; unfold noPending in Hpending;
      state_simpl; [apply bool_decide_eq_true in Hpending
                   |apply bool_decide_eq_false in Hpending].
    + right. unfold finishOrVerify. state_simpl. rewrite Hmut.
      eexists. split; [reflexivity|]. state_simpl.
      rewrite !modelCalls_snoc, !correctives_snoc, Hcount, Hcorr.
      unfold lastUi. state_simpl. rewrite last_snoc.
      repeat split; try reflexivity; try exact Hpending; simpl; lia.
    + left. eexists. split; [reflexivity|]. unfold StubInv. state_simpl.
      rewrite !modelCalls_snoc, !correctives_snoc, Hcount, Hcorr.
      repeat split; try reflexivity; try assumption; try (simpl; lia).
      apply trim_nonempty.
Qed.

(** The whole loop on the stub, from a state reached after [k] rounds
    with [fuel] rounds left. *)
Lemma loop_stub (fuel : nat) : forall k st,
  StubInv t k st ->
  let r := loop env fuel k st in
  (exit r = StepLimitReached
   /\ modelCalls (events (state r)) = (k + fuel)%nat
   /\ (1 <= k + fuel -> correctives (events (state r)) = k + fuel - 1
                        /\ continuation r = Some (modelMessages (state r))
                        /\ getPendingTodos (todos (state r)) <> [])%nat
   /\ lastUi (state r) = Some (assistant stepLimitText))
  \/ (exit r = Final /\ continuation r = None
      /\ (k < modelCalls (events (state r)) <= k + fuel)%nat
      /\ correctives (events (state r)) = (modelCalls (events (state r)) - 1)%nat
      /\ lastUi (state r) = Some (assistant allDoneText)
      /\ getPendingTodos (todos (state r)) = []).
Proof.
  induction fuel as [|fuel IH]; intros k st Hinv.
  - left. simpl. destruct Hinv as (Hmut & Hcount & Hk). state_simpl.
    unfold lastUi. state_simpl. rewrite last_snoc.
    split; [reflexivity|]. split; [lia|]. split; [|reflexivity].
    intros Hpos. destruct k as [|k']; [lia|]. destruct Hk as (_ & Hcorr & Hne & Hp).
    split; [lia|]. split; [|exact Hp].
    unfold setAgentContinuation. destruct (modelMessages st); [congruence|reflexivity].
  - simpl. destruct (round_stub k st Hinv)
      as [(st' & Hr & Hinv')|(r & Hr & He & Hc & Hm & Hco & Hl & Hp)].
    + rewrite Hr. destruct (IH (S k) st' Hinv') as [H|H].
      * left. destruct H as (He & Hm & Hco & Hl).
        split; [exact He|]. split; [lia|]. split; [|exact Hl].
        intros _. replace (k + S fuel)%nat with (S k + fuel)%nat by lia.
        apply Hco. lia.
      * right. destruct H as (He & Hc & Hm & Hco & Hl & Hp).
        repeat split; try assumption; lia.
    + rewrite Hr. right. repeat split; try assumption; try lia.
Qed.
End StubFacts.

Lemma C5_command_dedup_witness :
  let npmTest := Dispatch.mkCall "run_command"
                   (Dispatch.mkArgs None (Some "npm test") (Some ".") (Some 60000) []) in
  let readDir := Dispatch.mkCall "read_dir" Dispatch.noArgs in
  let env := Agent.todoStub [] 32000 in
  let idle : Agent.LoopState unit := Agent.mkState [] [] [] None O None false false tt [] in
  Agent.events
    (Agent.execCall env (Agent.execCalls env (idle, false, false) [npmTest; readDir])
       npmTest).1.1
  = Agent.events (Agent.execCalls env (idle, false, false) [npmTest; readDir]).1.1
    ++ [Agent.CommandSkipped npmTest].
Proof.
  intros npmTest readDir env idle.
  apply (C5_command_dedup env (idle, false, false) npmTest npmTest [readDir]).
  - reflexivity.
  - reflexivity.
  - reflexivity.
  - intros c Hc. apply list_elem_of_singleton in Hc. subst c.
    unfold Agent.mutatingTools. simpl. intros Hin.
    repeat (apply elem_of_cons in Hin as [Hin|Hin]; [discriminate|]).
    inversion Hin.
Defined.

(** C2, the claim as stated fails: with the default step budget of six and
    an empty todo list at the start, the stub that keeps sending the same
    pending item makes the loop send the corrective instruction five times
    before it stops at the step limit. *)
Lemma C2_five_correctives :
  let r := Agent.runAgentTurn
             (Agent.todoStub [Todo.mkItem "1" "write the fix" "pending"] 32000)
             (Agent.getAgentMaxSteps None) [Agent.user "please fix the bug"] [] [] tt in
  Todo.getPendingTodos [Todo.mkItem "1" "write the fix" "pending"] <> []
  /\ Agent.exit r = Agent.StepLimitReached
  /\ Agent.modelCalls (Agent.events (Agent.state r)) = 6%nat
  /\ Agent.correctives (Agent.events (Agent.state r)) = 5%nat
  /\ ~ (Agent.correctives (Agent.events (Agent.state r)) <= 1)%nat.
Proof.
  vm_compute. repeat split; try reflexivity; try discriminate.
  intros H. lia.
Qed.

(** C2 (amended): on a model stub that always sends the same bare todo
    list, with nobody asking to stop, the loop ends within the step budget,
    which lies between 1 and 50: either it stops at the step limit, after
    exactly [maxSteps] model calls, with the stop message shown, the model
    messages saved as the continuation and a todo still pending, or no
    todo is pending any more after some round and it ends with the
    completion message, the list of pending todos being empty. It sends
    no corrective instruction after the first response and one after every
    later response, one fewer than there were model calls. *)
Theorem C2_stub_run_terminates {W : Type} (env : Agent.Env W) (txt : string)
    (p : Agent.Parsed) (t : list Todo.TodoItem) (setting : option Z)
    (baseMessages modelMessagesSeed : list Agent.Msg) (todos0 : list Todo.TodoItem)
    (w : W) :
  (forall n msgs, Agent.callModelForChat env n msgs = txt) ->
  Js.trim txt <> EmptyString ->
  Agent.parseAgentResponse env txt = Some p ->
  Agent.final p = None -> Agent.toolCalls p = None -> Agent.todo p = Some t ->
  Agent.isBareTodoResponse env p txt = true ->
  (forall n, Agent.stopRequested env n = false) ->
  let maxSteps := Agent.getAgentMaxSteps setting in
  let r := Agent.runAgentTurn env maxSteps baseMessages modelMessagesSeed todos0 w in
  (1 <= maxSteps <= 50)%nat
  /\ ((Agent.exit r = Agent.StepLimitReached
       /\ Agent.modelCalls (Agent.events (Agent.state r)) = maxSteps
       /\ Agent.correctives (Agent.events (Agent.state r)) = (maxSteps - 1)%nat
       /\ Agent.continuation r = Some (Agent.modelMessages (Agent.state r))
       /\ Agent.lastUi (Agent.state r) = Some (Agent.assistant Agent.stepLimitText)
       /\ Todo.getPendingTodos (Agent.todos (Agent.state r)) <> [])
      \/ (Agent.exit r = Agent.Final
          /\ Agent.continuation r = None
          /\ (1 <= Agent.modelCalls (Agent.events (Agent.state r)) <= maxSteps)%nat
          /\ Agent.correctives (Agent.events (Agent.state r))
             = (Agent.modelCalls (Agent.events (Agent.state r)) - 1)%nat
          /\ Agent.lastUi (Agent.state r) = Some (Agent.assistant Agent.allDoneText)
          /\ Todo.getPendingTodos (Agent.todos (Agent.state r)) = [])).
Proof.
  intros Hmodel Htxt Hparse Hfinal Hcalls Htodo Hbare Hstop maxSteps r.
  assert (Hmax : (1 <= maxSteps <= 50)%nat).
  { subst maxSteps. unfold Agent.getAgentMaxSteps. destruct setting; lia. }
  split; [exact Hmax|]. clearbody maxSteps.
  assert (Hinv : Agent.StubInv t O
            (Agent.mkState baseMessages
               (match modelMessagesSeed with
                | [] => baseMessages
                | _ => modelMessagesSeed
                end) todos0 None O None false false w [])).
  { repeat split; reflexivity. }
  subst r. unfold Agent.runAgentTurn.
  destruct (loop_stub env txt p t Hmodel Htxt Hparse Hfinal Hcalls Htodo Hbare Hstop
              maxSteps O _ Hinv) as [H|H].
  - left. destruct H as (He & Hm & Hco & Hl). rewrite Nat.add_0_l in Hm, Hco.
    assert (Hpos : (1 <= maxSteps)%nat) by lia.
    destruct (Hco Hpos) as (Hc1 & Hc2 & Hc3).
    repeat split; assumption.
  - right. destruct H as (He & Hc & Hm & Hco & Hl & Hp). rewrite Nat.add_0_l in Hm.
    repeat split; try assumption; lia.
Qed.

Lemma C2_stub_run_terminates_witness :
  let r := Agent.runAgentTurn
             (Agent.todoStub [Todo.mkItem "1" "write the fix" "pending"] 32000)
             (Agent.getAgentMaxSteps None) [Agent.user "please fix the bug"] [] [] tt in
  (Agent.exit r = Agent.StepLimitReached
   /\ Agent.modelCalls (Agent.events (Agent.state r)) = 6%nat)
  \/ (Agent.exit r = Agent.Final
      /\ (1 <= Agent.modelCalls (Agent.events (Agent.state r)) <= 6)%nat).
Proof.
  intros r.
  destruct (C2_stub_run_terminates
              (Agent.todoStub [Todo.mkItem "1" "write the fix" "pending"] 32000)
              ("{" +:+ Js.quoted "todo" +:+ ":[...]}")
              (Agent.mkParsed None None
                 (Some [Todo.mkItem "1" "write the fix" "pending"]) EmptyString)
              [Todo.mkItem "1" "write the fix" "pending"] None
              [Agent.user "please fix the bug"] [] [] tt
              ltac:(reflexivity) ltac:(vm_compute; discriminate) ltac:(reflexivity)
              ltac:(reflexivity) ltac:(reflexivity) ltac:(reflexivity)
              ltac:(reflexivity) ltac:(reflexivity))
    as [_ [(He & Hm & _)|(He & _ & Hm & _)]].
  - left. split; [exact He|exact Hm].
  - right. split; [exact He|exact Hm].
Defined.

Section TraceFacts.
Import Agent.
Context {W : Type}.
Variable env : Env W.

Lemma dedupOf_snoc (l : list Event) (e : Event) :
  dedupOf (l ++ [e]) = afterEvent (dedupOf l) e.
Proof. unfold dedupOf. now rewrite foldl_app. Qed.

Lemma consistent_snoc (l : list Event) (e : Event) :
  consistent l -> eventOk (dedupOf l) e -> consistent (l ++ [e]).
Proof.
  intros Hl He pre e' post Heq.
  induction post as [|x post _] using rev_ind.
  - apply app_inj_tail in Heq as [-> ->]. exact He.
  - rewrite app_comm_cons, app_assoc in Heq. apply app_inj_tail in Heq as [Heq _].
    now apply (Hl pre e' post).
Qed.

Lemma tracked_same (st st' : LoopState W) :
  Tracked st ->
  lastCommandSignature st' = lastCommandSignature st ->
  sawMutationSinceCommand st' = sawMutationSinceCommand st ->
  events st' = events st ->
  Tracked st'.
Proof. intros [H1 H2] Ha Hb Hc. unfold Tracked. now rewrite Ha, Hb, Hc. Qed.

(** A model call or a corrective instruction leaves the dedup alone. *)
Lemma tracked_neutral (st st' : LoopState W) (e : Event) :
  Tracked st ->
  e = ModelCalled \/ e = CorrectiveSent ->
  lastCommandSignature st' = lastCommandSignature st ->
  sawMutationSinceCommand st' = sawMutationSinceCommand st ->
  events st' = events st ++ [e] ->
  Tracked st'.
Proof.
  intros [H1 H2] He Ha Hb Hc. unfold Tracked. rewrite Ha, Hb, Hc, dedupOf_snoc.
  split.
  - rewrite H1. now destruct He as [-> | ->].
  - apply consistent_snoc; [exact H2|]. now destruct He as [-> | ->].
Qed.

Lemma tracked_execCall (acc : LoopState W * bool * bool) (c : ToolCall) :
  Tracked acc.1.1 -> Tracked (execCall env acc c).1.1.
Proof.
  destruct acc as [[st dm] dv]. intros [H1 H2]. cbn [fst] in H1, H2.
  unfold execCall. set (n := normalizeToolCall c). state_simpl.
  destruct (bool_decide (tool n = "run_command")) eqn:Hrc.
  - destruct (bool_decide (lastCommandSignature st = Some (signatureOf n))) eqn:Hsig;
      [destruct (sawMutationSinceCommand st) eqn:Hsaw|]; state_simpl.
    + destruct (runToolCall env n (world st)) as [result w]. unfold Tracked. state_simpl.
      rewrite dedupOf_snoc. cbn [afterEvent]. rewrite Hrc.
      split; [reflexivity|]. apply consistent_snoc; [exact H2|].
      intros _. rewrite <- H1. intros E. congruence.
    + apply bool_decide_eq_true in Hsig. apply bool_decide_eq_true in Hrc.
      unfold Tracked. state_simpl. rewrite dedupOf_snoc. cbn [afterEvent].
      split; [exact H1|]. apply consistent_snoc; [exact H2|].
      split; [exact Hrc|]. rewrite <- H1, Hsig. reflexivity.
    + destruct (runToolCall env n (world st)) as [result w]. unfold Tracked. state_simpl.
      rewrite dedupOf_snoc. cbn [afterEvent]. rewrite Hrc.
      split; [reflexivity|]. apply consistent_snoc; [exact H2|].
      intros _. rewrite <- H1. intros E. apply bool_decide_eq_false in Hsig.
      apply Hsig. congruence.
  - destruct (runToolCall env n (world st)) as [result w]. unfold Tracked. state_simpl.
    rewrite dedupOf_snoc. cbn [afterEvent]. rewrite Hrc, <- H1.
    split; [reflexivity|]. apply consistent_snoc; [exact H2|].
    intros E. apply bool_decide_eq_false in Hrc. contradiction.
Qed.

Lemma tracked_execCalls (calls : list ToolCall) : forall acc,
  Tracked acc.1.1 -> Tracked (execCalls env acc calls).1.1.
Proof.
  induction calls as [|c calls IH]; intros acc H; [exact H|].
  simpl. apply IH. now apply tracked_execCall.
Qed.

Lemma tracked_updateTodos (parsed : Parsed) (st : LoopState W) :
  Tracked st -> Tracked (updateTodos env parsed st).
Proof.
  intros H. unfold updateTodos.
  destruct (todo parsed); [now apply (tracked_same st)|].
  destruct (todoSeedCache env); [exact H|now apply (tracked_same st)].
Qed.

Lemma tracked_finishOrVerify (check : bool) (message : string) (st : LoopState W) :
  Tracked st ->
  match finishOrVerify env check message st with
  | inl st' => Tracked st'
  | inr r => Tracked (state r)
  end.
Proof.
  intros H. unfold finishOrVerify.
  destruct (if check then _ else _); now apply (tracked_same st).
Qed.

Lemma tracked_runToolCalls (parsed : Parsed) (calls : list ToolCall) (st : LoopState W) :
  Tracked st -> Tracked (runToolCalls env parsed calls st).
Proof.
  intros H. unfold runToolCalls.
  match goal with
  | |- context [execCalls env (?s, false, false) calls] =>
      assert (H3 : Tracked s);
      [|pose proof (tracked_execCalls calls (s, false, false) H3) as H4;
        destruct (execCalls env (s, false, false) calls) as [[st4 dm] dv]]
  end.
  - destruct (bool_decide (Js.trim (prose parsed) = EmptyString));
      [|apply (tracked_same (updateTodos env parsed
                 (mkState (uiMessages st) (modelMessages st) (todos st) None O
                    (lastCommandSignature st) (sawMutationSinceCommand st)
                    (mutationSinceProblems st) (world st) (events st)))); try reflexivity];
      apply tracked_updateTodos; now apply (tracked_same st).
  - cbn [fst] in H4. destruct (dm && negb dv); [|exact H4].
    destruct (toolReadDir env (world st4)) as [tree w1].
    destruct (toolListFiles env w1) as [files w2].
    now apply (tracked_same st4).
Qed.

Lemma tracked_todoOnly (parsed : Parsed) (assistantText : string) (st : LoopState W) :
  Tracked st ->
  match todoOnly env parsed assistantText st with
  | inl st' => Tracked st'
  | inr r => Tracked (state r)
  end.
Proof.
  intros H. unfold todoOnly.
  pose proof (tracked_updateTodos parsed st H) as H1.
  set (st1 := updateTodos env parsed st) in *.
  destruct (negb _); [now apply tracked_finishOrVerify|].
  cbv zeta.
  match goal with
  | |- context [noPending ?s] =>
      assert (H3 : Tracked s); [|destruct (noPending s);
                                  [now apply tracked_finishOrVerify|exact H3]]
  end.
  destruct (bool_decide (1 <= _)%nat).
  - apply (tracked_neutral st1 _ CorrectiveSent); auto.
  - now apply (tracked_same st1).
Qed.

Lemma tracked_round (k : nat) (st : LoopState W) :
  Tracked st ->
  match round env k st with
  | inl st' => Tracked st'
  | inr r => Tracked (state r)
  end.
Proof.
  intros H. unfold round.
  destruct (stopRequested env k); [now apply (tracked_same st)|].
  cbv zeta.
  match goal with
  | |- context [bool_decide (Js.trim ?t = EmptyString)] => set (assistantText := t)
  end.
  set (st0 := mkState (uiMessages st) (modelMessages st) (todos st)
                (lastBareTodoSignature st) (bareTodoRepeatCount st)
                (lastCommandSignature st) (sawMutationSinceCommand st)
                (mutationSinceProblems st) (world st) (events st ++ [ModelCalled])).
  assert (H0 : Tracked st0) by (apply (tracked_neutral st st0 ModelCalled); auto).
  destruct (bool_decide (Js.trim assistantText = EmptyString)); [now apply (tracked_same st0)|].
  assert (H1 : Tracked (withModel env st0 (assistant assistantText)))
    by now apply (tracked_same st0).
  destruct (parseResponse env assistantText) as [parsed|];
    [|now apply (tracked_same st0)].
  destruct (final parsed) as [[|c f]|].
  - destruct (toolCalls parsed) as [[|call calls]|];
      [now apply tracked_todoOnly|now apply tracked_runToolCalls|now apply tracked_todoOnly].
  - apply tracked_finishOrVerify. now apply tracked_updateTodos.
  - destruct (toolCalls parsed) as [[|call calls]|];
      [now apply tracked_todoOnly|now apply tracked_runToolCalls|now apply tracked_todoOnly].
Qed.

Lemma tracked_loop (fuel : nat) : forall k st,
  Tracked st -> Tracked (state (loop env fuel k st)).
Proof.
  induction fuel as [|fuel IH]; intros k st H; simpl.
  - now apply (tracked_same st).
  - pose proof (tracked_round k st H) as Hr.
    destruct (round env k st) as [st'|r]; [now apply IH|exact Hr].
Qed.

(** The events of a whole turn agree with the dedup rule. *)
Lemma run_consistent (maxSteps : nat) (baseMessages modelMessagesSeed : list Msg)
    (todos0 : list TodoItem) (w : W) :
  consistent
    (events (state (runAgentTurn env maxSteps baseMessages modelMessagesSeed todos0 w))).
Proof.
  unfold runAgentTurn. apply tracked_loop. split; [reflexivity|].
  intros pre e post Heq. destruct pre; discriminate.
Qed.

(** Events other than a mutating tool that ran keep a dedup state with
    the flag down. *)
Lemma dedup_quiet (mid : list Event) : forall sig,
  (forall n, ToolRan n ∈ mid -> tool n ∉ mutatingTools) ->
  foldl afterEvent (Some sig, false) mid = (Some sig, false).
Proof.
  induction mid as [|e mid IH]; intros sig Hmid; [reflexivity|].
  simpl. assert (He : afterEvent (Some sig, false) e = (Some sig, false)).
  { destruct e as [|n|n|]; try reflexivity. simpl.
    assert (Hn : tool n ∉ mutatingTools) by (apply Hmid; left).
    rewrite (bool_decide_eq_false_2 (tool n ∈ mutatingTools)) by exact Hn.
    rewrite bool_decide_eq_false_2; [reflexivity|].
    intros E. apply Hn. rewrite E. unfold mutatingTools.
    do 6 apply list_elem_of_further. apply list_elem_of_here. }
  rewrite He. apply IH. intros n Hn. apply Hmid. now right.
Qed.

(** Command dedup over a whole turn, across the rounds: whenever the
    events of a turn show a [run_command] call, run or skipped, and later a
    second [run_command] call with the same signature, with no mutating
    tool run between the two, the second call was skipped, not run. *)
Theorem dedup_across_rounds (maxSteps : nat) (baseMessages modelMessagesSeed : list Msg)
    (todos0 : list TodoItem) (w : W)
    (pre mid post : list Event) (first second : Event) (c1 c2 : ToolCall) :
  events (state (runAgentTurn env maxSteps baseMessages modelMessagesSeed todos0 w))
  = pre ++ first :: mid ++ second :: post ->
  first = ToolRan c1 \/ first = CommandSkipped c1 ->
  second = ToolRan c2 \/ second = CommandSkipped c2 ->
  tool c1 = "run_command" -> tool c2 = "run_command" ->
  signatureOf c1 = signatureOf c2 ->
  (forall n, ToolRan n ∈ mid -> tool n ∉ mutatingTools) ->
  second = CommandSkipped c2.
Proof.
  intros Hev Hfirst Hsecond H1 H2 Hsig Hmid.
  destruct Hsecond as [->|Hs]; [exfalso|exact Hs].
  pose proof (run_consistent maxSteps baseMessages modelMessagesSeed todos0 w) as Hc.
  rewrite Hev in Hc.
  assert (Hd : dedupOf (pre ++ [first]) = (Some (signatureOf c1), false)).
  { rewrite dedupOf_snoc. destruct Hfirst as [-> | ->]; simpl.
    - now rewrite (bool_decide_eq_true_2 _ H1).
    - apply (Hc pre (CommandSkipped c1) (mid ++ ToolRan c2 :: post) eq_refl). }
  assert (Hok : eventOk (dedupOf ((pre ++ [first]) ++ mid)) (ToolRan c2)).
  { apply (Hc ((pre ++ [first]) ++ mid) (ToolRan c2) post).
    now rewrite <- !app_assoc. }
  unfold dedupOf in Hok, Hd. rewrite foldl_app, Hd, dedup_quiet in Hok by exact Hmid.
  apply (Hok H2). now rewrite Hsig.
Qed.
End TraceFacts.

Section TrimFacts.
Import Js.

Lemma trimEnd_cons (c : ascii) (r : string) :
  trimEnd (String c r)
  = match trimEnd r with
    | EmptyString => if isSpace c then EmptyString else String c EmptyString
    | r' => String c r'
    end.
Proof. reflexivity. Qed.

Lemma trimEnd_idem (s : string) : trimEnd (trimEnd s) = trimEnd s.
Proof.
  induction s as [|c r IH]; [reflexivity|].
  rewrite (trimEnd_cons c r). destruct (trimEnd r) as [|d r'] eqn:E.
  - destruct (isSpace c) eqn:Hc; [reflexivity|].
    rewrite trimEnd_cons. cbn [trimEnd]. now rewrite Hc.
  - rewrite trimEnd_cons, IH. reflexivity.
Qed.

Lemma trimEnd_head (c : ascii) (r : string) :
  isSpace c = false -> exists r', trimEnd (String c r) = String c r'.
Proof.
  intros Hc. cbn [trimEnd]. destruct (trimEnd r); [rewrite Hc|]; eauto.
Qed.

Lemma trimStart_head (s : string) :
  trimStart s = EmptyString
  \/ exists c r, trimStart s = String c r /\ isSpace c = false.
Proof.
  induction s as [|c r IH]; [now left|].
  cbn [trimStart]. destruct (isSpace c) eqn:Hc; [exact IH|]. right. eauto.
Qed.

(** Trimming twice is trimming once. *)
Lemma trim_idem (s : string) : trim (trim s) = trim s.
Proof.
  unfold trim. destruct (trimStart_head s) as [E|(c & r & E & Hc)]; rewrite E.
  - reflexivity.
  - destruct (trimEnd_head c r Hc) as [r' E']. rewrite E'.
    cbn [trimStart]. rewrite Hc, <- E'. apply trimEnd_idem.
Qed.
End TrimFacts.

Section NormalFacts.
Import Todo.










(** The second loop of the merge only appends. *)
Lemma keepDone_prefix (current : list TodoItem) : forall merged,
  exists tail, foldl keepDone merged current = merged ++ tail.
Proof.
  induction current as [|c current IH]; intros merged.
  - exists []. now rewrite app_nil_r.
  - simpl. destruct (IH (keepDone merged c)) as [tail E]. rewrite E.
    unfold keepDone. destruct (negb _); [now exists tail|].
    destruct (existsb _ merged); [now exists tail|].
    exists ([c] ++ tail). now rewrite app_assoc.
Qed.
End NormalFacts.





(** X3: the merge keeps every item of the normalised incoming list at its
    position, with its id and its text, and an incoming item that is done
    is done in the merged list (the item is not done, or the merged one
    is). *)
Theorem mergeTodoLists_keeps_incoming (current incoming : list Todo.Entry)
    (k : nat) (item : Todo.TodoItem) :
  Todo.normalizeTodoList incoming !! k = Some item ->
  exists m, Todo.mergeTodoLists current incoming !! k = Some m
            /\ Todo.id m = Todo.id item /\ Todo.text m = Todo.text item
            /\ (Todo.status item <> "done" \/ Todo.status m = "done").
Proof.
  intros Hk. unfold Todo.mergeTodoLists.
  destruct (Todo.normalizeTodoList incoming) as [|x next] eqn:E; [discriminate|].
  match goal with
  | |- context [foldl Todo.keepDone ?m ?c] =>
      destruct (keepDone_prefix c m) as [tail Ht]; rewrite Ht
  end.
  match goal with
  | |- context [map (Todo.mergeItem ?a ?b) _] =>
      exists (Todo.mergeItem a b item); split
  end.
  - apply lookup_app_l_Some. rewrite list_lookup_fmap, Hk. reflexivity.
  - unfold Todo.mergeItem.
    destruct (decide (Todo.status item = "done")) as [Hd|Hd];
      destruct (match _ !! Todo.id item with Some e => Some e | None => _ end);
      cbn [Todo.id Todo.text Todo.status]; repeat split; try (now left); right;
      try exact Hd.
    rewrite Hd. now rewrite orb_true_r.
Qed.

Lemma mergeTodoLists_keeps_incoming_witness :
  exists m, Todo.mergeTodoLists [Todo.Object (Todo.mkItem "1" "write tests" "pending")]
              [Todo.Object (Todo.mkItem "1" "write tests" "DONE")] !! 0%nat = Some m
            /\ Todo.id m = "1" /\ Todo.text m = "write tests"
            /\ ("done" <> "done" \/ Todo.status m = "done").
Proof.
  apply (mergeTodoLists_keeps_incoming
           [Todo.Object (Todo.mkItem "1" "write tests" "pending")]
           [Todo.Object (Todo.mkItem "1" "write tests" "DONE")] 0
           (Todo.mkItem "1" "write tests" "done")).
  vm_compute. reflexivity.
Defined.


Section SplitFacts.
Import Js Diff.

Lemma splitRegex_nonempty (s : string) : splitRegex s <> [].
Proof.
  destruct s as [|c r]; [discriminate|]. cbn [splitRegex].
  destruct (bool_decide (c = LF)); [discriminate|].
  destruct (bool_decide (c = CR)).
  - destruct r as [|d r']; [destruct (splitRegex EmptyString); discriminate|].
    destruct (bool_decide (d = LF)); [discriminate|].
    destruct (splitRegex (String d r')); discriminate.
  - destruct (splitRegex r); discriminate.
Qed.

Lemma join_cons_append (c : ascii) (h : string) (t : list string) :
  join NL (String c h :: t) = String c (join NL (h :: t)).
Proof. destruct t; reflexivity. Qed.

Lemma join_empty_head (l : list string) :
  l <> [] -> join NL (EmptyString :: l) = String LF (join NL l).
Proof. destruct l; [congruence|reflexivity]. Qed.

Lemma splitRegex_join (s : string) :
  includes CR s = false -> join NL (splitRegex s) = s.
Proof.
  induction s as [|c r IH]; [reflexivity|].
  cbn [includes]. intros H. apply orb_false_iff in H as [Hc Hr].
  apply bool_decide_eq_false in Hc. cbn [splitRegex].
  destruct (bool_decide (c = LF)) eqn:Hlf.
  - apply bool_decide_eq_true in Hlf. subst c.
    rewrite join_empty_head by apply splitRegex_nonempty. now rewrite IH.
  - rewrite (bool_decide_eq_false_2 (c = CR)) by congruence.
    pose proof (splitRegex_nonempty r) as Hne.
    destruct (splitRegex r) as [|h t]; [congruence|].
    rewrite join_cons_append. now rewrite IH.
Qed.

Lemma keep_no_LF (c : ascii) (l : list string) :
  c <> LF -> l <> [] ->
  Forall (fun x => includes LF x = false) l ->
  Forall (fun x => includes LF x = false)
         (match l with h :: t => String c h :: t | [] => [String c EmptyString] end).
Proof.
  intros Hc Hne H. destruct l as [|h t]; [congruence|].
  apply Forall_cons in H as [H1 H2]. constructor; [|exact H2].
  cbn [includes]. rewrite H1. rewrite bool_decide_eq_false_2; [reflexivity|congruence].
Qed.

Lemma splitRegex_no_LF_upto (n : nat) : forall s,
  (String.length s <= n)%nat ->
  Forall (fun x => includes LF x = false) (splitRegex s).
Proof.
  induction n as [|n IH]; intros s Hlen.
  - destruct s; [repeat constructor|simpl in Hlen; lia].
  - destruct s as [|c r]; [repeat constructor|]. simpl in Hlen.
    assert (IHr : Forall (fun x => includes LF x = false) (splitRegex r))
      by (apply IH; lia).
    cbn [splitRegex].
    destruct (bool_decide (c = LF)) eqn:Hlf; [constructor; [reflexivity|exact IHr]|].
    apply bool_decide_eq_false in Hlf.
    destruct (bool_decide (c = CR)).
    + destruct r as [|d r'].
      * apply keep_no_LF; [exact Hlf|apply splitRegex_nonempty|exact IHr].
      * destruct (bool_decide (d = LF)).
        -- constructor; [reflexivity|]. apply IH. simpl in Hlen. lia.
        -- apply keep_no_LF; [exact Hlf|apply splitRegex_nonempty|exact IHr].
    + apply keep_no_LF; [exact Hlf|apply splitRegex_nonempty|exact IHr].
Qed.

Lemma splitRegex_no_LF (s : string) :
  Forall (fun x => includes LF x = false) (splitRegex s).
Proof. apply (splitRegex_no_LF_upto (String.length s)). lia. Qed.
End SplitFacts.

(** X4: for a text without carriage returns, joining the lines of
    [splitLines] with line feeds gives the text back. *)
Theorem splitLines_join (text : string) :
  Js.includes Js.CR text = false ->
  Js.join Diff.NL (Diff.splitLines text) = text.
Proof.
  intros H. unfold Diff.splitLines.
  destruct (bool_decide (text = EmptyString)) eqn:E.
  - apply bool_decide_eq_true in E. now subst text.
  - now apply splitRegex_join.
Qed.

Lemma splitLines_join_witness :
  Js.join Diff.NL (Diff.splitLines ("a" +:+ Diff.NL +:+ Diff.NL +:+ "b" +:+ Diff.NL))
  = "a" +:+ Diff.NL +:+ Diff.NL +:+ "b" +:+ Diff.NL.
Proof.
  apply (splitLines_join ("a" +:+ Diff.NL +:+ Diff.NL +:+ "b" +:+ Diff.NL)).
  vm_compute. reflexivity.
Defined.

Section OpsFacts.
Import Js Diff.

Lemma commonPrefix_le (a : list string) : forall b,
  (commonPrefix a b <= length a)%nat /\ (commonPrefix a b <= length b)%nat.
Proof.
  induction a as [|x a IH]; intros [|y b]; simpl; try lia.
  destruct (bool_decide (x = y)); simpl; [|lia]. destruct (IH b). lia.
Qed.

Lemma commonPrefix_take (a : list string) : forall b,
  take (commonPrefix a b) a = take (commonPrefix a b) b.
Proof.
  induction a as [|x a IH]; intros [|y b]; simpl; try reflexivity.
  destruct (bool_decide (x = y)) eqn:E; [|reflexivity].
  apply bool_decide_eq_true in E. subst y. simpl. f_equal. apply IH.
Qed.

(** The lines both arrays end with, past the middle region. *)
Lemma commonSuffix_drop (a b : list string) :
  drop (length a - commonSuffix a b) a = drop (length b - commonSuffix a b) b.
Proof.
  unfold commonSuffix.
  pose proof (commonPrefix_take (reverse a) (reverse b)) as H.
  rewrite !take_reverse in H. now apply (inj reverse) in H.
Qed.

Lemma side_context (l : list string) :
  oldSide (map (mkOp context) l) = l /\ newSide (map (mkOp context) l) = l.
Proof.
  unfold oldSide, newSide. induction l as [|x l [IH1 IH2]]; [split; reflexivity|].
  simpl. now rewrite IH1, IH2.
Qed.

Lemma oldSide_app (a b : list Op) : oldSide (a ++ b) = oldSide a ++ oldSide b.
Proof. unfold oldSide. now rewrite filter_app, map_app. Qed.

Lemma newSide_app (a b : list Op) : newSide (a ++ b) = newSide a ++ newSide b.
Proof. unfold newSide. now rewrite filter_app, map_app. Qed.

Lemma drop_lineAt (l : list string) (i : nat) :
  (i < length l)%nat -> drop i l = lineAt l i :: drop (S i) l.
Proof.
  intros H. destruct (lookup_lt_is_Some_2 l i H) as [x Hx].
  unfold lineAt. rewrite nth_lookup, Hx. simpl. now apply drop_S.
Qed.

(** Whatever the table holds, the walk spells out what is left of the
    old lines on one side and what is left of the new lines on the other. *)
Lemma walk_sides (oldMid newMid : list string) (dp : list (list Z)) (fuel : nat) :
  forall i j,
  (i <= length oldMid)%nat -> (j <= length newMid)%nat ->
  (length oldMid - i + (length newMid - j) <= fuel)%nat ->
  oldSide (walk oldMid newMid dp fuel i j) = drop i oldMid
  /\ newSide (walk oldMid newMid dp fuel i j) = drop j newMid.
Proof.
  induction fuel as [|fuel IH]; intros i j Hi Hj Hfuel.
  - simpl. rewrite !drop_ge by lia. split; reflexivity.
  - cbn [walk].
    destruct (bool_decide (i < length oldMid)%nat) eqn:Ei;
      destruct (bool_decide (j < length newMid)%nat) eqn:Ej; cbn [andb];
      try apply bool_decide_eq_true in Ei; try apply bool_decide_eq_true in Ej;
      try apply bool_decide_eq_false in Ei; try apply bool_decide_eq_false in Ej.
    + destruct (bool_decide (lineAt oldMid i = lineAt newMid j)) eqn:El.
      * apply bool_decide_eq_true in El.
        destruct (IH (S i) (S j)) as [H1 H2]; try lia.
        unfold oldSide, newSide in *. rewrite !filter_cons_True by (simpl; discriminate).
        simpl. rewrite H1, H2. rewrite (drop_lineAt oldMid i Ei).
        rewrite (drop_lineAt newMid j Ej), El. split; reflexivity.
      * destruct (dpGet dp i (S j) <=? dpGet dp (S i) j).
        -- destruct (IH (S i) j) as [H1 H2]; try lia.
           unfold oldSide, newSide in *.
           rewrite filter_cons_True by (simpl; discriminate).
           rewrite filter_cons_False by (simpl; intros H; now apply H).
           simpl. rewrite H1, H2, (drop_lineAt oldMid i Ei). split; reflexivity.
        -- destruct (IH i (S j)) as [H1 H2]; try lia.
           unfold oldSide, newSide in *.
           rewrite filter_cons_False by (simpl; intros H; now apply H).
           rewrite filter_cons_True by (simpl; discriminate).
           simpl. rewrite H1, H2, (drop_lineAt newMid j Ej). split; reflexivity.
    + destruct (IH (S i) j) as [H1 H2]; try lia.
      unfold oldSide, newSide in *.
      rewrite filter_cons_True by (simpl; discriminate).
      rewrite filter_cons_False by (simpl; intros H; now apply H).
      simpl. rewrite H1, H2, (drop_lineAt oldMid i Ei). split; reflexivity.
    + destruct (IH i (S j)) as [H1 H2]; try lia.
      unfold oldSide, newSide in *.
      rewrite filter_cons_False by (simpl; intros H; now apply H).
      rewrite filter_cons_True by (simpl; discriminate).
      simpl. rewrite H1, H2, (drop_lineAt newMid j Ej). split; reflexivity.
    + rewrite !drop_ge by lia. split; reflexivity.
Qed.
End OpsFacts.

Lemma diffOps_spells (oldLines newLines : list string) :
  Diff.oldSide (Diff.diffOps oldLines newLines) = oldLines
  /\ Diff.newSide (Diff.diffOps oldLines newLines) = newLines.
Proof.
  unfold Diff.diffOps.
  set (prefix := Diff.commonPrefix oldLines newLines).
  set (oldRest := drop prefix oldLines). set (newRest := drop prefix newLines).
  set (suffix := Diff.commonSuffix oldRest newRest).
  set (oldMid := take (length oldRest - suffix) oldRest).
  set (newMid := take (length newRest - suffix) newRest).
  destruct (walk_sides oldMid newMid (Diff.dpTable oldMid newMid)
              (length oldMid + length newMid) 0 0) as [Hw1 Hw2]; try lia.
  rewrite !oldSide_app, !newSide_app, Hw1, Hw2.
  destruct (side_context (take prefix oldLines)) as [-> ->].
  destruct (side_context (drop (length oldRest - suffix) oldRest)) as [-> ->].
  rewrite !drop_0. split.
  - subst oldMid. rewrite take_drop. subst oldRest. apply take_drop.
  - subst newMid. unfold suffix at 2. rewrite commonSuffix_drop. fold suffix.
    rewrite take_drop. subst newRest. unfold prefix at 1.
    rewrite commonPrefix_take. apply take_drop.
Qed.

(** X5: the ops of a diff spell out both texts: their context and removed
    lines, in order, are the old lines, and their context and added lines
    are the new lines. *)
Theorem diffOps_sides (oldLines newLines : list string) :
  Diff.oldSide (Diff.diffOps oldLines newLines) = oldLines
  /\ Diff.newSide (Diff.diffOps oldLines newLines) = newLines.
Proof. exact (diffOps_spells oldLines newLines). Qed.

Section EmptyDiffFacts.
Import Js Diff.

Lemma no_change_context (ops : list Op) : forall idx a b,
  changeIndexesFrom idx (number ops a b) = [] ->
  oldSide ops = newSide ops.
Proof.
  induction ops as [|o ops IH]; intros idx a b H; [reflexivity|].
  destruct o as [t l]. destruct t; simpl in H; try discriminate.
  unfold oldSide, newSide in *. simpl. f_equal. exact (IH _ _ _ H).
Qed.

Lemma join_head (sep : string) (c : ascii) (h : string) (t : list string) :
  join sep (String c h :: t) <> EmptyString.
Proof. destruct t; discriminate. Qed.

Lemma addRange_nonempty (ctx len : nat) (ranges : list (nat * nat)) (idx : nat) :
  addRange ctx len ranges idx <> [].
Proof.
  unfold addRange. destruct ranges as [|[s e] older]; [discriminate|].
  destruct (bool_decide _); discriminate.
Qed.

Lemma rangesOf_nonempty (ctx len : nat) (idx : nat) (rest : list nat) :
  rangesOf ctx len (idx :: rest) <> [].
Proof.
  unfold rangesOf. simpl.
  assert (H : forall l acc, acc <> [] -> foldl (addRange ctx len) acc l <> []).
  { induction l as [|i l IH]; intros acc Hacc; [exact Hacc|].
    simpl. apply IH, addRange_nonempty. }
  intros E. apply (f_equal (@length _)) in E. rewrite length_reverse in E.
  apply (H rest (addRange ctx len [] idx)); [apply addRange_nonempty|].
  now apply nil_length_inv.
Qed.

(** The lines of the hunks open with a header whenever there is a change. *)
Lemma hunkLines_head (ctx : nat) (entries : list Entry) :
  changeIndexesFrom 0 entries <> [] ->
  exists h t, hunkLines ctx entries = String "@" h :: t.
Proof.
  intros H. unfold hunkLines.
  destruct (changeIndexesFrom 0 entries) as [|idx rest]; [congruence|].
  pose proof (rangesOf_nonempty ctx (length entries) idx rest) as Hr.
  destruct (rangesOf ctx (length entries) (idx :: rest)) as [|r rs]; [congruence|].
  simpl. unfold hunk at 1. cbn [app]. eexists _, _. reflexivity.
Qed.

Lemma maxDiffLinesOf_pos (o : Options) : exists k, maxDiffLinesOf o = S k.
Proof.
  unfold maxDiffLinesOf. destruct (optMaxDiffLines o) as [v|]; [|now exists 399%nat].
  exists (Z.to_nat (Z.max 50 v) - 1)%nat. lia.
Qed.

Lemma splitLines_empty (text : string) : splitLines text = [] -> text = EmptyString.
Proof.
  unfold splitLines. destruct (bool_decide (text = EmptyString)) eqn:E.
  - now apply bool_decide_eq_true in E.
  - intros H. now apply splitRegex_nonempty in H.
Qed.

Lemma midSize_positive (oldLines newLines : list string) :
  0 < midSize oldLines newLines -> oldLines <> [].
Proof.
  intros H ->. unfold midSize in H. simpl in H. lia.
Qed.

Lemma buildSimpleDiff_nonempty (oldText newText : string) :
  splitLines oldText <> [] -> buildSimpleDiff oldText newText <> EmptyString.
Proof.
  intros H. unfold buildSimpleDiff.
  destruct (bool_decide (oldText = EmptyString)) eqn:E.
  - apply bool_decide_eq_true in E. subst oldText. now destruct H.
  - destruct (splitLines oldText) as [|l ls]; [congruence|]. simpl. apply join_head.
Qed.

Lemma same_lines_no_diff (oldText newText : string) (options : Options) :
  splitLines oldText = splitLines newText ->
  buildUnifiedDiff oldText newText options = EmptyString.
Proof.
  intros E. unfold buildUnifiedDiff. rewrite E.
  destruct (splitLines newText) as [|l0 l] eqn:E'; [reflexivity|].
  rewrite midSize_refl.
  rewrite bool_decide_eq_false_2 by (pose proof (maxCellsOf_pos options); lia).
  rewrite diffOps_refl, changeIndexes_context. reflexivity.
Qed.

Lemma no_diff_same_lines (oldText newText : string) (options : Options) :
  buildUnifiedDiff oldText newText options = EmptyString ->
  splitLines oldText = splitLines newText.
Proof.
  unfold buildUnifiedDiff.
  set (oldLines := splitLines oldText). set (newLines := splitLines newText).
  assert (Hbody :
    (if bool_decide (maxCellsOf options < midSize oldLines newLines)
     then buildSimpleDiff oldText newText
     else match changeIndexesFrom 0 (number (diffOps oldLines newLines) 1 1) with
          | [] => EmptyString
          | _ => let diffLines := hunkLines (contextLinesOf options)
                                    (number (diffOps oldLines newLines) 1 1) in
                 if bool_decide (maxDiffLinesOf options < length diffLines)%nat
                 then join NL (take (maxDiffLinesOf options) diffLines ++ [" ..."])
                 else join NL diffLines
          end) = EmptyString -> oldLines = newLines).
  { destruct (bool_decide (maxCellsOf options < midSize oldLines newLines)) eqn:Hc.
    - apply bool_decide_eq_true in Hc. pose proof (maxCellsOf_pos options) as Hp.
      intros H. exfalso. revert H. apply buildSimpleDiff_nonempty.
      apply (midSize_positive _ newLines). fold oldLines. lia.
    - destruct (changeIndexesFrom 0 (number (diffOps oldLines newLines) 1 1)) eqn:Hch.
      + intros _. destruct (diffOps_spells oldLines newLines) as [H1 H2].
        pose proof (no_change_context _ 0%nat 1%nat 1%nat Hch) as Hs. congruence.
      + cbv zeta. intros H. exfalso. revert H.
        destruct (hunkLines_head (contextLinesOf options)
                    (number (diffOps oldLines newLines) 1 1)) as (h & t & ->);
          [rewrite Hch; discriminate|].
        destruct (maxDiffLinesOf_pos options) as [k ->].
        simpl. destruct (bool_decide (S k < S (length t))%nat);
          [destruct (take k t ++ [" ..."])|destruct t]; discriminate. }
  destruct oldLines, newLines; auto.
Qed.
End EmptyDiffFacts.

(** X6: the diff of two texts is empty exactly when they have the same
    lines (texts that differ in their line endings only count as the
    same). *)
Theorem empty_diff_iff_same_lines (oldText newText : string) (options : Diff.Options) :
  Diff.buildUnifiedDiff oldText newText options = EmptyString
  <-> Diff.splitLines oldText = Diff.splitLines newText.
Proof.
  split; [apply no_diff_same_lines|apply same_lines_no_diff].
Qed.

Section LedgerBound.
Import Ledger.
Variable h : Host.

Lemma register_ok (stamp : string) (change : list RevertFile) (w : World) :
  LedgerOk w -> LedgerOk (registerRevertChange stamp change w).2.
Proof.
  intros (Hlen & Hne & Hdom). unfold registerRevertChange.
  destruct change as [|f change]; [repeat split; assumption|].
  set (id := "revert_" +:+ stamp).
  assert (Hid : id <> EmptyString) by discriminate.
  assert (Hins : forall k, is_Some (<[id := f :: change]> (revertChanges w) !! k) ->
                 k ∈ revertOrder w ++ [id]).
  { intros k Hk. destruct (decide (k = id)) as [->|Hk'].
    - apply elem_of_app. right. apply list_elem_of_singleton. reflexivity.
    - rewrite lookup_insert_ne in Hk by congruence. apply elem_of_app. left. now apply Hdom. }
  assert (Hne' : EmptyString ∉ revertOrder w ++ [id]).
  { intros Hin. apply elem_of_app in Hin as [Hin|Hin]; [now apply Hne|].
    apply list_elem_of_singleton in Hin. congruence. }
  destruct (bool_decide (MAX_REVERTS < length (revertOrder w ++ [id]))%nat) eqn:Hfull.
  - destruct (revertOrder w ++ [id]) as [|oldest rest] eqn:Horder.
    + apply (f_equal (@length _)) in Horder. rewrite length_app in Horder.
      simpl in Horder. lia.
    + assert (Hold : oldest <> EmptyString) by (intros ->; apply Hne'; left).
      rewrite (bool_decide_eq_false_2 _ Hold). unfold LedgerOk.
      cbn [snd revertOrder revertChanges].
      apply (f_equal (@length _)) in Horder as Hl. rewrite length_app in Hl.
      simpl in Hl. split; [lia|]. split.
      * intros Hin. apply Hne'. now right.
      * intros k Hk. destruct (decide (k = oldest)) as [->|Hk'].
        -- rewrite lookup_delete_eq in Hk. now destruct Hk.
        -- rewrite lookup_delete_ne in Hk by congruence.
           apply Hins in Hk. apply elem_of_cons in Hk as [Hk|Hk]; [congruence|exact Hk].
  - apply bool_decide_eq_false in Hfull. unfold LedgerOk.
    cbn [snd revertOrder revertChanges].
    split; [lia|]. split; [exact Hne'|exact Hins].
Qed.

Lemma ledger_ok_ext (w w' : World) :
  revertChanges w' = revertChanges w -> revertOrder w' = revertOrder w ->
  LedgerOk w -> LedgerOk w'.
Proof. intros H1 H2 H. unfold LedgerOk. now rewrite H1, H2. Qed.

Lemma runMutating_ok (r : Request) (stamp : string) (w : World) :
  LedgerOk w -> LedgerOk (runMutating h r stamp w).2.
Proof.
  intros Hok.
  destruct (editsOneFile r) eqn:Hone.
  { destruct (one_file_outcome h r stamp w Hone) as (p & _ & [->|(b & fs & _ & _ & ->)]);
      [exact Hok|].
    unfold committed. apply register_ok. now apply (ledger_ok_ext w). }
  destruct (registersNothing r) eqn:Hnone.
  { destruct (no_register_ledger h r stamp w Hnone) as [H1 H2].
    now apply (ledger_ok_ext w). }
  destruct r; try discriminate.
  - simpl. destruct (toolApplyPatch_outcome h patchText rawCwd approved stamp w)
      as [->|[fs ->]]; [exact Hok|].
    apply register_ok. now apply (ledger_ok_ext w).
  - simpl. destruct (toolWriteFile_no_register h a approved stamp w) as [H1 H2].
    now apply (ledger_ok_ext w).
Qed.

Lemma revertChange_ledger (id : string) (w : World) :
  revertOrder (revertChange h id w).2 = revertOrder w
  /\ forall k, is_Some (revertChanges (revertChange h id w).2 !! k) ->
               is_Some (revertChanges w !! k).
Proof.
  unfold revertChange.
  destruct (bool_decide (Js.trim id = EmptyString)); [split; auto|].
  destruct (revertChanges w !! Js.trim id) as [change|] eqn:E; [|split; auto].
  destruct (foldl (revertFile h) (files w, []) change) as [fs results].
  cbn [snd revertOrder revertChanges]. split; [reflexivity|].
  intros k Hk. destruct (decide (k = Js.trim id)) as [->|Hne].
  - rewrite lookup_delete_eq in Hk. now destruct Hk.
  - now rewrite lookup_delete_ne in Hk by congruence.
Qed.

Lemma revertChange_ok (id : string) (w : World) :
  LedgerOk w -> LedgerOk (revertChange h id w).2.
Proof.
  intros (Hlen & Hne & Hdom). destruct (revertChange_ledger id w) as [Ho Hc].
  unfold LedgerOk. rewrite Ho. repeat split; auto.
Qed.
End LedgerBound.

(** X7: the ledger stays within its bound. If [revertOrder] holds at most
    40 ids, none empty, and lists every stored change, the same is true
    after any mutating tool call and after any revert. *)
Theorem ledger_stays_bounded (h : Ledger.Host) (r : Ledger.Request) (stamp id : string)
    (w : Ledger.World) :
  Ledger.LedgerOk w ->
  Ledger.LedgerOk (Ledger.runMutating h r stamp w).2
  /\ Ledger.LedgerOk (Ledger.revertChange h id w).2.
Proof.
  intros H. split; [now apply runMutating_ok|now apply revertChange_ok].
Qed.

Lemma ledger_stays_bounded_witness :
  Ledger.LedgerOk
    (Ledger.runMutating Ledger.demoHost
       (Ledger.DeleteFile "a.txt" true) "17_ab" Ledger.demoWorld).2
  /\ Ledger.LedgerOk (Ledger.revertChange Ledger.demoHost "revert_1" Ledger.demoWorld).2.
Proof.
  apply (ledger_stays_bounded Ledger.demoHost (Ledger.DeleteFile "a.txt" true)
           "17_ab" "revert_1" Ledger.demoWorld).
  split; [vm_compute; lia|]. split; [vm_compute; apply not_elem_of_nil|].
  intros k [x Hx]. vm_compute in Hx. discriminate.
Defined.

(** X8: a full ledger evicts its oldest change. When [revertOrder] holds
    40 ids and a change is registered under a new id, the oldest id leaves
    the order, its change leaves the map, the new change is stored, and
    reverting the oldest id afterwards fails and changes nothing. *)
Theorem full_ledger_evicts_oldest (h : Ledger.Host) (stamp oldest : string)
    (rest : list string) (change : list Ledger.RevertFile) (w : Ledger.World) :
  Ledger.revertOrder w = oldest :: rest ->
  length (Ledger.revertOrder w) = Ledger.MAX_REVERTS ->
  Js.trim oldest = oldest -> oldest <> EmptyString ->
  oldest <> "revert_" +:+ stamp ->
  change <> [] ->
  let w' := (Ledger.registerRevertChange stamp change w).2 in
  Ledger.revertOrder w' = rest ++ ["revert_" +:+ stamp]
  /\ Ledger.revertChanges w' !! oldest = None
  /\ Ledger.revertChanges w' !! ("revert_" +:+ stamp) = Some change
  /\ Ledger.revertChange h oldest w'
     = ("Revert failed: change not found or expired.", w').
Proof.
  intros Horder Hlen Htrim Hne Hfresh Hch w'.
  assert (Hw' : Ledger.revertOrder w' = rest ++ ["revert_" +:+ stamp]
                /\ Ledger.revertChanges w'
                   = delete oldest (<["revert_" +:+ stamp := change]> (Ledger.revertChanges w))).
  { subst w'. unfold Ledger.registerRevertChange.
    destruct change as [|f change]; [congruence|].
    rewrite bool_decide_eq_true_2 by (rewrite length_app, Hlen; cbn [length]; lia).
    rewrite Horder. cbn [app]. rewrite (bool_decide_eq_false_2 _ Hne).
    split; reflexivity. }
  destruct Hw' as [Ho Hc].
  assert (Hgone : Ledger.revertChanges w' !! oldest = None)
    by (rewrite Hc; apply lookup_delete_eq).
  repeat split; [exact Ho|exact Hgone| |].
  - rewrite Hc, lookup_delete_ne by exact Hfresh. apply lookup_insert_eq.
  - unfold Ledger.revertChange. rewrite Htrim, (bool_decide_eq_false_2 _ Hne), Hgone.
    reflexivity.
Qed.

(** X9: a revert is single use. After a change has been reverted, a second
    revert of the same id fails with the not-found message and changes
    nothing. *)
Theorem revert_single_use (h : Ledger.Host) (id : string) (w : Ledger.World)
    (change : list Ledger.RevertFile) :
  Js.trim id <> EmptyString ->
  Ledger.revertChanges w !! Js.trim id = Some change ->
  let w1 := (Ledger.revertChange h id w).2 in
  Ledger.revertChange h id w1 = ("Revert failed: change not found or expired.", w1).
Proof.
  intros Hid Hch w1.
  destruct (revertChange_files h id w change Hid Hch) as [_ Hc].
  unfold Ledger.revertChange at 1. rewrite (bool_decide_eq_false_2 _ Hid).
  fold w1 in Hc. rewrite Hc, lookup_delete_eq. reflexivity.
Qed.

(** X10: a request that is not let through changes nothing. When the user
    declines the approval, or the editor refuses the workspace edit, the
    tool leaves the files and the ledger exactly as they were. *)
Theorem refused_request_changes_nothing (h : Ledger.Host) (r : Ledger.Request)
    (stamp : string) (w : Ledger.World) :
  Ledger.refused r = true -> (Ledger.runMutating h r stamp w).2 = w.
Proof.
  intros Href. destruct r; simpl in Href |- *.
  - unfold Ledger.toolEditFile.
    destruct (bool_decide _); [reflexivity|].
    destruct (Ledger.editStartLine a); [|reflexivity].
    destruct (Ledger.editEndLine a); [|reflexivity].
    destruct (_ <? _); [reflexivity|].
    destruct (Ledger.files w !! _); [|reflexivity]. cbv zeta.
    destruct approved; [|reflexivity]. destruct accepted; [discriminate|reflexivity].
  - unfold Ledger.toolInsertText.
    destruct (bool_decide _); [reflexivity|].
    destruct (Ledger.insertLine a); [|reflexivity].
    destruct (Ledger.insertCharacter a); [|reflexivity].
    destruct (Ledger.files w !! _); [|reflexivity]. cbv zeta.
    destruct approved; [|reflexivity]. destruct accepted; [discriminate|reflexivity].
  - unfold Ledger.toolReplaceRange.
    destruct (bool_decide _); [reflexivity|].
    destruct (Ledger.replaceStartLine a); [|reflexivity].
    destruct (Ledger.replaceStartChar a); [|reflexivity].
    destruct (Ledger.replaceEndLine a); [|reflexivity].
    destruct (Ledger.replaceEndChar a); [|reflexivity].
    destruct (Ledger.files w !! _); [|reflexivity]. cbv zeta.
    destruct (Ledger.isBefore _ _); [reflexivity|].
    destruct approved; [|reflexivity]. destruct accepted; [discriminate|reflexivity].
  - apply negb_true_iff in Href. subst approved. unfold Ledger.toolCopyFile.
    destruct (_ || _); reflexivity.
  - apply negb_true_iff in Href. subst approved. unfold Ledger.toolApplyPatch.
    destruct (bool_decide _); [reflexivity|]. destruct (bool_decide _); reflexivity.
  - apply negb_true_iff in Href. subst approved. unfold Ledger.toolWriteFile.
    destruct (bool_decide _); reflexivity.
  - apply negb_true_iff in Href. subst approved. unfold Ledger.toolCreateDir.
    destruct (bool_decide _); reflexivity.
  - apply negb_true_iff in Href. subst approved. unfold Ledger.toolDeleteFile.
    destruct (bool_decide _); [reflexivity|]. destruct (Ledger.files w !! _); reflexivity.
  - apply negb_true_iff in Href. subst approved. unfold Ledger.toolMoveFile.
    destruct (_ || _); reflexivity.
  - apply negb_true_iff in Href. subst approved. unfold Ledger.toolRunCommand.
    destruct (bool_decide _); [reflexivity|]. destruct (bool_decide _); reflexivity.
  - unfold Ledger.toolRenameApply.
    destruct (bool_decide _); [reflexivity|]. destruct (bool_decide _); [reflexivity|].
    cbv zeta. destruct (Ledger.renameEdit h _ _ _ _ _); [|reflexivity].
    destruct approved; [|reflexivity]. destruct accepted; [discriminate|reflexivity].
Qed.

Lemma full_ledger_evicts_oldest_witness :
  Ledger.revertChanges
    (Ledger.registerRevertChange "new" [Ledger.mkFile "/ws/a.txt" true "A"]
       Ledger.fullWorld).2 !! "revert_0" = None.
Proof.
  destruct (full_ledger_evicts_oldest Ledger.demoHost "new" "revert_0"
              (tail Ledger.fullOrder) [Ledger.mkFile "/ws/a.txt" true "A"]
              Ledger.fullWorld
              ltac:(vm_compute; reflexivity) ltac:(vm_compute; reflexivity)
              ltac:(vm_compute; reflexivity) ltac:(discriminate)
              ltac:(vm_compute; discriminate) ltac:(discriminate))
    as (_ & H & _).
  exact H.
Defined.

Lemma revert_single_use_witness :
  let w := Ledger.mkWorld {[ "/ws/a.txt" := "B" ]}
             {[ "revert_1" := [Ledger.mkFile "/ws/a.txt" true "A"] ]} ["revert_1"] in
  Ledger.revertChange Ledger.demoHost "revert_1"
    (Ledger.revertChange Ledger.demoHost "revert_1" w).2
  = ("Revert failed: change not found or expired.",
     (Ledger.revertChange Ledger.demoHost "revert_1" w).2).
Proof.
  intros w.
  apply (revert_single_use Ledger.demoHost "revert_1" w
           [Ledger.mkFile "/ws/a.txt" true "A"]).
  - vm_compute. discriminate.
  - vm_compute. reflexivity.
Defined.

Lemma refused_request_changes_nothing_witness :
  (Ledger.runMutating Ledger.demoHost (Ledger.DeleteFile "a.txt" false) "17_ab"
     Ledger.demoWorld).2 = Ledger.demoWorld.
Proof.
  apply (refused_request_changes_nothing Ledger.demoHost
           (Ledger.DeleteFile "a.txt" false) "17_ab" Ledger.demoWorld).
  reflexivity.
Defined.

(** X11: an approved [delete_file] of an existing file of 7-bit text
    removes it, and reverting the id it returned gives back all files as
    they were. (The tool keeps the bytes of the file decoded as UTF-8 and
    the revert writes that text back encoded, which is the identity on
    such a file; a file that is not valid UTF-8 is outside the
    statement.) *)
Theorem delete_then_revert (h : Ledger.Host) (filePath stamp c : string)
    (w : Ledger.World) :
  let fullPath := Ledger.resolveWorkspacePathForTool h filePath in
  let R := "revert_" +:+ stamp in
  fullPath <> EmptyString ->
  Ledger.files w !! fullPath = Some c ->
  Js.sevenBit c = true ->
  Js.trim R = R -> R ∉ Ledger.revertOrder w ->
  let deleted := Ledger.toolDeleteFile h filePath true stamp w in
  Ledger.files deleted.2 !! fullPath = None
  /\ Ledger.files (Ledger.revertChange h R deleted.2).2 = Ledger.files w.
Proof.
  intros fullPath R Hpath Hc _ Htrim Hfresh deleted.
  assert (HR : Js.trim R <> EmptyString) by (rewrite Htrim; subst R; discriminate).
  subst deleted. unfold Ledger.toolDeleteFile. fold fullPath.
  rewrite (bool_decide_eq_false_2 _ Hpath), Hc. cbn [negb]. cbv zeta.
  match goal with
  | |- context [Ledger.registerRevertChange stamp ?ch ?w1] =>
      pose proof (register_spec stamp ch w1 ltac:(discriminate) Hfresh) as (_ & Hf1 & Hc1);
      destruct (Ledger.registerRevertChange stamp ch w1) as [rid w2]
  end.
  cbn [fst snd] in *. cbn [Ledger.files] in Hf1. fold R in Hc1.
  split; [rewrite Hf1; apply lookup_delete_eq|].
  rewrite <- Htrim in Hc1.
  destruct (revertChange_files h R w2 _ HR Hc1) as [Hfiles _].
  rewrite Hfiles. simpl. unfold Ledger.revertFile. simpl.
  rewrite (bool_decide_eq_false_2 _ Hpath). simpl.
  rewrite Hf1, insert_delete_eq. now apply insert_id.
Qed.

Lemma delete_then_revert_witness :
  Ledger.files
    (Ledger.revertChange Ledger.demoHost "revert_17_ab"
       (Ledger.toolDeleteFile Ledger.demoHost "a.txt" true "17_ab" Ledger.demoWorld).2).2
  = Ledger.files Ledger.demoWorld.
Proof.
  destruct (delete_then_revert Ledger.demoHost "a.txt" "17_ab" "A" Ledger.demoWorld
              ltac:(vm_compute; discriminate) ltac:(vm_compute; reflexivity)
              ltac:(vm_compute; reflexivity) ltac:(vm_compute; reflexivity)
              ltac:(vm_compute; apply not_elem_of_nil)) as [_ H].
  exact H.
Defined.

(** X12: [write_file] never replaces an existing file when neither
    [overwrite] nor [append] is set: files and ledger stay as they were. *)
Theorem write_file_no_clobber (h : Ledger.Host) (a : Ledger.WriteArgs) (approved : bool)
    (stamp : string) (w : Ledger.World) :
  is_Some (Ledger.files w !! Ledger.resolveWorkspacePathForTool h (Ledger.writePath a)) ->
  Ledger.writeOverwrite a = false -> Ledger.writeAppend a = false ->
  (Ledger.toolWriteFile h a approved stamp w).2 = w.
Proof.
  intros Hex Ho Ha. unfold Ledger.toolWriteFile.
  destruct (bool_decide _); [reflexivity|].
  destruct approved; [|reflexivity]. cbn [negb].
  rewrite Ha, Ho, (bool_decide_eq_true_2 _ Hex). reflexivity.
Qed.

Lemma write_file_no_clobber_witness :
  (Ledger.toolWriteFile Ledger.demoHost (Ledger.mkWriteArgs "a.txt" "Z" false false)
     true "s" Ledger.demoWorld).2 = Ledger.demoWorld.
Proof.
  apply (write_file_no_clobber Ledger.demoHost
           (Ledger.mkWriteArgs "a.txt" "Z" false false) true "s" Ledger.demoWorld).
  - vm_compute. eexists. reflexivity.
  - reflexivity.
  - reflexivity.
Defined.




(** ** The loop of a turn, for every model and every tool runner *)
Section TurnFacts.
Import Agent.
Context {W : Type}.
Variable env : Env W.

Lemma modelCalls_app (l l' : list Event) :
  modelCalls (l ++ l') = (modelCalls l + modelCalls l')%nat.
Proof. unfold modelCalls. now rewrite filter_app, length_app. Qed.

(** One tool call: one event about the normalised call, and two messages
    shown, the description of the call and its result. *)
Lemma execCall_shape (acc : LoopState W * bool * bool) (c : ToolCall) :
  exists e result,
    (e = ToolRan (normalizeToolCall c) \/ e = CommandSkipped (normalizeToolCall c))
    /\ events (execCall env acc c).1.1 = events acc.1.1 ++ [e]
    /\ uiMessages (execCall env acc c).1.1
       = uiMessages acc.1.1
           ++ [assistant (describeToolCall env (normalizeToolCall c)); assistant result]
    /\ modelMessages (execCall env acc c).1.1 <> [].
Proof.
  destruct acc as [[st dm] dv]. cbn [fst]. unfold execCall.
  set (n := normalizeToolCall c). state_simpl.
  destruct (bool_decide (tool n = "run_command")).
  - destruct (bool_decide (lastCommandSignature st = Some (signatureOf n))
              && negb (sawMutationSinceCommand st)).
    + state_simpl. eexists (CommandSkipped n), _. rewrite <- app_assoc.
      repeat split; [now right|apply trim_nonempty].
    + destruct (runToolCall env n (world st)) as [result w]. state_simpl.
      eexists (ToolRan n), _. rewrite <- app_assoc.
      repeat split; [now left|apply trim_nonempty].
  - destruct (runToolCall env n (world st)) as [result w]. state_simpl.
    eexists (ToolRan n), _. rewrite <- app_assoc.
    repeat split; [now left|apply trim_nonempty].
Qed.

Lemma execCalls_shape (calls : list ToolCall) : forall acc,
  exists ext more,
    Forall2 (fun e c => e = ToolRan (normalizeToolCall c)
                        \/ e = CommandSkipped (normalizeToolCall c)) ext calls
    /\ events (execCalls env acc calls).1.1 = events acc.1.1 ++ ext
    /\ uiMessages (execCalls env acc calls).1.1 = uiMessages acc.1.1 ++ more
    /\ (modelMessages acc.1.1 <> [] -> modelMessages (execCalls env acc calls).1.1 <> []).
Proof.
  induction calls as [|c calls IH]; intros acc.
  - exists [], []. rewrite !app_nil_r. repeat split; [constructor|auto].
  - destruct (execCall_shape acc c) as (e & result & He & Hev & Hui & Hm1).
    destruct (IH (execCall env acc c)) as (ext & more & Hall & Hev' & Hui' & Hm2).
    exists (e :: ext), ([assistant (describeToolCall env (normalizeToolCall c));
                        assistant result] ++ more).
    change (execCalls env acc (c :: calls)) with (execCalls env (execCall env acc c) calls).
    rewrite Hev', Hui', Hev, Hui, <- !app_assoc.
    repeat split; [now constructor|auto].
Qed.

Lemma toolEvents_quiet (ext : list Event) (calls : list ToolCall) :
  Forall2 (fun e c => e = ToolRan (normalizeToolCall c)
                      \/ e = CommandSkipped (normalizeToolCall c)) ext calls ->
  modelCalls ext = O.
Proof.
  induction 1 as [|e c ext calls He _ IH]; [reflexivity|].
  change (e :: ext) with ([e] ++ ext). rewrite modelCalls_app, IH.
  now destruct He as [-> | ->].
Qed.

Lemma updateTodos_same (parsed : Parsed) (st : LoopState W) :
  uiMessages (updateTodos env parsed st) = uiMessages st
  /\ events (updateTodos env parsed st) = events st
  /\ modelMessages (updateTodos env parsed st) = modelMessages st.
Proof.
  unfold updateTodos. destruct (todo parsed); [now repeat split|].
  destruct (todoSeedCache env); now repeat split.
Qed.

Lemma runToolCalls_shape (parsed : Parsed) (calls : list ToolCall) (st : LoopState W) :
  exists ext more,
    Forall2 (fun e c => e = ToolRan (normalizeToolCall c)
                        \/ e = CommandSkipped (normalizeToolCall c)) ext calls
    /\ events (runToolCalls env parsed calls st) = events st ++ ext
    /\ uiMessages (runToolCalls env parsed calls st) = uiMessages st ++ more
    /\ (modelMessages st <> [] -> modelMessages (runToolCalls env parsed calls st) <> []).
Proof.
  unfold runToolCalls.
  match goal with
  | |- context [execCalls env (?s, false, false) calls] =>
      assert (H3 : (exists pre, uiMessages s = uiMessages st ++ pre)
                   /\ events s = events st /\ modelMessages s = modelMessages st);
      [|destruct H3 as ((pre & Hpre) & Hev3 & Hm3);
        destruct (execCalls_shape calls (s, false, false))
          as (ext & more & Hall & Hev & Hui & Hm4);
        cbn [fst] in Hev, Hui, Hm4;
        destruct (execCalls env (s, false, false) calls) as [[st4 dm] dv]]
  end.
  - match goal with
    | |- context [updateTodos env parsed ?s1] =>
        destruct (updateTodos_same parsed s1) as (Hu & He & Hm)
    end.
    destruct (bool_decide (Js.trim (prose parsed) = EmptyString)).
    + rewrite Hu, He, Hm. state_simpl. repeat split.
      exists []. now rewrite app_nil_r.
    + state_simpl. rewrite Hu, He, Hm. state_simpl. repeat split.
      now eexists.
  - cbn [fst] in *. rewrite Hev3 in Hev. rewrite Hpre, <- app_assoc in Hui.
    rewrite Hm3 in Hm4.
    destruct (dm && negb dv).
    + destruct (toolReadDir env (world st4)) as [tree w1].
      destruct (toolListFiles env w1) as [files w2]. state_simpl.
      exists ext. eexists. rewrite Hui, <- app_assoc.
      repeat split; [exact Hall|exact Hev|]. intros _.
      match goal with
      | |- trimChatMessagesForModel (?l ++ [?a; ?b]) ?k <> [] =>
          change (l ++ [a; b]) with (l ++ [a] ++ [b]); rewrite app_assoc;
          apply trim_nonempty
      end.
    + exists ext, (pre ++ more). split; [exact Hall|]. split; [exact Hev|].
      split; [exact Hui|exact Hm4].
Qed.

Lemma finishOrVerify_shape (check : bool) (message : string) (st : LoopState W) :
  match finishOrVerify env check message st with
  | inl st' => (exists more, uiMessages st' = uiMessages st ++ more)
               /\ events st' = events st /\ modelMessages st' <> []
  | inr r => exit r = Final /\ continuation r = None
             /\ uiMessages (state r) = uiMessages st ++ [assistant message]
             /\ events (state r) = events st
  end.
Proof.
  unfold finishOrVerify. destruct (if check then _ else _).
  - now repeat split.
  - state_simpl. repeat split; [now eexists|apply trim_nonempty].
Qed.

Lemma todoOnly_shape (parsed : Parsed) (assistantText : string) (st : LoopState W) :
  modelMessages st <> [] ->
  match todoOnly env parsed assistantText st with
  | inl st' => (exists more, uiMessages st' = uiMessages st ++ more)
               /\ modelCalls (events st') = modelCalls (events st)
               /\ modelMessages st' <> []
  | inr r => exit r = Final /\ continuation r = None
             /\ (exists m, uiMessages (state r) = uiMessages st ++ [m])
             /\ modelCalls (events (state r)) = modelCalls (events st)
  end.
Proof.
  intros Hmm. unfold todoOnly.
  destruct (updateTodos_same parsed st) as (Hu & He & Hm).
  set (st1 := updateTodos env parsed st) in *.
  destruct (negb _).
  - match goal with
    | |- match finishOrVerify env ?c ?m ?s with _ => _ end =>
        pose proof (finishOrVerify_shape c m s) as Hf;
        destruct (finishOrVerify env c m s) as [st'|r]
    end.
    + destruct Hf as (Hui & Hev & Hm'). rewrite Hev, He, <- Hu. now repeat split.
    + destruct Hf as (Hx & Hc & Hui & Hev). rewrite Hev, He, Hui, Hu.
      repeat split; [exact Hx|exact Hc|now eexists].
  - cbv zeta.
    match goal with
    | |- context [noPending ?s] =>
        assert (H3 : uiMessages s = uiMessages st
                     /\ modelCalls (events s) = modelCalls (events st)
                     /\ modelMessages s <> []);
        [|destruct H3 as (Hu3 & He3 & Hm3); destruct (noPending s);
          [match goal with
           | |- match finishOrVerify env ?c ?m ?s' with _ => _ end =>
               pose proof (finishOrVerify_shape c m s') as Hf;
               destruct (finishOrVerify env c m s') as [st'|r]
           end|]]
    end.
    + destruct (bool_decide (1 <= _)%nat); state_simpl.
      * rewrite modelCalls_snoc, He, Hu. cbn. rewrite Nat.add_0_r.
        repeat split. apply trim_nonempty.
      * rewrite He, Hu, Hm. now repeat split.
    + destruct Hf as (Hui & Hev & Hm'). rewrite Hev, He3, <- Hu3. now repeat split.
    + destruct Hf as (Hx & Hc & Hui & Hev). rewrite Hev, He3, Hui, Hu3.
      repeat split; [exact Hx|exact Hc|now eexists].
    + repeat split; [exists []; now rewrite app_nil_r, Hu3|exact He3|exact Hm3].
Qed.

(** One round: either the loop goes on, after exactly one model call, or
    the turn ends, with one more message shown and no continuation saved;
    it ends without a model call exactly when a stop was requested. *)
Lemma round_shape (step : nat) (st : LoopState W) :
  match round env step st with
  | inl st' => stopRequested env step = false
               /\ (exists more, uiMessages st' = uiMessages st ++ more)
               /\ modelCalls (events st') = S (modelCalls (events st))
               /\ modelMessages st' <> []
  | inr r => continuation r = None
             /\ (exists m, uiMessages (state r) = uiMessages st ++ [m])
             /\ (if stopRequested env step
                 then exit r = Stopped
                      /\ modelCalls (events (state r)) = modelCalls (events st)
                 else exit r <> Stopped /\ exit r <> StepLimitReached
                      /\ modelCalls (events (state r)) = S (modelCalls (events st)))
  end.
Proof.
  unfold round.
  destruct (stopRequested env step); [state_simpl; repeat split; now eexists|].
  cbv zeta.
  match goal with
  | |- context [bool_decide (Js.trim ?t = EmptyString)] => set (assistantText := t)
  end.
  set (st0 := mkState (uiMessages st) (modelMessages st) (todos st)
                (lastBareTodoSignature st) (bareTodoRepeatCount st)
                (lastCommandSignature st) (sawMutationSinceCommand st)
                (mutationSinceProblems st) (world st) (events st ++ [ModelCalled])).
  assert (H0 : modelCalls (events st0) = S (modelCalls (events st))).
  { subst st0. state_simpl. rewrite modelCalls_snoc.
    change (bool_decide (ModelCalled = ModelCalled)) with true. cbv iota. lia. }
  destruct (bool_decide (Js.trim assistantText = EmptyString)).
  { state_simpl. repeat split; [now eexists|discriminate|discriminate|exact H0]. }
  set (st1 := withModel env st0 (assistant assistantText)).
  assert (H1 : uiMessages st1 = uiMessages st /\ events st1 = events st0
               /\ modelMessages st1 <> []).
  { subst st1 st0. state_simpl. repeat split. apply trim_nonempty. }
  destruct H1 as (Hu1 & He1 & Hm1).
  destruct (parseResponse env assistantText) as [parsed|].
  2:{ state_simpl. repeat split; [now eexists|discriminate|discriminate|exact H0]. }
  assert (Htodo : match todoOnly env parsed assistantText st1 with
                  | inl st' => false = false
                               /\ (exists more, uiMessages st' = uiMessages st ++ more)
                               /\ modelCalls (events st') = S (modelCalls (events st))
                               /\ modelMessages st' <> []
                  | inr r => continuation r = None
                             /\ (exists m, uiMessages (state r) = uiMessages st ++ [m])
                             /\ exit r <> Stopped /\ exit r <> StepLimitReached
                             /\ modelCalls (events (state r)) = S (modelCalls (events st))
                  end).
  { pose proof (todoOnly_shape parsed assistantText st1 Hm1) as Ht.
    destruct (todoOnly env parsed assistantText st1) as [st'|r].
    - destruct Ht as (Hui & Hev & Hm). rewrite Hev, He1, H0, <- Hu1. now repeat split.
    - destruct Ht as (Hx & Hc & Hui & Hev). rewrite Hev, He1, H0, <- Hu1, Hx.
      now repeat split. }
  assert (Htools : forall calls,
             (exists more, uiMessages (runToolCalls env parsed calls st1)
                           = uiMessages st ++ more)
             /\ modelCalls (events (runToolCalls env parsed calls st1))
                = S (modelCalls (events st))
             /\ modelMessages (runToolCalls env parsed calls st1) <> []).
  { intros calls.
    destruct (runToolCalls_shape parsed calls st1) as (ext & more & Hall & Hev & Hui & Hm).
    rewrite Hev, Hui, modelCalls_app, (toolEvents_quiet ext calls Hall), He1, H0, Hu1.
    repeat split; [now eexists|lia|now apply Hm]. }
  destruct (final parsed) as [[|c f]|].
  - destruct (toolCalls parsed) as [[|call calls]|];
      [exact Htodo|split; [reflexivity|apply Htools]|exact Htodo].
  - destruct (updateTodos_same parsed st1) as (Hu & He & Hm).
    match goal with
    | |- match finishOrVerify env ?c ?m ?s with _ => _ end =>
        pose proof (finishOrVerify_shape c m s) as Hf;
        destruct (finishOrVerify env c m s) as [st'|r]
    end.
    + destruct Hf as (Hui & Hev & Hm'). rewrite Hev, He, He1, H0, <- Hu1, <- Hu.
      now repeat split.
    + destruct Hf as (Hx & Hc & Hui & Hev). rewrite Hev, He, He1, H0, Hui, Hu, Hu1, Hx.
      repeat split; [exact Hc|now eexists|discriminate|discriminate].
  - destruct (toolCalls parsed) as [[|call calls]|];
      [exact Htodo|split; [reflexivity|apply Htools]|exact Htodo].
Qed.

(** The whole loop, from any round on. *)
Lemma loop_shape (fuel : nat) : forall step st,
  let r := loop env fuel step st in
  let before := modelCalls (events st) in
  let calls := modelCalls (events (state r)) in
  (exists more m, uiMessages (state r) = uiMessages st ++ more ++ [m])
  /\ (before <= calls <= before + fuel)%nat
  /\ match exit r with
     | StepLimitReached =>
         calls = (before + fuel)%nat
         /\ continuation r = setAgentContinuation (modelMessages (state r))
         /\ (modelMessages st <> [] \/ (0 < fuel)%nat -> modelMessages (state r) <> [])
     | Stopped =>
         continuation r = None /\ (calls < before + fuel)%nat
         /\ stopRequested env (step + (calls - before)) = true
     | _ => continuation r = None /\ (before < calls)%nat
     end.
Proof.
  induction fuel as [|fuel IH]; intros step st; cbv zeta.
  - cbn [loop]. state_simpl. repeat split; try lia.
    + exists []. now eexists.
    + intros [H|H]; [exact H|lia].
  - cbn [loop]. pose proof (round_shape step st) as Hr.
    destruct (round env step st) as [st'|r].
    + destruct Hr as (Hstop & (more & Hui) & Hcalls & Hmm).
      destruct (IH (S step) st') as ((more' & m & Hui') & Hle & Hex).
      cbv zeta in Hle, Hex. rewrite Hcalls in Hle, Hex.
      split; [exists (more ++ more'), m; now rewrite Hui', Hui, <- !app_assoc|].
      split; [lia|].
      destruct (exit (loop env fuel (S step) st')).
      * destruct Hex as (Hc & Hlt & Hs). repeat split; [exact Hc|lia|].
        rewrite <- Hs. f_equal. lia.
      * destruct Hex as (Hc & Hlt). split; [exact Hc|lia].
      * destruct Hex as (Hc & Hlt). split; [exact Hc|lia].
      * destruct Hex as (Hc & Hlt). split; [exact Hc|lia].
      * destruct Hex as (Hn & Hc & Hm). repeat split; [lia|exact Hc|].
        intros _. apply Hm. now left.
    + destruct Hr as (Hc & (m & Hui) & Hcase).
      split; [exists [], m; exact Hui|].
      destruct (stopRequested env step) eqn:Hstop.
      * destruct Hcase as (Hx & Hcalls). rewrite Hx, Hcalls.
        repeat split; try lia; [exact Hc|].
        now rewrite Nat.sub_diag, Nat.add_0_r.
      * destruct Hcase as (Hx & Hy & Hcalls). rewrite Hcalls. split; [lia|].
        destruct (exit r); try contradiction; split; try exact Hc; lia.
Qed.

End TurnFacts.

(** X14: whatever the model answers and whatever the tools do, a turn
    calls the model at most [maxSteps] times.  It stops on the step limit
    after exactly [maxSteps] calls, it stops on a stop request only when
    the request stood at the round it had reached, before the limit, and
    every other end comes after at least one model call. *)
Theorem turn_step_budget {W : Type} (env : Agent.Env W) (maxSteps : nat)
    (baseMessages modelMessagesSeed : list Agent.Msg) (todos0 : list Todo.TodoItem) (w : W) :
  let r := Agent.runAgentTurn env maxSteps baseMessages modelMessagesSeed todos0 w in
  let calls := Agent.modelCalls (Agent.events (Agent.state r)) in
  (calls <= maxSteps)%nat
  /\ match Agent.exit r with
     | Agent.StepLimitReached => calls = maxSteps
     | Agent.Stopped => (calls < maxSteps)%nat /\ Agent.stopRequested env calls = true
     | _ => (1 <= calls)%nat
     end.
Proof.
  intros r calls. subst calls r. unfold Agent.runAgentTurn.
  match goal with
  | |- context [Agent.loop env maxSteps 0 ?s] =>
      destruct (loop_shape env maxSteps 0%nat s) as (_ & Hle & Hex);
      cbv zeta in Hle, Hex; cbn [Agent.events] in Hle, Hex;
      change (Agent.modelCalls []) with O in Hle, Hex;
      destruct (Agent.exit (Agent.loop env maxSteps 0 s))
  end; (split; [lia|]).
  - destruct Hex as (_ & Hlt & Hs). split; [lia|].
    rewrite Nat.sub_0_r in Hs. exact Hs.
  - lia.
  - lia.
  - lia.
  - lia.
Qed.

(** X15: a continuation is saved exactly when the turn stops on the step
    limit: it is then the model messages as they stand, which are not
    empty; every other end of a turn clears it. *)
Theorem continuation_only_at_step_limit {W : Type} (env : Agent.Env W) (maxSteps : nat)
    (baseMessages modelMessagesSeed : list Agent.Msg) (todos0 : list Todo.TodoItem) (w : W) :
  (1 <= maxSteps)%nat ->
  let r := Agent.runAgentTurn env maxSteps baseMessages modelMessagesSeed todos0 w in
  match Agent.exit r with
  | Agent.StepLimitReached =>
      Agent.continuation r = Some (Agent.modelMessages (Agent.state r))
      /\ Agent.modelMessages (Agent.state r) <> []
  | _ => Agent.continuation r = None
  end.
Proof.
  intros Hsteps r. subst r. unfold Agent.runAgentTurn.
  match goal with
  | |- context [Agent.loop env maxSteps 0 ?s] =>
      destruct (loop_shape env maxSteps 0%nat s) as (_ & _ & Hex);
      cbv zeta in Hex;
      destruct (Agent.exit (Agent.loop env maxSteps 0 s)); try apply Hex;
      destruct Hex as (_ & Hc & Hm);
      assert (Hne : Agent.modelMessages (Agent.state (Agent.loop env maxSteps 0 s)) <> [])
        by (apply Hm; right; lia)
  end.
  split; [|exact Hne].
  rewrite Hc. unfold Agent.setAgentContinuation.
  destruct (Agent.modelMessages _); [contradiction|reflexivity].
Qed.

Lemma continuation_only_at_step_limit_witness :
  let r := Agent.runAgentTurn
             (Agent.todoStub [Todo.mkItem "1" "write the fix" "pending"] 32000)
             (Agent.getAgentMaxSteps None) [Agent.user "please fix the bug"] [] [] tt in
  match Agent.exit r with
  | Agent.StepLimitReached =>
      Agent.continuation r = Some (Agent.modelMessages (Agent.state r))
      /\ Agent.modelMessages (Agent.state r) <> []
  | _ => Agent.continuation r = None
  end.
Proof.
  exact (continuation_only_at_step_limit
           (Agent.todoStub [Todo.mkItem "1" "write the fix" "pending"] 32000)
           (Agent.getAgentMaxSteps None) [Agent.user "please fix the bug"] [] [] tt
           ltac:(vm_compute; lia)).
Defined.

(** X16: a turn never removes or rewrites a message that was already
    shown: the messages it leaves are the ones it was given followed by at
    least one new message. *)
Theorem turn_messages_append_only {W : Type} (env : Agent.Env W) (maxSteps : nat)
    (baseMessages modelMessagesSeed : list Agent.Msg) (todos0 : list Todo.TodoItem) (w : W) :
  exists added,
    added <> []
    /\ Agent.uiMessages
         (Agent.state (Agent.runAgentTurn env maxSteps baseMessages modelMessagesSeed todos0 w))
       = baseMessages ++ added.
Proof.
  unfold Agent.runAgentTurn.
  match goal with
  | |- context [Agent.loop env maxSteps 0 ?s] =>
      destruct (loop_shape env maxSteps 0%nat s) as ((more & m & Hui) & _)
  end.
  exists (more ++ [m]). split; [|exact Hui].
  intros E. now apply app_eq_nil in E as [_ E].
Qed.


(** X18: the step setting is clamped to between one and fifty, so a turn
    run with it calls the model at most fifty times, whatever the setting,
    the model and the tools. *)
Theorem setting_bounds_model_calls {W : Type} (env : Agent.Env W) (setting : option Z)
    (baseMessages modelMessagesSeed : list Agent.Msg) (todos0 : list Todo.TodoItem) (w : W) :
  (1 <= Agent.getAgentMaxSteps setting <= 50)%nat
  /\ (Agent.modelCalls
        (Agent.events
           (Agent.state
              (Agent.runAgentTurn env (Agent.getAgentMaxSteps setting)
                 baseMessages modelMessagesSeed todos0 w))) <= 50)%nat.
Proof.
  assert (Hrange : (1 <= Agent.getAgentMaxSteps setting <= 50)%nat).
  { unfold Agent.getAgentMaxSteps. destruct setting as [raw|]; lia. }
  split; [exact Hrange|].
  unfold Agent.runAgentTurn.
  match goal with
  | |- context [Agent.loop env ?k 0 ?s] =>
      destruct (loop_shape env k 0%nat s) as (_ & Hle & _);
      cbv zeta in Hle; cbn [Agent.events] in Hle;
      change (Agent.modelCalls []) with O in Hle
  end.
  lia.
Qed.


(** ** Texts and their lengths *)
Section StringFacts.
Import Js.

Lemma length_append (a b : string) :
  String.length (a +:+ b) = (String.length a + String.length b)%nat.
Proof.
  induction a as [|x a IH]; [reflexivity|].
  change (S (String.length (a +:+ b)) = S (String.length a + String.length b)).
  now rewrite IH.
Qed.

Lemma substring_length (s : string) : forall n m,
  (n + m <= String.length s)%nat -> String.length (String.substring n m s) = m.
Proof.
  induction s as [|c s IH]; intros [|n] [|m] H; cbn [String.length] in H;
    cbn [String.substring String.length]; try lia; try reflexivity.
  - f_equal. apply IH. lia.
  - apply IH. lia.
  - apply IH. lia.
Qed.

Lemma substring_prefix (a b : string) :
  String.substring 0 (String.length a) (a +:+ b) = a.
Proof.
  induction a as [|x a IH]; [now destruct b|].
  change (String x (String.substring 0 (String.length a) (a +:+ b)) = String x a).
  now rewrite IH.
Qed.

Lemma strlen_append (a b : string) : strlen (a +:+ b) = strlen a + strlen b.
Proof. unfold strlen. rewrite length_append. lia. Qed.

Lemma strlen_slice (a b : Z) (s : string) :
  0 <= a <= b -> b <= strlen s -> strlen (slice a b s) = b - a.
Proof.
  unfold strlen, slice. intros Hab Hb. rewrite substring_length; lia.
Qed.

End StringFacts.

(** ** The history sent to the model *)
Section TrimBudget.
Import Js Agent.

Lemma trimLoop_budget (limit : Z) (rev : list Msg) : forall total out,
  totalChars out = total -> total <= limit ->
  totalChars (trimLoop limit rev false total out) <= limit.
Proof.
  induction rev as [|msg rev IH]; intros total out Ht Hle; cbn [trimLoop andb]; cbv zeta.
  - lia.
  - destruct (limit <? total + strlen (content msg)) eqn:E1; [now apply IH|].
    apply Z.ltb_ge in E1.
    destruct (limit <=? total + strlen (content msg)).
    + change (strlen (content msg) + totalChars out <= limit). lia.
    + apply IH; [|lia]. change (strlen (content msg) + totalChars out = total + strlen (content msg)).
      lia.
Qed.

Lemma trimLoop_last (limit : Z) (rev : list Msg) : forall isLast total out,
  out <> [] -> last (trimLoop limit rev isLast total out) = last out.
Proof.
  induction rev as [|msg rev IH]; intros isLast total out Hout; cbn [trimLoop]; cbv zeta.
  - reflexivity.
  - destruct (isLast && _); [now destruct out|].
    destruct (limit <? _); [now apply IH|].
    destruct (limit <=? _); [now destruct out|].
    rewrite IH by discriminate. now destruct out.
Qed.

End TrimBudget.

(** X19: with a positive limit, the messages kept for the model hold at
    most [limit] characters in all. *)
Theorem trim_within_budget (messages : list Agent.Msg) (limit : Z) :
  0 < limit ->
  Agent.totalChars (Agent.trimChatMessagesForModel messages limit) <= limit.
Proof.
  intros Hl. unfold Agent.trimChatMessagesForModel.
  destruct (reverse messages) as [|lastMsg older]; [cbn; lia|].
  rewrite (proj2 (Z.eqb_neq limit 0)) by lia.
  cbn [Agent.trimLoop andb]. cbv zeta. rewrite ?Z.add_0_l.
  destruct (limit <? Js.strlen (Agent.content lastMsg)) eqn:E.
  - apply Z.ltb_lt in E.
    change (Js.strlen (Js.slice (Js.strlen (Agent.content lastMsg) - limit)
                         (Js.strlen (Agent.content lastMsg)) (Agent.content lastMsg)) + 0
            <= limit).
    rewrite strlen_slice; lia.
  - apply Z.ltb_ge in E.
    destruct (limit <=? Js.strlen (Agent.content lastMsg)).
    + change (Js.strlen (Agent.content lastMsg) + 0 <= limit). lia.
    + apply trimLoop_budget; [|lia].
      change (Js.strlen (Agent.content lastMsg) + 0 = Js.strlen (Agent.content lastMsg)). lia.
Qed.

Lemma trim_within_budget_witness :
  Agent.totalChars
    (Agent.trimChatMessagesForModel
       [Agent.user "first question"; Agent.assistant "a long answer"; Agent.user "next"] 10)
  <= 10.
Proof.
  apply (trim_within_budget
           [Agent.user "first question"; Agent.assistant "a long answer"; Agent.user "next"] 10).
  lia.
Defined.

(** X20: the newest message is always kept, and kept last: whole when it
    fits the limit (or when the limit is zero), and cut down to its last
    [limit] characters otherwise. *)
Theorem trim_keeps_last (l : list Agent.Msg) (m : Agent.Msg) (limit : Z) :
  0 <= limit ->
  last (Agent.trimChatMessagesForModel (l ++ [m]) limit)
  = Some (if (0 <? limit) && (limit <? Js.strlen (Agent.content m))
          then Agent.mkMsg (Agent.role m)
                 (Js.slice (Js.strlen (Agent.content m) - limit)
                    (Js.strlen (Agent.content m)) (Agent.content m))
          else m).
Proof.
  intros Hl. unfold Agent.trimChatMessagesForModel.
  rewrite reverse_app, reverse_singleton. cbn [app].
  destruct (limit =? 0) eqn:E0.
  - apply Z.eqb_eq in E0. subst limit. reflexivity.
  - apply Z.eqb_neq in E0. rewrite (proj2 (Z.ltb_lt 0 limit)) by lia.
    cbn [Agent.trimLoop andb]. cbv zeta. rewrite ?Z.add_0_l.
    destruct (limit <? Js.strlen (Agent.content m)) eqn:E; [reflexivity|].
    destruct (limit <=? Js.strlen (Agent.content m)); [reflexivity|].
    now rewrite trimLoop_last by discriminate.
Qed.

Lemma trim_keeps_last_witness :
  last (Agent.trimChatMessagesForModel
          ([Agent.user "first question"] ++ [Agent.assistant "a long answer"]) 6)
  = Some (Agent.assistant "answer").
Proof.
  rewrite (trim_keeps_last [Agent.user "first question"]
             (Agent.assistant "a long answer") 6 ltac:(lia)).
  reflexivity.
Defined.

(** ** The messages a new turn is seeded with *)
Section SeedFacts.
Import Js Agent.

Lemma modelMessageOf_fix (msg m' : Msg) :
  modelMessageOf msg = Some m' -> modelMessageOf m' = Some m'.
Proof.
  unfold modelMessageOf. cbv zeta.
  destruct (bool_decide (role msg = "assistant")) eqn:Hr; cbn [andb].
  - destruct (hasPrefix "Tool call:" (content msg)) eqn:H1; [discriminate|].
    destruct (hasPrefix "Tool result" (content msg)) eqn:H2.
    + intros [= <-]. reflexivity.
    + destruct (_ || _) eqn:H3; [discriminate|].
      intros [= <-]. rewrite Hr. cbn [andb]. now rewrite H1, H2, H3.
  - intros [= <-]. now rewrite Hr.
Qed.

Lemma build_app (a b : list Msg) :
  buildAgentModelMessages (a ++ b) = buildAgentModelMessages a ++ buildAgentModelMessages b.
Proof.
  induction a as [|x a IH]; [reflexivity|].
  cbn [app buildAgentModelMessages]. destruct (modelMessageOf x); now rewrite IH.
Qed.

Lemma format_is_tool_result (tool resultText : string) :
  hasPrefix "Tool result" (formatToolResultForUi tool resultText) = true
  /\ hasPrefix "Tool call:" (formatToolResultForUi tool resultText) = false.
Proof.
  unfold formatToolResultForUi. cbv zeta.
  destruct (bool_decide (tool = EmptyString));
    destruct (bool_decide (tool = "run_command")); try (split; reflexivity);
    destruct (bool_decide (tool ∈ _)); try (split; reflexivity);
    destruct (includesText _ _); split; reflexivity.
Qed.

End SeedFacts.

(** X21: rebuilding the model messages from a chat is idempotent: what
    it returns holds nothing it would drop or change. *)
Theorem buildAgentModelMessages_idempotent (messages : list Agent.Msg) :
  Agent.buildAgentModelMessages (Agent.buildAgentModelMessages messages)
  = Agent.buildAgentModelMessages messages.
Proof.
  induction messages as [|msg rest IH]; [reflexivity|].
  cbn [Agent.buildAgentModelMessages].
  destruct (Agent.modelMessageOf msg) as [m'|] eqn:E; [|exact IH].
  cbn [Agent.buildAgentModelMessages].
  now rewrite (modelMessageOf_fix msg m' E), IH.
Qed.

(** X22: every tool result the loop shows, whatever the tool and its
    output, comes back as a user message when the model messages are
    rebuilt from the chat, while the notice of a stop is dropped. *)
Theorem tool_results_return_as_user (shown : list Agent.Msg) (tool resultText : string) :
  Agent.buildAgentModelMessages
    (shown ++ [Agent.assistant (Agent.formatToolResultForUi tool resultText);
               Agent.assistant Agent.stepLimitText])
  = Agent.buildAgentModelMessages shown
      ++ [Agent.user (Agent.formatToolResultForUi tool resultText)].
Proof.
  rewrite build_app. f_equal. cbn [Agent.buildAgentModelMessages].
  destruct (format_is_tool_result tool resultText) as [H1 H2].
  unfold Agent.modelMessageOf at 1. cbv zeta. cbn [Agent.role Agent.content Agent.assistant].
  rewrite H1, H2. reflexivity.
Qed.

(** ** Tool output and tool calls *)
Section OutputFacts.
Import Js Agent.

Lemma slice_prefix (a b : string) (n : Z) :
  strlen a = n -> slice 0 n (a +:+ b) = a.
Proof.
  unfold strlen, slice. intros <-. rewrite Z.sub_0_r, Nat2Z.id.
  change (Z.to_nat 0) with O. apply substring_prefix.
Qed.

Lemma slice_prefix_length (text : string) (n : Z) :
  0 <= n <= strlen text -> strlen (slice 0 n text) = n.
Proof. intros H. rewrite strlen_slice; lia. Qed.

End OutputFacts.

(** X23: a tool output is cut to at most 12015 characters before it is
    shown and sent to the model, and the cut keeps its first 12000
    characters as they were. *)
Theorem limitToolOutput_bound (text : string) :
  Js.strlen (Agent.limitToolOutput text) <= 12015
  /\ Js.slice 0 12000 (Agent.limitToolOutput text) = Js.slice 0 12000 text.
Proof.
  unfold Agent.limitToolOutput.
  destruct (Js.strlen text <=? 12000) eqn:E.
  - apply Z.leb_le in E. split; [lia|reflexivity].
  - apply Z.leb_gt in E.
    assert (Hn : Js.strlen (Js.slice 0 12000 text) = 12000)
      by (apply slice_prefix_length; lia).
    split.
    + rewrite !strlen_append, Hn. unfold Js.strlen. cbn [String.length Diff.NL]. lia.
    + now apply slice_prefix.
Qed.

(** X24: normalising a tool call twice is the same as normalising it
    once, and a normalised call keeps every argument of the call: only its
    query may be replaced, by the query trimmed. *)
Theorem normalizeToolCall_idempotent (call : Dispatch.ToolCall) :
  let n := Dispatch.normalizeToolCall call in
  Dispatch.normalizeToolCall n = n
  /\ Dispatch.command (Dispatch.args n) = Dispatch.command (Dispatch.args call)
  /\ Dispatch.cwd (Dispatch.args n) = Dispatch.cwd (Dispatch.args call)
  /\ Dispatch.timeoutMs (Dispatch.args n) = Dispatch.timeoutMs (Dispatch.args call)
  /\ Dispatch.others (Dispatch.args n) = Dispatch.others (Dispatch.args call)
  /\ Js.trim (Dispatch.textOr (Dispatch.query (Dispatch.args n)))
     = Js.trim (Dispatch.textOr (Dispatch.query (Dispatch.args call))).
Proof.
  intros n. subst n.
  destruct (bool_decide (Dispatch.tool call = "search")) eqn:Hs.
  - destruct (Dispatch.isLikelyFileQuery
                (Js.trim (Dispatch.textOr (Dispatch.query (Dispatch.args call))))) eqn:Hq.
    + assert (Hn : Dispatch.normalizeToolCall call
                   = Dispatch.mkCall "locate_file"
                       (Dispatch.mkArgs
                          (Some (Js.trim (Dispatch.textOr (Dispatch.query (Dispatch.args call)))))
                          (Dispatch.command (Dispatch.args call))
                          (Dispatch.cwd (Dispatch.args call))
                          (Dispatch.timeoutMs (Dispatch.args call))
                          (Dispatch.others (Dispatch.args call))))
        by (unfold Dispatch.normalizeToolCall; now rewrite Hs, Hq).
      rewrite Hn.
      cbn [Dispatch.args Dispatch.command Dispatch.cwd Dispatch.timeoutMs Dispatch.others
           Dispatch.query].
      change (Dispatch.textOr
                (Some (Js.trim (Dispatch.textOr (Dispatch.query (Dispatch.args call))))))
        with (Js.trim (Dispatch.textOr (Dispatch.query (Dispatch.args call)))).
      rewrite trim_idem. repeat split.
    + assert (Hn : Dispatch.normalizeToolCall call
                   = Dispatch.mkCall (Dispatch.tool call) (Dispatch.args call))
        by (unfold Dispatch.normalizeToolCall; now rewrite Hs, Hq).
      rewrite Hn. cbn [Dispatch.args]. repeat split.
      unfold Dispatch.normalizeToolCall. cbn [Dispatch.tool Dispatch.args].
      now rewrite Hs, Hq.
  - assert (Hn : Dispatch.normalizeToolCall call
                 = Dispatch.mkCall (Dispatch.tool call) (Dispatch.args call))
      by (unfold Dispatch.normalizeToolCall; now rewrite Hs).
    rewrite Hn. cbn [Dispatch.args]. repeat split.
    unfold Dispatch.normalizeToolCall. cbn [Dispatch.tool Dispatch.args].
    now rewrite Hs.
Qed.


(** ** The scanner on texts without a backslash, and the spans it finds *)
Section ScanAgree.
Import Js Parser.
Context {A : Type}.
Variables f g : ascii -> bool.
Variable close : Z -> Z -> A -> A.

Lemma scanChar_ext (i : Z) (ch : ascii) (st : ScanState * A) :
  f ch = g ch -> scanChar f close i ch st = scanChar g close i ch st.
Proof. intros H. unfold scanChar. destruct st as [s acc]. now rewrite H. Qed.

Lemma scanFrom_ext (src : string) : forall i st,
  (forall ch, includes ch src = true -> f ch = g ch) ->
  scanFrom f close i src st = scanFrom g close i src st.
Proof.
  induction src as [|c src IH]; intros i st H; [reflexivity|].
  cbn [scanFrom]. rewrite (scanChar_ext i c st).
  - apply IH. intros ch Hch. apply H. cbn [includes]. rewrite Hch. apply orb_true_r.
  - apply H. cbn [includes]. now rewrite bool_decide_eq_true_2 by reflexivity.
Qed.
End ScanAgree.

Lemma no_backslash_tests_agree (src : string) :
  Js.includes Js.bslash src = false ->
  forall ch, Js.includes ch src = true -> Parser.srcIsEscape ch = Parser.specIsEscape ch.
Proof.
  intros Hno ch Hch. rewrite srcIsEscape_never. symmetry.
  unfold Parser.specIsEscape, Js.chEq. apply bool_decide_eq_false.
  intros E. injection E as E. subst ch. unfold Js.bslash in Hno. congruence.
Qed.

(** X25: on a text that holds no backslash, the scanner of the two
    extractors finds what a scanner that respects backslash escapes finds:
    the same tool calls and prose, and the same todo list and range. *)
Theorem scanner_right_without_backslash {Call Item : Type}
    (toolCallsOf : string -> option (list Call)) (todoOf : string -> option (list Item))
    (text : string) :
  Js.includes Js.bslash text = false ->
  Parser.extractToolCallsFromText toolCallsOf text
  = Parser.extractWith toolCallsOf Parser.specIsEscape text
  /\ Parser.extractTodoFromText todoOf text
     = Parser.firstTodo todoOf text (Parser.todoSpans Parser.specIsEscape text).
Proof.
  intros Hno. pose proof (no_backslash_tests_agree text Hno) as Hagree.
  unfold Parser.extractToolCallsFromText, Parser.extractWith, Parser.scanToolCalls,
    Parser.extractTodoFromText, Parser.todoSpans.
  now rewrite !(scanFrom_ext Parser.srcIsEscape Parser.specIsEscape _ text _ _ Hagree).
Qed.

Lemma scanner_right_without_backslash_witness :
  Parser.extractToolCallsFromText (fun _ : string => Some [tt]) Parser.realObject
  = Parser.extractWith (fun _ : string => Some [tt]) Parser.specIsEscape Parser.realObject.
Proof.
  destruct (scanner_right_without_backslash (fun _ : string => Some [tt])
              (fun _ : string => @None (list unit)) Parser.realObject
              ltac:(vm_compute; reflexivity)) as [H _].
  exact H.
Defined.

Section SpanFacts.
Import Js Parser.

Lemma orderedWithin_le (ranges : list (Z * Z)) : forall c b,
  orderedWithin c b ranges -> c <= b.
Proof.
  induction ranges as [|[from to] rest IH]; intros c b H; [exact H|].
  destruct H as (H1 & H2 & H3). apply IH in H3. lia.
Qed.

Lemma orderedWithin_mono (ranges : list (Z * Z)) : forall c b b',
  orderedWithin c b ranges -> b <= b' -> orderedWithin c b' ranges.
Proof.
  induction ranges as [|[from to] rest IH]; intros c b b' H Hb; cbn [orderedWithin] in *.
  - lia.
  - destruct H as (H1 & H2 & H3). repeat split; [exact H1|exact H2|].
    now apply (IH to b b').
Qed.

Lemma orderedWithin_snoc (ranges : list (Z * Z)) : forall c b from to,
  orderedWithin c b ranges -> b <= from -> from < to ->
  orderedWithin c to (ranges ++ [(from, to)]).
Proof.
  induction ranges as [|[f t] rest IH]; intros c b from to H Hb Hft;
    cbn [orderedWithin app] in *.
  - repeat split; lia.
  - destruct H as (H1 & H2 & H3). repeat split; [exact H1|exact H2|].
    now apply (IH t b from to).
Qed.

Context {A : Type}.
Variable isEscape : ascii -> bool.
Variable close : Z -> Z -> A -> A.
Variable rangesOf : A -> list (Z * Z).
Hypothesis close_spans : forall from to acc,
  rangesOf (close from to acc) = rangesOf acc
  \/ rangesOf (close from to acc) = rangesOf acc ++ [(from, to)].

Lemma scanChar_ok (i : Z) (ch : ascii) (s : ScanState) (acc : A) (cursor : Z) :
  scanOk cursor i s -> orderedWithin 0 cursor (rangesOf acc) ->
  exists cursor',
    scanOk cursor' (i + 1) (scanChar isEscape close i ch (s, acc)).1
    /\ orderedWithin 0 cursor' (rangesOf (scanChar isEscape close i ch (s, acc)).2).
Proof.
  intros Hs Hr. pose proof (orderedWithin_le _ _ _ Hr) as Hc.
  assert (Hkeep : forall a b, scanOk cursor (i + 1) (mkScan (depth s) (start s) a b)).
  { intros a b. unfold scanOk in *. cbn [depth start]. lia. }
  unfold scanChar.
  destruct (inString s).
  { destruct (escape s); [exists cursor; split; [apply Hkeep|exact Hr]|].
    destruct (isEscape ch); [exists cursor; split; [apply Hkeep|exact Hr]|].
    destruct (chEq ch _); exists cursor; (split; [|exact Hr]); [apply Hkeep|].
    cbn [fst]. unfold scanOk in *. lia. }
  destruct (chEq ch (String dq EmptyString)); [exists cursor; split; [apply Hkeep|exact Hr]|].
  destruct (chEq ch "{").
  { exists cursor. split; [|exact Hr]. cbn [fst]. unfold scanOk in *. cbn [depth start].
    destruct (depth s =? 0) eqn:E; [apply Z.eqb_eq in E|apply Z.eqb_neq in E]; lia. }
  destruct (chEq ch "}" && (0 <? depth s)) eqn:Eclose.
  2:{ exists cursor. split; [|exact Hr]. cbn [fst]. unfold scanOk in *. lia. }
  apply andb_true_iff in Eclose as [_ Hd]. apply Z.ltb_lt in Hd. cbv zeta.
  assert (Hst : cursor <= start s < i) by (unfold scanOk in Hs; lia).
  destruct ((depth s - 1 =? 0) && (0 <=? start s)) eqn:E.
  - exists (i + 1). cbn [fst snd]. split; [unfold scanOk; cbn [depth start]; lia|].
    destruct (close_spans (start s) (i + 1) acc) as [-> | ->].
    + apply (orderedWithin_mono _ 0 cursor); [exact Hr|lia].
    + apply (orderedWithin_snoc _ 0 cursor); [exact Hr|lia|lia].
  - exists cursor. cbn [fst snd]. split; [|exact Hr].
    apply andb_false_iff in E as [E|E]; [apply Z.eqb_neq in E|apply Z.leb_gt in E];
      unfold scanOk; cbn [depth start]; lia.
Qed.

Lemma scanFrom_ok (src : string) : forall i s acc cursor,
  scanOk cursor i s -> orderedWithin 0 cursor (rangesOf acc) ->
  orderedWithin 0 (i + strlen src) (rangesOf (scanFrom isEscape close i src (s, acc)).2).
Proof.
  induction src as [|c src IH]; intros i s acc cursor Hs Hr.
  - cbn [scanFrom snd]. apply (orderedWithin_mono _ 0 cursor); [exact Hr|].
    unfold scanOk, strlen in *. cbn [String.length]. lia.
  - cbn [scanFrom]. destruct (scanChar_ok i c s acc cursor Hs Hr) as (cursor' & Hs' & Hr').
    destruct (scanChar isEscape close i c (s, acc)) as [s' acc']. cbn [fst snd] in Hs', Hr'.
    replace (i + strlen (String c src)) with (i + 1 + strlen src)
      by (unfold strlen; cbn [String.length]; lia).
    now apply (IH (i + 1) s' acc' cursor').
Qed.

End SpanFacts.

Lemma scan0_ok : Parser.scanOk 0 0 Parser.scan0.
Proof. left. repeat split. lia. Qed.

Lemma toolCall_spans_ordered {Call : Type} (toolCallsOf : string -> option (list Call))
    (isEscape : ascii -> bool) (text : string) :
  Parser.orderedWithin 0 (Js.strlen text)
    (Parser.scanToolCalls toolCallsOf isEscape text).2.
Proof.
  unfold Parser.scanToolCalls. change (Js.strlen text) with (0 + Js.strlen text).
  apply (scanFrom_ok isEscape (Parser.closeToolCalls toolCallsOf text) snd) with (cursor := 0).
  - intros from to acc. unfold Parser.closeToolCalls.
    destruct (toolCallsOf _); [now right|now left].
  - exact scan0_ok.
  - cbn. lia.
Qed.

Lemma todo_spans_ordered (isEscape : ascii -> bool) (text : string) :
  Parser.orderedWithin 0 (Js.strlen text) (Parser.todoSpans isEscape text).
Proof.
  unfold Parser.todoSpans. change (Js.strlen text) with (0 + Js.strlen text).
  apply (scanFrom_ok isEscape (fun from to acc => acc ++ [(from, to)]) (fun acc => acc))
    with (cursor := 0).
  - intros from to acc. now right.
  - exact scan0_ok.
  - cbn. lia.
Qed.


(** X26: the spans the scanner collects, for the tool calls and for the
    todo list, start at or after the start of the text, end at or before
    its end, follow one another in order without overlap, and are never
    empty. *)
Theorem spans_ordered_within_text {Call : Type} (toolCallsOf : string -> option (list Call))
    (text : string) :
  Parser.orderedWithin 0 (Js.strlen text)
    (Parser.scanToolCalls toolCallsOf Parser.srcIsEscape text).2
  /\ Parser.orderedWithin 0 (Js.strlen text) (Parser.todoSpans Parser.srcIsEscape text).
Proof.
  split; [apply toolCall_spans_ordered|apply todo_spans_ordered].
Qed.

